(** * ChatVault: chunker, vector index, task executor and citation extractor

    A shallow embedding of the Python services under [apps/api/src]
    ([services/chunking.py], [services/index_faiss.py], [services/index.py],
    [services/embed.py], [utils/tasks.py], [services/rag.py]) and the
    properties of the specification that can be stated over it.

    Conventions.
    - Python [int] is [Z]; [str] is [string] restricted to ASCII text;
      a [dict] with a fixed set of keys is a record, a key that the code
      reads with [d[k]] and that may be absent is an [option] field
      (absence raises [KeyError]); a [dict] used as a table is a [gmap].
    - A call that can raise returns [result A]; a [try/except Exception]
      is [try_except], which lets errors outside the [Exception] hierarchy
      through, as Python does.
    - Calls into third-party libraries (tiktoken, numpy, faiss, qdrant,
      the file system) are Section variables: the theorems hold for every
      behaviour of the library, the examples fix a concrete one. *)

From Stdlib Require Import ZArith QArith List String Ascii Bool Lia Sorted.
From Stdlib Require Import DecimalString DecimalPos.
From stdpp Require Import gmap strings list sorting.
Import ListNotations.

Local Open Scope Z_scope.
Local Open Scope list_scope.

(** ** Python prelude *)

Module Py.

(** The exception classes the modelled code can meet. *)
Inductive exn_class :=
| AttributeError | AssertionError | KeyError | IndexError | ValueError
| TypeError | RuntimeError | OSError | ZeroDivisionError
| CancelledError | KeyboardInterrupt.

(** An exception value; [exn_msg e] is [str(e)]. *)
Record exn := Exn { exn_cls : exn_class; exn_msg : string }.

(** [isinstance(e, Exception)]: [asyncio.CancelledError] and
    [KeyboardInterrupt] derive from [BaseException] only. *)
Definition is_Exception (e : exn) : bool :=
  match exn_cls e with
  | CancelledError | KeyboardInterrupt => false
  | _ => true
  end.

Inductive result (A : Type) :=
| Ok (a : A)
| Raise (e : exn).
Arguments Ok {A} a.
Arguments Raise {A} e.

Definition bind {A B} (r : result A) (k : A -> result B) : result B :=
  match r with
  | Ok a => k a
  | Raise e => Raise e
  end.

(** [try: body except Exception as e: handler(e)]. *)
Definition try_except {A} (body : result A) (handler : exn -> result A) : result A :=
  match body with
  | Ok a => Ok a
  | Raise e => if is_Exception e then handler e else Raise e
  end.

Definition is_Ok {A} (r : result A) : bool :=
  match r with Ok _ => true | Raise _ => false end.

(** [d[k]] on a key that may be absent. *)
Definition getitem_key {A} (k : string) (v : option A) : result A :=
  match v with
  | Some a => Ok a
  | None => Raise (Exn KeyError k)
  end.

(** [d.get(k, default)]. *)
Definition get_default {A} (v : option A) (default : A) : A :=
  match v with Some a => a | None => default end.

Definition len {A} (l : list A) : Z := Z.of_nat (length l).

(** [l[i]] with Python's negative indices. *)
Definition getitem {A} (l : list A) (i : Z) : result A :=
  let j := if i <? 0 then len l + i else i in
  if (j <? 0) || (len l <=? j) then Raise (Exn IndexError "list index out of range")
  else match nth_error l (Z.to_nat j) with
       | Some a => Ok a
       | None => Raise (Exn IndexError "list index out of range")
       end.

(** A slice bound clamped into [0 .. len l], negative bounds counting from
    the end. *)
Definition clamp {A} (l : list A) (i : Z) : nat :=
  Z.to_nat (Z.min (len l) (Z.max 0 (if i <? 0 then len l + i else i))).

(** [l[:stop]], [l[start:]] and [l[start:stop]]. *)
Definition slice_to {A} (l : list A) (stop : Z) : list A :=
  firstn (clamp l stop) l.
Definition slice_from {A} (l : list A) (start : Z) : list A :=
  skipn (clamp l start) l.
Definition slice {A} (l : list A) (start stop : Z) : list A :=
  skipn (clamp l start) (firstn (clamp l stop) l).

End Py.

Import Py.

Declare Scope result_scope.
Delimit Scope result_scope with result.
Notation "'let*' x ':=' c1 'in' c2" := (Py.bind c1 (fun x => c2))
  (at level 10, x name, c1 at level 100, c2 at level 200) : result_scope.
Local Open Scope result_scope.

(** ** The vector index: [services/index_faiss.py] and [services/index.py] *)

Module Index.

(** [location] of a unit: [{'page': .., 'type': .., 'section': ..}]. *)
Record Location := {
  loc_page : option Z;
  loc_type : string;
  loc_section : string
}.

(** One entry of [FAISSIndex.metadata]. *)
Record Meta := {
  m_chunk_id : string;
  m_text : string;
  m_document_id : option Z;
  m_location : Location;
  m_headings : list string
}.

(** One search hit, as built by both [search] methods. *)
Record Hit := {
  h_chunk_id : string;
  h_score : Q;
  h_text : string;
  h_document_id : option Z;
  h_location : Location;
  h_headings : list string
}.

(** A unit handed to [add_chunks]: keys read with [chunk[k]] may be
    missing. *)
Record Chunk := {
  c_embedding : option (list Q);
  c_chunk_id : option string;
  c_text : option string;
  c_document_id : option Z;
  c_location : option Location;
  c_headings : option (list string)
}.

(** [faiss.IndexFlatIP]: the dimension and the stored rows. *)
Record IndexFlatIP := {
  d : Z;
  xb : list (list Q)
}.

Definition ntotal (ix : IndexFlatIP) : Z := len (xb ix).

(** A file of the [./indices] directory. *)
Inductive file :=
| IndexFile (ix : IndexFlatIP)
| PickleFile (metadata : list Meta).

(** A [FAISSIndex] object together with the disk it persists to. *)
Record FAISSIndex := {
  collection_name : string;
  index : option IndexFlatIP;
  metadata : list Meta;
  disk : gmap string file
}.

Definition index_path (self : FAISSIndex) : string :=
  "./indices/" +:+ collection_name self +:+ ".faiss".
Definition metadata_path (self : FAISSIndex) : string :=
  "./indices/" +:+ collection_name self +:+ "_metadata.pkl".

Definition set_index (self : FAISSIndex) (ix : option IndexFlatIP) : FAISSIndex :=
  {| collection_name := collection_name self; index := ix;
     metadata := metadata self; disk := disk self |}.
Definition set_metadata (self : FAISSIndex) (md : list Meta) : FAISSIndex :=
  {| collection_name := collection_name self; index := index self;
     metadata := md; disk := disk self |}.
Definition set_disk (self : FAISSIndex) (dk : gmap string file) : FAISSIndex :=
  {| collection_name := collection_name self; index := index self;
     metadata := metadata self; disk := dk |}.

(** A point returned by the Qdrant client; payload keys may be missing. *)
Record ScoredPoint := {
  sp_id : string;
  sp_score : Q;
  sp_text : option string;
  sp_document_id : option (option Z);
  sp_location : option Location;
  sp_headings : option (list string)
}.

(** [self.index.<attr>] when [self.index] may be [None]. *)
Definition the_index (self : FAISSIndex) : result IndexFlatIP :=
  match index self with
  | Some ix => Ok ix
  | None => Raise (Exn AttributeError "'NoneType' object has no attribute")
  end.

(** [x in filter_document_ids] for a document id that may be [None]. *)
Definition doc_in (doc : option Z) (ids : list Z) : bool :=
  match doc with
  | Some n => existsb (Z.eqb n) ids
  | None => false
  end.

(** Truthiness of [filter_document_ids]: [None] and [[]] are false. *)
Definition truthy (filter_document_ids : option (list Z)) : bool :=
  match filter_document_ids with
  | Some (_ :: _) => true
  | _ => false
  end.

Definition mk_hit (md : Meta) (score : Q) : Hit :=
  {| h_chunk_id := m_chunk_id md; h_score := score; h_text := m_text md;
     h_document_id := m_document_id md; h_location := m_location md;
     h_headings := m_headings md |}.

Section Library.

(** [np.array(rows)] followed by [faiss.normalize_L2]. *)
Variable normalize_L2 : list (list Q) -> result (list (list Q)).

(** [index.search(query, k)]: the rows [scores[0]] and [indices[0]]. *)
Variable index_search :
  IndexFlatIP -> list (list Q) -> Z -> result (list Q * list Z).

(** [qdrant_client.search(collection, query_vector, limit, filter)]. *)
Variable qdrant_search :
  string -> list Q -> Z -> option (list Z) -> result (list ScoredPoint).

(** The error, if any, that writing to a path raises. *)
Variable io_error : string -> option exn.

(** *** [FAISSIndex.search] *)

(** The [for score, idx in zip(scores[0], indices[0])] loop. *)
Fixpoint search_loop (self : FAISSIndex) (top_k : Z)
    (filter_document_ids : option (list Z))
    (candidates : list (Q * Z)) (results : list Hit)
    (seen_docs : gset (option Z)) : result (list Hit) :=
  match candidates with
  | [] => Ok results
  | (score, idx) :: rest =>
      if len (metadata self) <=? idx
      then search_loop self top_k filter_document_ids rest results seen_docs
      else
        let* md := getitem (metadata self) idx in
        if truthy filter_document_ids
           && negb (doc_in (m_document_id md) (get_default filter_document_ids []))
        then search_loop self top_k filter_document_ids rest results seen_docs
        else if decide (m_document_id md ∈ seen_docs)
        then search_loop self top_k filter_document_ids rest results seen_docs
        else
          let seen_docs' := {[ m_document_id md ]} ∪ seen_docs in
          let results' := results ++ [mk_hit md score] in
          if top_k <=? len results' then Ok results'
          else search_loop self top_k filter_document_ids rest results' seen_docs'
  end.

(** The body of the [try] block. *)
Definition search_body (self : FAISSIndex) (query_embedding : list Q)
    (top_k : Z) (filter_document_ids : option (list Z)) : result (list Hit) :=
  let* ix := the_index self in
  if ntotal ix =? 0 then Ok []
  else
    let* query_vector := normalize_L2 [query_embedding] in
    let* found := index_search ix query_vector (Z.min (top_k * 2) (ntotal ix)) in
    search_loop self top_k filter_document_ids
      (combine (fst found) (snd found)) [] ∅.

Definition FAISSIndex_search (self : FAISSIndex) (query_embedding : list Q)
    (top_k : Z) (filter_document_ids : option (list Z)) : result (list Hit) :=
  try_except (search_body self query_embedding top_k filter_document_ids)
    (fun _ => Ok []).

(** *** [FAISSIndex._save_index] and [FAISSIndex.add_chunks] *)

(** Writing a file: either the write raises and the file is left as it
    was, or the file holds the new content. *)
Definition write_file (path : string) (content : file)
    (dk : gmap string file) : result (gmap string file) :=
  match io_error path with
  | Some e => Raise e
  | None => Ok (<[path := content]> dk)
  end.

(** The [try] block of [_save_index]: the disk it leaves and how it
    ends. *)
Definition save_body (self : FAISSIndex) : gmap string file * result unit :=
  match the_index self with
  | Raise e => (disk self, Raise e)
  | Ok ix =>
      match write_file (index_path self) (IndexFile ix) (disk self) with
      | Raise e => (disk self, Raise e)
      | Ok dk1 =>
          match write_file (metadata_path self) (PickleFile (metadata self)) dk1 with
          | Raise e => (dk1, Raise e)
          | Ok dk2 => (dk2, Ok tt)
          end
      end
  end.

Definition _save_index (self : FAISSIndex) : FAISSIndex * result unit :=
  let '(dk, r) := save_body self in
  (set_disk self dk, try_except r (fun _ => Ok tt)).

(** [self.index.add(embeddings)]: faiss asserts the row width. *)
Definition index_add (ix : IndexFlatIP) (rows : list (list Q)) : result IndexFlatIP :=
  if forallb (fun row => len row =? d ix) rows
  then Ok {| d := d ix; xb := xb ix ++ rows |}
  else Raise (Exn AssertionError "").

Fixpoint embeddings_of (chunks : list Chunk) : result (list (list Q)) :=
  match chunks with
  | [] => Ok []
  | chunk :: rest =>
      let* e := getitem_key "embedding" (c_embedding chunk) in
      let* es := embeddings_of rest in
      Ok (e :: es)
  end.

Definition meta_of (chunk : Chunk) : result Meta :=
  let* cid := getitem_key "chunk_id" (c_chunk_id chunk) in
  let* txt := getitem_key "text" (c_text chunk) in
  let* loc := getitem_key "location" (c_location chunk) in
  Ok {| m_chunk_id := cid; m_text := txt;
        m_document_id := c_document_id chunk; m_location := loc;
        m_headings := get_default (c_headings chunk) [] |}.

(** The [for chunk in chunks: self.metadata.append(..)] loop; entries
    appended before a [KeyError] stay appended. *)
Fixpoint append_metadata (chunks : list Chunk) (self : FAISSIndex)
    : FAISSIndex * result unit :=
  match chunks with
  | [] => (self, Ok tt)
  | chunk :: rest =>
      match meta_of chunk with
      | Raise e => (self, Raise e)
      | Ok md => append_metadata rest (set_metadata self (metadata self ++ [md]))
      end
  end.

(** The in-memory part of [add_chunks], up to the call of
    [_save_index]. *)
Definition add_in_memory (chunks : list Chunk) (self : FAISSIndex)
    : FAISSIndex * result unit :=
  match embeddings_of chunks with
  | Raise e => (self, Raise e)
  | Ok embeddings =>
      match normalize_L2 embeddings with
      | Raise e => (self, Raise e)
      | Ok embeddings' =>
          match (let* ix := the_index self in index_add ix embeddings') with
          | Raise e => (self, Raise e)
          | Ok ix' => append_metadata chunks (set_index self (Some ix'))
          end
      end
  end.

(** [add_chunks]; its handler logs and re-raises, so the outcome of the
    [try] block is the outcome of the call. *)
Definition add_chunks (chunks : list Chunk) (self : FAISSIndex)
    : FAISSIndex * result unit :=
  match chunks with
  | [] => (self, Ok tt)
  | _ =>
      match add_in_memory chunks self with
      | (self1, Raise e) => (self1, Raise e)
      | (self1, Ok _) => _save_index self1
      end
  end.

(** *** [VectorIndex.search] *)

Definition hit_of_point (p : ScoredPoint) : result Hit :=
  let* txt := getitem_key "text" (sp_text p) in
  let* doc := getitem_key "document_id" (sp_document_id p) in
  let* loc := getitem_key "location" (sp_location p) in
  let* hds := getitem_key "headings" (sp_headings p) in
  Ok {| h_chunk_id := sp_id p; h_score := sp_score p; h_text := txt;
        h_document_id := doc; h_location := loc; h_headings := hds |}.

(** The [for result in qdrant_results] loop; it appends to
    [faiss_results] in place, so what was appended before an error
    stays. *)
Fixpoint merge_loop (points : list ScoredPoint) (faiss_results : list Hit)
    : list Hit * result unit :=
  match points with
  | [] => (faiss_results, Ok tt)
  | p :: rest =>
      match hit_of_point p with
      | Raise e => (faiss_results, Raise e)
      | Ok qdrant_result =>
          if existsb (fun r => String.eqb (h_chunk_id r) (h_chunk_id qdrant_result))
               faiss_results
          then merge_loop rest faiss_results
          else merge_loop rest (faiss_results ++ [qdrant_result])
      end
  end.

(** The [try] block of the Qdrant branch. *)
Definition qdrant_body (collection : string) (query_embedding : list Q)
    (top_k : Z) (filter_document_ids : option (list Z))
    (faiss_results : list Hit) : list Hit * result unit :=
  match qdrant_search collection query_embedding
          (top_k - len faiss_results)
          (if truthy filter_document_ids then filter_document_ids else None) with
  | Raise e => (faiss_results, Raise e)
  | Ok qdrant_results => merge_loop qdrant_results faiss_results
  end.

Definition VectorIndex_search (use_qdrant : bool) (self : FAISSIndex)
    (query_embedding : list Q) (top_k : Z)
    (filter_document_ids : option (list Z)) : result (list Hit) :=
  let* faiss_results := FAISSIndex_search self query_embedding top_k filter_document_ids in
  if top_k <=? len faiss_results then Ok faiss_results
  else if use_qdrant && (len faiss_results <? top_k) then
    let '(merged, r) := qdrant_body (collection_name self) query_embedding
                          top_k filter_document_ids faiss_results in
    let* _ := try_except r (fun _ => Ok tt) in
    Ok (slice_to merged top_k)
  else Ok (slice_to faiss_results top_k).

End Library.

(** *** Loading, deleting and inspecting a collection *)

(** [os.path.exists(path)]. *)
Definition path_exists (path : string) (dk : gmap string file) : bool :=
  bool_decide (is_Some (dk !! path)).

(** [_create_new_index]: an empty index of dimension 384. *)
Definition _create_new_index (self : FAISSIndex) : FAISSIndex :=
  set_metadata (set_index self (Some {| d := 384; xb := [] |})) [].

(** [get_collection_info]. *)
Record CollectionInfo := {
  info_name : string;
  vectors_count : Z;
  info_status : string;
  info_type : string
}.

Definition FAISSIndex_get_collection_info (self : FAISSIndex) : CollectionInfo :=
  {| info_name := collection_name self;
     vectors_count := match index self with
                      | Some ix => ntotal ix
                      | None => 0
                      end;
     info_status := "active";
     info_type := "faiss" |}.

(** A [PointStruct] built for the Qdrant client. *)
Record PointStruct := {
  ps_id : string;
  ps_vector : list Q;
  ps_text : string;
  ps_document_id : option Z;
  ps_location : Location;
  ps_headings : list string
}.

(** The module-level [vector_index_manager] and the [./indices]
    directory its collections persist to. *)
Record VectorIndexManager := {
  collections : gmap string FAISSIndex;
  files : gmap string file
}.

(** A collection object of the manager after a call that changed it in
    place, and the directory as the call left it. *)
Definition store (name : string) (c : FAISSIndex) (mgr : VectorIndexManager)
    : VectorIndexManager :=
  {| collections := <[name := c]> (collections mgr); files := disk c |}.

Section Storage.

Variable normalize_L2 : list (list Q) -> result (list (list Q)).
Variable io_error : string -> option exn.

(** The error, if any, that reading a path raises, that removing a path
    raises, and that creating the [./indices] directory raises. *)
Variable read_error : string -> option exn.
Variable remove_error : string -> option exn.
Variable mkdir_error : option exn.

(** [recreate_collection], [upsert] and [delete_collection] of the Qdrant
    client. *)
Variable qdrant_recreate : string -> Z -> result unit.
Variable qdrant_upsert : string -> list PointStruct -> result unit.
Variable qdrant_delete : string -> result unit.

(** [faiss.read_index(path)]: a file that is missing or is not an index
    makes faiss raise, which reaches Python as a [RuntimeError]. *)
Definition read_index (path : string) (dk : gmap string file) : result IndexFlatIP :=
  match read_error path with
  | Some e => Raise e
  | None =>
      match dk !! path with
      | Some (IndexFile ix) => Ok ix
      | _ => Raise (Exn RuntimeError "Error in faiss::read_index")
      end
  end.

(** [with open(path, 'rb') as f: pickle.load(f)]: a file that holds
    something else than a pickled list does not load, with an error of
    the [Exception] hierarchy. *)
Definition pickle_load (path : string) (dk : gmap string file) : result (list Meta) :=
  match read_error path with
  | Some e => Raise e
  | None =>
      match dk !! path with
      | Some (PickleFile md) => Ok md
      | Some (IndexFile _) => Raise (Exn ValueError "could not unpickle")
      | None => Raise (Exn OSError "[Errno 2] No such file or directory")
      end
  end.

(** The [try] block of [_load_or_create_index]: the object as the block
    leaves it and how it ends. *)
Definition load_body (self : FAISSIndex) : FAISSIndex * result unit :=
  if path_exists (index_path self) (disk self)
     && path_exists (metadata_path self) (disk self)
  then
    match read_index (index_path self) (disk self) with
    | Raise e => (self, Raise e)
    | Ok ix =>
        match pickle_load (metadata_path self) (disk self) with
        | Raise e => (set_index self (Some ix), Raise e)
        | Ok md => (set_metadata (set_index self (Some ix)) md, Ok tt)
        end
    end
  else (_create_new_index self, Ok tt).

Definition _load_or_create_index (self : FAISSIndex) : FAISSIndex * result unit :=
  match load_body self with
  | (self1, Ok _) => (self1, Ok tt)
  | (self1, Raise e) =>
      if is_Exception e then (_create_new_index self1, Ok tt)
      else (self1, Raise e)
  end.

(** [FAISSIndex(collection_name)] in a directory that holds [dk]. *)
Definition FAISSIndex_init (name : string) (dk : gmap string file)
    : result FAISSIndex :=
  let self := {| collection_name := name; index := None; metadata := [];
                 disk := dk |} in
  match mkdir_error with
  | Some e => Raise e
  | None =>
      match _load_or_create_index self with
      | (self1, Ok _) => Ok self1
      | (_, Raise e) => Raise e
      end
  end.

(** [os.remove(path)]. *)
Definition remove (path : string) (dk : gmap string file)
    : result (gmap string file) :=
  match remove_error path with
  | Some e => Raise e
  | None => Ok (delete path dk)
  end.

(** The [try] block of [FAISSIndex.delete_collection]. *)
Definition delete_body (self : FAISSIndex) : FAISSIndex * result unit :=
  match (if path_exists (index_path self) (disk self)
         then remove (index_path self) (disk self) else Ok (disk self)) with
  | Raise e => (self, Raise e)
  | Ok dk1 =>
      match (if path_exists (metadata_path self) dk1
             then remove (metadata_path self) dk1 else Ok dk1) with
      | Raise e => (set_disk self dk1, Raise e)
      | Ok dk2 => (set_metadata (set_index (set_disk self dk2) None) [], Ok tt)
      end
  end.

Definition FAISSIndex_delete_collection (self : FAISSIndex)
    : FAISSIndex * result unit :=
  let '(self1, r) := delete_body self in
  (self1, try_except r (fun _ => Ok tt)).

(** *** [VectorIndexManager] *)

(** [get_collection]: the object the manager holds, or a new one that it
    keeps. *)
Definition VectorIndexManager_get_collection (name : string)
    (mgr : VectorIndexManager) : VectorIndexManager * result FAISSIndex :=
  match collections mgr !! name with
  | Some c => (mgr, Ok (set_disk c (files mgr)))
  | None =>
      match FAISSIndex_init name (files mgr) with
      | Raise e => (mgr, Raise e)
      | Ok c => (store name c mgr, Ok c)
      end
  end.

Definition VectorIndexManager_delete_collection (name : string)
    (mgr : VectorIndexManager) : VectorIndexManager * result unit :=
  match collections mgr !! name with
  | Some c =>
      match FAISSIndex_delete_collection (set_disk c (files mgr)) with
      | (c1, Raise e) => (store name c1 mgr, Raise e)
      | (c1, Ok _) =>
          ({| collections := delete name (collections mgr); files := disk c1 |},
           Ok tt)
      end
  | None => (mgr, Ok tt)
  end.

(** *** [VectorIndex.create_collection], [add_chunks] and
    [delete_collection] *)

(** [create_collection]; the [embedding_dim] it is given goes to Qdrant
    only. *)
Definition VectorIndex_create_collection (use_qdrant : bool) (name : string)
    (embedding_dim : Z) (mgr : VectorIndexManager)
    : VectorIndexManager * result unit :=
  match VectorIndexManager_get_collection name mgr with
  | (mgr1, Raise e) => (mgr1, Raise e)
  | (mgr1, Ok _) =>
      if use_qdrant
      then (mgr1, try_except (qdrant_recreate name embedding_dim) (fun _ => Ok tt))
      else (mgr1, Ok tt)
  end.

Definition point_of (chunk : Chunk) : result PointStruct :=
  let* cid := getitem_key "chunk_id" (c_chunk_id chunk) in
  let* vec := getitem_key "embedding" (c_embedding chunk) in
  let* txt := getitem_key "text" (c_text chunk) in
  let* loc := getitem_key "location" (c_location chunk) in
  let* hds := getitem_key "headings" (c_headings chunk) in
  Ok {| ps_id := cid; ps_vector := vec; ps_text := txt;
        ps_document_id := c_document_id chunk; ps_location := loc;
        ps_headings := hds |}.

Fixpoint points_of (chunks : list Chunk) : result (list PointStruct) :=
  match chunks with
  | [] => Ok []
  | chunk :: rest =>
      let* point := point_of chunk in
      let* points := points_of rest in
      Ok (point :: points)
  end.

(** The [try] block of the Qdrant branch of [add_chunks]. *)
Definition upsert_body (name : string) (chunks : list Chunk) : result unit :=
  let* points := points_of chunks in
  qdrant_upsert name points.

Definition VectorIndex_add_chunks (use_qdrant : bool) (name : string)
    (chunks : list Chunk) (mgr : VectorIndexManager)
    : VectorIndexManager * result unit :=
  match VectorIndexManager_get_collection name mgr with
  | (mgr1, Raise e) => (mgr1, Raise e)
  | (mgr1, Ok faiss_collection) =>
      match add_chunks normalize_L2 io_error chunks faiss_collection with
      | (c1, Raise e) => (store name c1 mgr1, Raise e)
      | (c1, Ok _) =>
          if use_qdrant
          then (store name c1 mgr1,
                try_except (upsert_body name chunks) (fun _ => Ok tt))
          else (store name c1 mgr1, Ok tt)
      end
  end.

Definition VectorIndex_delete_collection (use_qdrant : bool) (name : string)
    (mgr : VectorIndexManager) : VectorIndexManager * result unit :=
  match VectorIndexManager_delete_collection name mgr with
  | (mgr1, Raise e) => (mgr1, Raise e)
  | (mgr1, Ok _) =>
      if use_qdrant
      then (mgr1, try_except (qdrant_delete name) (fun _ => Ok tt))
      else (mgr1, Ok tt)
  end.

End Storage.

End Index.

(** ** The task executor: [utils/tasks.py] *)

Module Tasks.

Inductive TaskStatus := PENDING | RUNNING | COMPLETED | FAILED | CANCELLED.

Definition TaskStatus_eqb (a b : TaskStatus) : bool :=
  match a, b with
  | PENDING, PENDING | RUNNING, RUNNING | COMPLETED, COMPLETED
  | FAILED, FAILED | CANCELLED, CANCELLED => true
  | _, _ => false
  end.

(** The terminal statuses of the specification's state machine. *)
Definition terminal (s : TaskStatus) : bool :=
  match s with
  | COMPLETED | FAILED | CANCELLED => true
  | PENDING | RUNNING => false
  end.

(** A row of the [Task] table ([models.py]). *)
Record Task := {
  id : string;
  type : string;
  data : string;
  status : TaskStatus;
  result : option string;
  error : option string;
  created_at : Z;
  started_at : option Z;
  completed_at : option Z
}.

(** Where the coroutine [_execute_task(task_id, ..)] stands: waiting for
    the semaphore, suspended in [await task_func()], or finished, either
    normally or by an error that left the coroutine. *)
Inductive coroutine :=
| AwaitSemaphore
| AwaitTaskFunc
| Finished (outcome : Py.result unit).

(** The [TaskManager], the database session it is handed, and the
    coroutines scheduled on the event loop. *)
Record TaskManager := {
  session : gmap string Task;
  _tasks : gset string;
  _semaphore : nat;
  coroutines : gmap string coroutine
}.

(** [TaskManager.__init__] with an empty table. *)
Definition init : TaskManager :=
  {| session := ∅; _tasks := ∅; _semaphore := 2; coroutines := ∅ |}.

Definition set_session (m : TaskManager) (s : gmap string Task) : TaskManager :=
  {| session := s; _tasks := _tasks m; _semaphore := _semaphore m;
     coroutines := coroutines m |}.
Definition set_coroutine (m : TaskManager) (task_id : string) (c : coroutine)
    : TaskManager :=
  {| session := session m; _tasks := _tasks m; _semaphore := _semaphore m;
     coroutines := <[task_id := c]> (coroutines m) |}.
Definition set_semaphore (m : TaskManager) (n : nat) : TaskManager :=
  {| session := session m; _tasks := _tasks m; _semaphore := n;
     coroutines := coroutines m |}.
Definition set_tasks (m : TaskManager) (t : gset string) : TaskManager :=
  {| session := session m; _tasks := t; _semaphore := _semaphore m;
     coroutines := coroutines m |}.

Definition mark_running (now : Z) (t : Task) : Task :=
  {| id := id t; type := type t; data := data t; status := RUNNING;
     result := result t; error := error t; created_at := created_at t;
     started_at := Some now; completed_at := completed_at t |}.
Definition mark_completed (now : Z) (res : string) (t : Task) : Task :=
  {| id := id t; type := type t; data := data t; status := COMPLETED;
     result := Some res; error := error t; created_at := created_at t;
     started_at := started_at t; completed_at := Some now |}.
Definition mark_failed (now : Z) (e : exn) (t : Task) : Task :=
  {| id := id t; type := type t; data := data t; status := FAILED;
     result := result t; error := Some (exn_msg e); created_at := created_at t;
     started_at := started_at t; completed_at := Some now |}.
Definition mark_cancelled (now : Z) (t : Task) : Task :=
  {| id := id t; type := type t; data := data t; status := CANCELLED;
     result := result t; error := error t; created_at := created_at t;
     started_at := started_at t; completed_at := Some now |}.

(** [task = session.get(Task, task_id); if task: <update>; commit]. *)
Definition update_task (task_id : string) (f : Task -> Task) (m : TaskManager)
    : TaskManager :=
  match session m !! task_id with
  | Some t => set_session m (<[task_id := f t]> (session m))
  | None => m
  end.

(** [submit_task]: the row is written with status PENDING and the
    coroutine is scheduled; [self._tasks] is not touched. [task_id] is the
    fresh [uuid4] and [now] the clock. *)
Definition submit_task (task_id task_type task_data : string) (now : Z)
    (m : TaskManager) : TaskManager :=
  let task := {| id := task_id; type := task_type; data := task_data;
                 status := PENDING; result := None; error := None;
                 created_at := now; started_at := None;
                 completed_at := None |} in
  set_coroutine (set_session m (<[task_id := task]> (session m)))
    task_id AwaitSemaphore.

(** [_execute_task] from [async with self._semaphore] to the suspension
    in [await task_func()]: runs when a permit is free. *)
Definition _execute_task_start (task_id : string) (now : Z) (m : TaskManager)
    : option TaskManager :=
  match coroutines m !! task_id, _semaphore m with
  | Some AwaitSemaphore, S permits =>
      Some (set_coroutine
              (update_task task_id (mark_running now) (set_semaphore m permits))
              task_id AwaitTaskFunc)
  | _, _ => None
  end.

(** [_execute_task] resumed with the value [task_func] returned. *)
Definition _execute_task_return (task_id : string) (res : string) (now : Z)
    (m : TaskManager) : option TaskManager :=
  match coroutines m !! task_id with
  | Some AwaitTaskFunc =>
      Some (set_coroutine
              (set_semaphore (update_task task_id (mark_completed now res) m)
                 (S (_semaphore m)))
              task_id (Finished (Ok tt)))
  | _ => None
  end.

(** [_execute_task] resumed with the error [task_func] raised: the
    [except Exception] handler, or the error leaving the coroutine. *)
Definition _execute_task_raise (task_id : string) (e : exn) (now : Z)
    (m : TaskManager) : option TaskManager :=
  match coroutines m !! task_id with
  | Some AwaitTaskFunc =>
      if is_Exception e
      then Some (set_coroutine
                   (set_semaphore (update_task task_id (mark_failed now e) m)
                      (S (_semaphore m)))
                   task_id (Finished (Ok tt)))
      else Some (set_coroutine (set_semaphore m (S (_semaphore m)))
                   task_id (Finished (Raise e)))
  | _ => None
  end.

(** [asyncio.Task.cancel()] on the coroutine of [task_id]: a
    [CancelledError] is thrown into it where it is suspended. *)
Definition cancel_coroutine (task_id : string) (m : TaskManager) : TaskManager :=
  let cancelled := Finished (Raise (Exn CancelledError "")) in
  match coroutines m !! task_id with
  | Some AwaitSemaphore => set_coroutine m task_id cancelled
  | Some AwaitTaskFunc =>
      set_coroutine (set_semaphore m (S (_semaphore m))) task_id cancelled
  | _ => m
  end.

(** [cancel_task]: the returned flag and the state it leaves. *)
Definition cancel_task (task_id : string) (now : Z) (m : TaskManager)
    : bool * TaskManager :=
  match session m !! task_id with
  | None => (false, m)
  | Some task =>
      if negb (TaskStatus_eqb (status task) PENDING
               || TaskStatus_eqb (status task) RUNNING)
      then (false, m)
      else
        let m1 := set_session m (<[task_id := mark_cancelled now task]> (session m)) in
        if decide (task_id ∈ _tasks m1)
        then (true, set_tasks (cancel_coroutine task_id m1) (_tasks m1 ∖ {[task_id]}))
        else (true, m1)
  end.

(** [get_task_status], reduced to the status it reports. *)
Definition get_task_status (task_id : string) (m : TaskManager)
    : option TaskStatus :=
  status <$> session m !! task_id.

(** [cleanup_old_tasks]: terminal rows completed before the cutoff are
    deleted. *)
Definition old_task (cutoff_date : Z) (t : Task) : bool :=
  terminal (status t)
  && match completed_at t with
     | Some c => c <? cutoff_date
     | None => false
     end.

Definition cleanup_old_tasks (cutoff_date : Z) (m : TaskManager) : TaskManager :=
  set_session m
    (filter (fun kv : string * Task => old_task cutoff_date kv.2 = false)
            (session m)).

(** What can happen to the executor, one atomic stretch of code per
    event. *)
Inductive event :=
| Submit (task_id task_type task_data : string) (now : Z)
| Start (task_id : string) (now : Z)
| Return (task_id : string) (res : string) (now : Z)
| Raised (task_id : string) (e : exn) (now : Z)
| Cancel (task_id : string) (now : Z)
| Cleanup (cutoff_date : Z).

(** One event; [None] when the event cannot happen in that state (a
    coroutine resumed where it is not suspended, a task id reused). *)
Definition step (m : TaskManager) (ev : event) : option TaskManager :=
  match ev with
  | Submit task_id task_type task_data now =>
      match session m !! task_id, coroutines m !! task_id with
      | None, None => Some (submit_task task_id task_type task_data now m)
      | _, _ => None
      end
  | Start task_id now => _execute_task_start task_id now m
  | Return task_id res now => _execute_task_return task_id res now m
  | Raised task_id e now => _execute_task_raise task_id e now m
  | Cancel task_id now => Some (cancel_task task_id now m).2
  | Cleanup cutoff_date => Some (cleanup_old_tasks cutoff_date m)
  end.

Fixpoint run (m : TaskManager) (evs : list event) : option TaskManager :=
  match evs with
  | [] => Some m
  | ev :: rest =>
      match step m ev with
      | Some m' => run m' rest
      | None => None
      end
  end.

End Tasks.

(** ** Python strings and the regular expressions the services use *)

Module Str.

Definition code (c : ascii) : nat := nat_of_ascii c.

Definition between (lo hi : nat) (c : ascii) : bool :=
  (lo <=? code c)%nat && (code c <=? hi)%nat.

(** [c.isspace()], also the class [\s]: tab to carriage return, the four
    separators 0x1c-0x1f, and the space. *)
Definition isspace (c : ascii) : bool :=
  between 9 13 c || between 28 32 c.
Definition isdigit (c : ascii) : bool := between 48 57 c.
Definition isupper (c : ascii) : bool := between 65 90 c.
Definition islower (c : ascii) : bool := between 97 122 c.

Definition newline : ascii := ascii_of_nat 10.
Definition nl : string := String newline EmptyString.

(** Truthiness of a [str]. *)
Definition nonempty (s : string) : bool :=
  match s with
  | EmptyString => false
  | String _ _ => true
  end.

Fixpoint lstrip (s : string) : string :=
  match s with
  | EmptyString => EmptyString
  | String c s' => if isspace c then lstrip s' else s
  end.

Definition rstrip (s : string) : string := String.rev (lstrip (String.rev s)).

(** [s.strip()]. *)
Definition strip (s : string) : string := rstrip (lstrip s).

(** Puts [c] in front of the first piece of a split. *)
Definition push (c : ascii) (pieces : list string) : list string :=
  match pieces with
  | [] => [String c EmptyString]
  | p :: rest => String c p :: rest
  end.

(** [s.split(sep)] for a non-empty [sep], scanning left to right;
    [skip] counts the characters of a separator still to be passed. *)
Fixpoint split_go (sep : string) (skip : nat) (s : string) : list string :=
  match s with
  | EmptyString => [EmptyString]
  | String c s' =>
      match skip with
      | S k => split_go sep k s'
      | O =>
          if String.prefix sep s
          then EmptyString :: split_go sep (String.length sep - 1) s'
          else push c (split_go sep 0 s')
      end
  end.

Definition split (sep s : string) : list string := split_go sep 0 s.

(** [sep.join(pieces)]. *)
Definition join (sep : string) (pieces : list string) : string :=
  String.concat sep pieces.

(** [s[:n]] on a string, for [n >= 0]. *)
Definition take (n : nat) (s : string) : string := String.substring 0 n s.

(** [str(n)] for an [int]. *)
Definition of_Z (n : Z) : string := DecimalString.NilZero.string_of_int (Z.to_int n).

(** The value of a string of ASCII digits, read from the left. *)
Fixpoint int_go (acc : Z) (s : string) : Z :=
  match s with
  | EmptyString => acc
  | String c s' => int_go (10 * acc + (Z.of_nat (code c) - 48)) s'
  end.
Definition int_value (s : string) : Z := int_go 0 s.

(** [sys.get_int_max_str_digits()], at its default. *)
Definition int_max_str_digits : nat := 4300.

(** [int(s)] on a non-empty string of ASCII digits, the strings that
    [\d+] matches: a numeral of more digits than the limit, leading
    zeros counted, raises [ValueError]. *)
Definition int (s : string) : Py.result Z :=
  if (int_max_str_digits <? String.length s)%nat
  then Raise (Exn ValueError "Exceeds the limit (4300 digits) for integer string conversion")
  else Ok (int_value s).

End Str.

Module Re.

Import Str.

(** Regular expressions over character classes. *)
Inductive regex :=
| Void
| Eps
| Class (p : ascii -> bool)
| Cat (r1 r2 : regex)
| Alt (r1 r2 : regex)
| Star (r : regex).

Fixpoint nullable (r : regex) : bool :=
  match r with
  | Void => false
  | Eps => true
  | Class _ => false
  | Cat r1 r2 => nullable r1 && nullable r2
  | Alt r1 r2 => nullable r1 || nullable r2
  | Star _ => true
  end.

Definition cat (r1 r2 : regex) : regex :=
  match r1, r2 with
  | Void, _ | _, Void => Void
  | Eps, r | r, Eps => r
  | _, _ => Cat r1 r2
  end.

Definition alt (r1 r2 : regex) : regex :=
  match r1, r2 with
  | Void, r | r, Void => r
  | _, _ => Alt r1 r2
  end.

(** The derivative of [r] by the character [c]. *)
Fixpoint deriv (c : ascii) (r : regex) : regex :=
  match r with
  | Void | Eps => Void
  | Class p => if p c then Eps else Void
  | Cat r1 r2 =>
      if nullable r1 then alt (cat (deriv c r1) r2) (deriv c r2)
      else cat (deriv c r1) r2
  | Alt r1 r2 => alt (deriv c r1) (deriv c r2)
  | Star r1 => cat (deriv c r1) (Star r1)
  end.

(** Whether the whole of [s] is in the language of [r]. *)
Fixpoint fullmatch (r : regex) (s : string) : bool :=
  match s with
  | EmptyString => nullable r
  | String c s' => fullmatch (deriv c r) s'
  end.

Definition chr (c : ascii) : regex := Class (Ascii.eqb c).
Definition plus (r : regex) : regex := Cat r (Star r).
Definition opt (r : regex) : regex := Alt Eps r.

(** [r{1,n+1}]. *)
Fixpoint upto (n : nat) (r : regex) : regex :=
  match n with
  | O => r
  | S k => Cat r (opt (upto k r))
  end.

(** [$] outside MULTILINE mode: the end of the string, or just before a
    newline that ends it. *)
Definition dollar : regex := opt (chr newline).

(** [re.match(pattern, s)] for a pattern that ends in [$]: [body] is the
    pattern between [^] and [$]. *)
Definition match_anchored (body : regex) (s : string) : bool :=
  fullmatch (Cat body dollar) s.

Definition space : regex := Class isspace.
Definition digit : regex := Class isdigit.
Definition upper : regex := Class isupper.
Definition lower : regex := Class islower.
Definition dot : regex := Class (fun c => negb (Ascii.eqb c newline)).

(** The class [[.!?]]. *)
Definition is_terminator (c : ascii) : bool :=
  Ascii.eqb c "."%char || Ascii.eqb c "!"%char || Ascii.eqb c "?"%char.

(** [re.split(r'[.!?]+', s)]: the pieces between maximal runs of
    terminators; [in_run] tells that the previous character was one. *)
Fixpoint split_terminators (in_run : bool) (s : string) : list string :=
  match s with
  | EmptyString => [EmptyString]
  | String c s' =>
      if is_terminator c
      then if in_run then split_terminators true s'
           else EmptyString :: split_terminators true s'
      else push c (split_terminators false s')
  end.

(** [re.findall(r'\[(\d+)\]', s)]: the automaton of the pattern. The
    state is the digits read since the last opening bracket, if the
    scan stands inside a candidate marker. *)
Fixpoint findall_markers (inside : option string) (s : string) : list string :=
  match s with
  | EmptyString => []
  | String c s' =>
      if Ascii.eqb c "["%char then findall_markers (Some EmptyString) s'
      else
        match inside with
        | None => findall_markers None s'
        | Some digits =>
            if isdigit c
            then findall_markers (Some (digits +:+ String c EmptyString)) s'
            else if Ascii.eqb c "]"%char && nonempty digits
            then digits :: findall_markers None s'
            else findall_markers None s'
        end
  end.

End Re.

(** ** The semantic chunker: [services/chunking.py] *)

Module Chunking.

Import Str.

(** A page of [metadata['page_content']]; every key is read with [get]. *)
Record PageData := {
  pd_page : option Z;
  pd_text : option string;
  pd_type : option string
}.

(** The [metadata] argument of the chunker. *)
Record Metadata := {
  md_document_id : option Z;
  md_page_content : list PageData
}.

(** A section found by [_split_by_headings]. *)
Record Section_ := {
  s_text : string;
  s_headings : list string
}.

(** A unit in progress, the dictionary built by [_create_chunk_data]. *)
Record ChunkData := {
  chunk_id : string;
  text : string;
  location : Index.Location;
  headings : list string;
  token_count : Z
}.

Definition set_text (c : ChunkData) (t : string) (n : Z) : ChunkData :=
  {| chunk_id := chunk_id c; text := t; location := location c;
     headings := headings c; token_count := n |}.

(** The four heading patterns, in the order of the source. *)
Definition heading_patterns : list Re.regex :=
  [ Re.Cat (Re.upto 5 (Re.chr "#"%char)) (Re.Cat (Re.plus Re.space) (Re.plus Re.dot));
    Re.Cat Re.upper
      (Re.Cat (Re.Alt Re.upper Re.space)
         (Re.Cat (Re.Alt Re.upper Re.space) (Re.Star (Re.Alt Re.upper Re.space))));
    Re.Cat (Re.plus Re.digit)
      (Re.Cat (Re.chr "."%char)
         (Re.Cat (Re.plus Re.space)
            (Re.Cat Re.upper
               (Re.Star (Re.Class (fun c => negb (Ascii.eqb c "."%char)))))));
    Re.Cat Re.upper
      (Re.Cat (Re.plus Re.lower)
         (Re.Cat (Re.Star (Re.Cat (Re.plus Re.space) (Re.Cat Re.upper (Re.plus Re.lower))))
            (Re.Star Re.space))) ].

(** The inner [for pattern in heading_patterns] loop: whether some
    pattern matches the stripped line. *)
Definition is_heading (line : string) : bool :=
  existsb (fun pattern => Re.match_anchored pattern (strip line)) heading_patterns.

(** The [for line in lines] loop of [_split_by_headings]. *)
Fixpoint headings_loop (lines : list string) (current_section : Section_)
    (sections : list Section_) : list Section_ :=
  match lines with
  | [] =>
      if nonempty (strip (s_text current_section))
      then sections ++ [current_section] else sections
  | line :: rest =>
      if is_heading line
      then
        headings_loop rest
          {| s_text := line +:+ nl; s_headings := [strip line] |}
          (if nonempty (strip (s_text current_section))
           then sections ++ [current_section] else sections)
      else
        headings_loop rest
          {| s_text := s_text current_section +:+ line +:+ nl;
             s_headings := s_headings current_section |}
          sections
  end.

Definition _split_by_headings (text : string) : list Section_ :=
  headings_loop (split nl text) {| s_text := ""; s_headings := [] |} [].

(** [f"chunk_{metadata.get('document_id', 'unknown')}_{page_num or 1}_{section_id}"]. *)
Definition document_label (metadata : Metadata) : string :=
  match md_document_id metadata with
  | Some n => of_Z n
  | None => "unknown"
  end.

Definition page_or_1 (page_num : option Z) : Z :=
  match page_num with
  | Some n => if n =? 0 then 1 else n
  | None => 1
  end.

Section Tokenizer.

(** [tokenizer.encode] of tiktoken; it raises [ValueError] on a text
    that contains a special token, so it returns a [result]. *)
Variable encode : string -> Py.result (list Z).
(** [tokenizer.decode]. *)
Variable decode : list Z -> string.

(** [settings.chunk_size] and [settings.chunk_overlap]. *)
Variable chunk_size : Z.
Variable chunk_overlap : Z.

(** [len(self.tokenizer.encode(s))]. *)
Definition count_tokens (s : string) : Py.result Z :=
  let* tokens := encode s in Ok (len tokens).

(** The [for paragraph in paragraphs] loop of [_split_large_section]
    and the flush that follows it. *)
Fixpoint split_large_loop (paragraphs : list string) (current_chunk : string)
    (chunks : list string) : Py.result (list string) :=
  match paragraphs with
  | [] =>
      Ok (if nonempty (strip current_chunk)
          then chunks ++ [strip current_chunk] else chunks)
  | paragraph :: rest =>
      if negb (nonempty (strip paragraph))
      then split_large_loop rest current_chunk chunks
      else
        let test_chunk :=
          if nonempty current_chunk
          then current_chunk +:+ nl +:+ nl +:+ paragraph
          else paragraph in
        let* token_count := count_tokens test_chunk in
        if (chunk_size <? token_count) && nonempty current_chunk
        then split_large_loop rest paragraph (chunks ++ [strip current_chunk])
        else split_large_loop rest test_chunk chunks
  end.

Definition _split_large_section (text : string) (headings : list string)
    : Py.result (list string) :=
  split_large_loop (split (nl +:+ nl) text) "" [].

Definition _create_chunk_data (text : string) (metadata : Metadata)
    (page_num : option Z) (page_type : string) (headings : list string)
    (section_id : string) : Py.result ChunkData :=
  let* n := count_tokens text in
  Ok {| chunk_id := "chunk_" +:+ document_label metadata +:+ "_"
                    +:+ of_Z (page_or_1 page_num) +:+ "_" +:+ section_id;
        text := text;
        location := {| Index.loc_page := page_num; Index.loc_type := page_type;
                       Index.loc_section := section_id |};
        headings := headings;
        token_count := n |}.

(** [_get_overlap_text]. *)
Definition _get_overlap_text (text : string) (overlap_tokens : Z)
    : Py.result string :=
  let* tokens := encode text in
  if len tokens <=? overlap_tokens then Ok text
  else
    let overlap_tokens_list := slice_from tokens (- overlap_tokens) in
    let overlap_text := decode overlap_tokens_list in
    let sentences := Re.split_terminators false overlap_text in
    if 1 <? len sentences
    then Ok (join ". " (removelast sentences) +:+ ".")
    else Ok overlap_text.

(** One turn of the loop of [_apply_overlap]. The dictionaries of
    [chunks] are updated in place, so [chunks[i-1]] is read as the
    previous turn left it. *)
Definition overlap_step (i : nat) (chunks : list ChunkData)
    : Py.result (list ChunkData) :=
  match i with
  | O => Ok chunks
  | S j =>
      match chunks !! j, chunks !! i with
      | Some prev_chunk, Some chunk =>
          let* overlap_text := _get_overlap_text (text prev_chunk) chunk_overlap in
          if nonempty overlap_text
          then
            let text' := overlap_text +:+ nl +:+ nl +:+ text chunk in
            let* n := count_tokens text' in
            Ok (<[i := set_text chunk text' n]> chunks)
          else Ok chunks
      | _, _ => Ok chunks
      end
  end.

Fixpoint overlap_loop (indices : list nat) (chunks : list ChunkData)
    : Py.result (list ChunkData) :=
  match indices with
  | [] => Ok chunks
  | i :: rest =>
      let* chunks' := overlap_step i chunks in
      overlap_loop rest chunks'
  end.

(** [_apply_overlap]: [overlapped_chunks] collects the very objects of
    [chunks], so it is the list as the loop leaves it. *)
Definition _apply_overlap (chunks : list ChunkData) : Py.result (list ChunkData) :=
  if len chunks <=? 1 then Ok chunks
  else overlap_loop (seq 0 (length chunks)) chunks.

(** The [for j, sub_chunk in enumerate(sub_chunks)] loop. *)
Fixpoint sub_chunks_loop (metadata : Metadata) (page_num : option Z)
    (page_type : string) (headings : list string) (i : Z) (j : Z)
    (sub_chunks : list string) : Py.result (list ChunkData) :=
  match sub_chunks with
  | [] => Ok []
  | sub_chunk :: rest =>
      let* chunk_data := _create_chunk_data sub_chunk metadata page_num page_type
                           headings (of_Z i +:+ "_" +:+ of_Z j) in
      let* more := sub_chunks_loop metadata page_num page_type headings i (j + 1) rest in
      Ok (chunk_data :: more)
  end.

(** The [for i, section in enumerate(sections)] loop of
    [_chunk_by_semantic_boundaries]: the units before overlap is
    applied. *)
Fixpoint sections_loop (metadata : Metadata) (page_num : option Z)
    (page_type : string) (i : Z) (sections : list Section_)
    : Py.result (list ChunkData) :=
  match sections with
  | [] => Ok []
  | section :: rest =>
      if negb (nonempty (strip (s_text section)))
      then sections_loop metadata page_num page_type (i + 1) rest
      else
        let* n := count_tokens (s_text section) in
        let* here :=
          if chunk_size <? n
          then
            let* sub_chunks := _split_large_section (s_text section) (s_headings section) in
            sub_chunks_loop metadata page_num page_type (s_headings section) i 0 sub_chunks
          else
            let* chunk_data := _create_chunk_data (s_text section) metadata page_num
                                 page_type (s_headings section) (of_Z i) in
            Ok [chunk_data] in
        let* more := sections_loop metadata page_num page_type (i + 1) rest in
        Ok (here ++ more)
  end.

Definition _chunk_by_semantic_boundaries (text : string) (metadata : Metadata)
    (page_num : option Z) (page_type : string) : Py.result (list ChunkData) :=
  let* chunks := sections_loop metadata page_num page_type 0 (_split_by_headings text) in
  _apply_overlap chunks.

Fixpoint _chunk_by_pages (page_content : list PageData) (metadata : Metadata)
    : Py.result (list ChunkData) :=
  match page_content with
  | [] => Ok []
  | page_data :: rest =>
      let page_num := get_default (pd_page page_data) 1 in
      let page_text := get_default (pd_text page_data) "" in
      let page_type := get_default (pd_type page_data) "text" in
      if negb (nonempty (strip page_text))
      then _chunk_by_pages rest metadata
      else
        let* page_chunks := _chunk_by_semantic_boundaries page_text metadata
                              (Some page_num) page_type in
        let* more := _chunk_by_pages rest metadata in
        Ok (page_chunks ++ more)
  end.

(** [range(0, stop, step)]. *)
Definition range_step (stop step : Z) : Py.result (list Z) :=
  if step =? 0 then Raise (Exn ValueError "range() arg 3 must not be zero")
  else if (step <? 0) || (stop <=? 0) then Ok []
  else Ok (map (fun k => Z.of_nat k * step) (seq 0 (Z.to_nat ((stop + step - 1) / step)))).

(** [i // self.chunk_size]. *)
Definition floordiv (a b : Z) : Py.result Z :=
  if b =? 0 then Raise (Exn ZeroDivisionError "integer division or modulo by zero")
  else Ok (a / b).

(** The body of the loop of [_simple_chunk] for the offset [i]. *)
Definition simple_chunk_at (tokens : list Z) (metadata : Metadata) (i : Z)
    : Py.result ChunkData :=
  let chunk_tokens := slice tokens i (i + chunk_size) in
  let chunk_text := decode chunk_tokens in
  let* q := floordiv i chunk_size in
  Ok {| chunk_id := "simple_chunk_" +:+ document_label metadata +:+ "_" +:+ of_Z q;
        text := chunk_text;
        location := {| Index.loc_page := Some 1; Index.loc_type := "text";
                       Index.loc_section := of_Z q |};
        headings := [];
        token_count := len chunk_tokens |}.

Fixpoint simple_chunk_loop (tokens : list Z) (metadata : Metadata)
    (offsets : list Z) : Py.result (list ChunkData) :=
  match offsets with
  | [] => Ok []
  | i :: rest =>
      let* chunk_data := simple_chunk_at tokens metadata i in
      let* more := simple_chunk_loop tokens metadata rest in
      Ok (chunk_data :: more)
  end.

Definition _simple_chunk (text : string) (metadata : Metadata)
    : Py.result (list ChunkData) :=
  let* tokens := encode text in
  let* offsets := range_step (len tokens) (chunk_size - chunk_overlap) in
  simple_chunk_loop tokens metadata offsets.

(** The [try] block of [chunk_text]. *)
Definition semantic_body (text : string) (metadata : Metadata)
    : Py.result (list ChunkData) :=
  match md_page_content metadata with
  | _ :: _ => _chunk_by_pages (md_page_content metadata) metadata
  | [] => _chunk_by_semantic_boundaries text metadata None "text"
  end.

Definition chunk_text (text : string) (metadata : Metadata)
    : Py.result (list ChunkData) :=
  try_except (semantic_body text metadata)
    (fun _ => _simple_chunk text metadata).

End Tokenizer.

(** A byte-level tokenizer: one token per character. Like tiktoken's
    encodings it refuses a text that contains the special token
    [<|endoftext|>]. *)
Fixpoint contains (needle s : string) : bool :=
  String.prefix needle s
  || match s with
     | EmptyString => false
     | String _ s' => contains needle s'
     end.

Definition bytes_of (s : string) : list Z :=
  map (fun c => Z.of_nat (code c)) (list_ascii_of_string s).

Definition byte_encode (s : string) : Py.result (list Z) :=
  if contains "<|endoftext|>" s
  then Raise (Exn ValueError "Encountered text corresponding to disallowed special token")
  else Ok (bytes_of s).

(** The same tokenizer without special tokens: it never raises. *)
Definition plain_encode (s : string) : Py.result (list Z) := Ok (bytes_of s).

Definition byte_decode (tokens : list Z) : string :=
  string_of_list_ascii (map (fun t => ascii_of_nat (Z.to_nat t)) tokens).

End Chunking.

(** ** The citation extractor: [services/rag.py] *)

Module Rag.

Import Str.

(** A citation, the dictionary built by [extract_citations]. *)
Record Citation := {
  chunk_id : string;
  document_id : option Z;
  location : Index.Location;
  headings : list string;
  text : string
}.

(** [chunk['text'][:200] + "..." if len(chunk['text']) > 200 else chunk['text']]. *)
Definition snippet (s : string) : string :=
  if (200 <? String.length s)%nat then take 200 s +:+ "..." else s.

(** The citation of a retrieved unit; the units are search hits, which
    carry every key. *)
Definition cite (chunk : Index.Hit) : Citation :=
  {| chunk_id := Index.h_chunk_id chunk;
     document_id := Index.h_document_id chunk;
     location := Index.h_location chunk;
     headings := Index.h_headings chunk;
     text := snippet (Index.h_text chunk) |}.

(** The [for match in matches] loop. The [ValueError] that [int(match)]
    raises on a numeral past the digit limit and the [IndexError] of the
    subscript are caught by [except (ValueError, IndexError): continue]:
    the marker is skipped. *)
Fixpoint citations_loop (matches : list string) (retrieved_chunks : list Index.Hit)
    : list Citation :=
  match matches with
  | [] => []
  | m :: rest =>
      match int m with
      | Raise _ => citations_loop rest retrieved_chunks
      | Ok n =>
          let chunk_index := n - 1 in
          if (0 <=? chunk_index) && (chunk_index <? len retrieved_chunks)
          then
            match getitem retrieved_chunks chunk_index with
            | Ok chunk => cite chunk :: citations_loop rest retrieved_chunks
            | Raise _ => citations_loop rest retrieved_chunks
            end
          else citations_loop rest retrieved_chunks
      end
  end.

Definition extract_citations (response : string) (retrieved_chunks : list Index.Hit)
    : list Citation :=
  citations_loop (Re.findall_markers None response) retrieved_chunks.

(** A source of the API response, the dictionary built by
    [format_sources]. *)
Record Source := {
  src_document_id : option Z;
  src_location : Index.Location;
  src_headings : list string;
  src_snippet : string
}.

Definition format_sources (citations : list Citation) : list Source :=
  map (fun citation =>
         {| src_document_id := document_id citation;
            src_location := location citation;
            src_headings := headings citation;
            src_snippet := text citation |}) citations.

(** The context block of [_build_prompt]. A page that is [None] or [0]
    is falsy and is not shown; so is an empty list of headings. *)
Definition context_part (i : Z) (chunk : Index.Hit) : string :=
  let source_info := "[" +:+ of_Z i +:+ "] Source: " in
  let source_info :=
    match Index.loc_page (Index.h_location chunk) with
    | Some page =>
        if page =? 0 then source_info else source_info +:+ "Page " +:+ of_Z page
    | None => source_info
    end in
  let source_info :=
    match Index.h_headings chunk with
    | [] => source_info
    | _ :: _ => source_info +:+ " - " +:+ join " > " (Index.h_headings chunk)
    end in
  source_info +:+ nl +:+ Index.h_text chunk +:+ nl.

(** [for i, chunk in enumerate(retrieved_chunks, 1)]. *)
Fixpoint context_parts (i : Z) (retrieved_chunks : list Index.Hit) : list string :=
  match retrieved_chunks with
  | [] => []
  | chunk :: rest => context_part i chunk :: context_parts (i + 1) rest
  end.

Definition context (retrieved_chunks : list Index.Hit) : string :=
  join nl (context_parts 1 retrieved_chunks).

End Rag.

(** ** The embedding step: [services/embed.py] *)

Module Embed.

(** A unit of the chunker after [embed_chunks]: the dictionary built by
    [_create_chunk_data] or [_simple_chunk], with the key ['embedding']
    when one was attached. *)
Record EmbeddedChunk := {
  ec_chunk : Chunking.ChunkData;
  ec_embedding : option (list Q)
}.

(** [for chunk, embedding in zip(chunks, embeddings):
    chunk['embedding'] = embedding]; [zip] stops at the shorter list, so
    the units past the last embedding stay as they were. *)
Fixpoint attach (chunks : list Chunking.ChunkData) (embeddings : list (list Q))
    : list EmbeddedChunk :=
  match chunks with
  | [] => []
  | chunk :: rest =>
      match embeddings with
      | [] => {| ec_chunk := chunk; ec_embedding := None |} :: attach rest []
      | embedding :: more =>
          {| ec_chunk := chunk; ec_embedding := Some embedding |} :: attach rest more
      end
  end.

Section Model.

(** [embed_texts]: the sentence-transformer model. *)
Variable embed_texts : list string -> result (list (list Q)).

(** [embed_chunks]; its handler logs and re-raises. *)
Definition embed_chunks (chunks : list Chunking.ChunkData)
    : result (list EmbeddedChunk) :=
  let* embeddings := embed_texts (map Chunking.text chunks) in
  Ok (attach chunks embeddings).

End Model.

(** The dictionary as [add_chunks] reads it: the chunker sets no
    ['document_id'] key, and [embed_chunks] adds none. *)
Definition as_chunk (chunk : EmbeddedChunk) : Index.Chunk :=
  {| Index.c_embedding := ec_embedding chunk;
     Index.c_chunk_id := Some (Chunking.chunk_id (ec_chunk chunk));
     Index.c_text := Some (Chunking.text (ec_chunk chunk));
     Index.c_document_id := None;
     Index.c_location := Some (Chunking.location (ec_chunk chunk));
     Index.c_headings := Some (Chunking.headings (ec_chunk chunk)) |}.

End Embed.

(** * Vocabulary of the properties, and sample inputs *)

(** Either a value that satisfies [P], or an error from outside the
    [Exception] hierarchy passing through. *)
Definition returns {A} (r : Py.result A) (P : A -> Prop) : Prop :=
  match r with
  | Ok a => P a
  | Raise e => is_Exception e = false
  end.

(** Scores in non-increasing order, first to last. *)
Definition non_increasing (scores : list Q) : Prop :=
  StronglySorted (fun a b => (b <= a)%Q) scores.

(** Scores in strictly decreasing order. *)
Definition strictly_decreasing (scores : list Q) : Prop :=
  StronglySorted (fun a b => (b < a)%Q) scores.

(** Each hit of [extra] carries a unit id that no hit before it in the
    list carries. *)
Fixpoint fresh_ids (before extra : list Index.Hit) : Prop :=
  match extra with
  | [] => True
  | x :: rest =>
      ~ In (Index.h_chunk_id x) (map Index.h_chunk_id before)
      /\ fresh_ids (before ++ [x]) rest
  end.

(** The hits a list of remote points converts to, in the order of the
    points; a point without a payload key converts to none. *)
Definition remote_hits (points : list Index.ScoredPoint) : list Index.Hit :=
  omap (fun p => match Index.hit_of_point p with
                 | Ok h => Some h
                 | Raise _ => None
                 end) points.

(** Vocabulary of the task claims. *)
Module TasksSpec.

Import Tasks.

(** The statuses the executor itself gives at the end of a pipeline. *)
Definition finished_status (s : TaskStatus) : Prop := s = COMPLETED \/ s = FAILED.

(** Every task whose row says COMPLETED or FAILED has a coroutine that is
    over. *)
Definition settled (m : TaskManager) : Prop :=
  forall task_id t,
    session m !! task_id = Some t -> finished_status (status t) ->
    exists outcome, coroutines m !! task_id = Some (Finished outcome).

(** Whether a coroutine holds a permit of the semaphore: it does from
    the start of [async with] to its end, that is while it is suspended
    in [await task_func()]. *)
Definition holds_permit (c : coroutine) : bool :=
  match c with
  | AwaitTaskFunc => true
  | _ => false
  end.

(** The number of coroutines that hold a permit. *)
Definition in_semaphore (m : TaskManager) : nat :=
  size (filter (fun kv : string * coroutine => holds_permit kv.2 = true) (coroutines m)).

(** The permit that the coroutine at an entry of the table holds, if
    any. *)
Definition permit_of (c : option coroutine) : nat :=
  match c with
  | Some c => if holds_permit c then 1 else 0
  | None => 0
  end.

(** Every row with a terminal status carries a completion time. *)
Definition stamped (m : TaskManager) : Prop :=
  forall task_id t,
    session m !! task_id = Some t -> terminal (status t) = true ->
    is_Some (completed_at t).

(** Sample runs: two tasks started, and one task that has returned. *)
Definition two_started : TaskManager :=
  default init
    (run init [Submit "t1" "ingest_document" "{}" 0; Start "t1" 1;
               Submit "t2" "crawl_url" "{}" 2; Start "t2" 3]).

Definition one_returned : TaskManager :=
  default init
    (run init [Submit "t1" "ingest_document" "{}" 0; Start "t1" 1;
               Return "t1" "indexed" 2]).

(** The row of the task that has returned. *)
Definition returned_row : Task :=
  {| id := "t1"; type := "ingest_document"; data := "{}"; status := COMPLETED;
     result := Some "indexed"; error := None; created_at := 0;
     started_at := Some 1; completed_at := Some 2 |}.

(** The row of the first task that was started. *)
Definition started_row : Task :=
  {| id := "t1"; type := "ingest_document"; data := "{}"; status := RUNNING;
     result := None; error := None; created_at := 0;
     started_at := Some 1; completed_at := None |}.

End TasksSpec.

(** Sample collections and library behaviours for the vector index. *)
Module IndexSamples.

Import Index.

Definition here : Location :=
  {| loc_page := Some 1; loc_type := "text"; loc_section := "0" |}.

Definition unit_of (chunk_id : string) (doc : Z) : Meta :=
  {| m_chunk_id := chunk_id; m_text := "text of " +:+ chunk_id;
     m_document_id := Some doc; m_location := here; m_headings := [] |}.

(** A collection of two units of two documents. *)
Definition two_docs : FAISSIndex :=
  {| collection_name := "bot_1";
     index := Some {| d := 2; xb := [[1%Q; 0%Q]; [0%Q; 1%Q]] |};
     metadata := [unit_of "chunk_1_1_0" 1; unit_of "chunk_2_1_0" 2];
     disk := ∅ |}.

(** A collection of one unit. *)
Definition one_doc : FAISSIndex :=
  {| collection_name := "bot_1";
     index := Some {| d := 2; xb := [[1%Q; 0%Q]] |};
     metadata := [unit_of "chunk_1_1_0" 1];
     disk := ∅ |}.

(** An empty collection of dimension 2. *)
Definition empty_collection : FAISSIndex :=
  {| collection_name := "bot_1";
     index := Some {| d := 2; xb := [] |};
     metadata := [];
     disk := ∅ |}.

(** Vectors that are normalized already. *)
Definition normalize_id (rows : list (list Q)) : Py.result (list (list Q)) :=
  Ok rows.

(** A nearest-neighbour routine that ranks the stored rows as
    [scores]/[ids] and returns the best [k]. *)
Definition ranked (scores : list Q) (ids : list Z)
    (ix : IndexFlatIP) (qv : list (list Q)) (k : Z)
    : Py.result (list Q * list Z) :=
  Ok (firstn (Z.to_nat k) scores, firstn (Z.to_nat k) ids).

(** A nearest-neighbour routine that fails. *)
Definition broken_search (ix : IndexFlatIP) (qv : list (list Q)) (k : Z)
    : Py.result (list Q * list Z) :=
  Raise (Exn RuntimeError "Error in faiss search").

Definition point (chunk_id : string) (doc : Z) (score : Q) : ScoredPoint :=
  {| sp_id := chunk_id; sp_score := score;
     sp_text := Some ("text of " +:+ chunk_id);
     sp_document_id := Some (Some doc);
     sp_location := Some here; sp_headings := Some [] |}.

(** A remote index that answers every query with [points]. *)
Definition remote (points : list ScoredPoint)
    (collection : string) (query : list Q) (limit : Z) (filter : option (list Z))
    : Py.result (list ScoredPoint) :=
  Ok points.

(** A disk that accepts every write, and one that is full. *)
Definition disk_ok (path : string) : option exn := None.
Definition disk_full (path : string) : option exn :=
  Some (Exn OSError "[Errno 28] No space left on device").

(** A unit with a two-dimensional embedding, ready to be added. *)
Definition new_chunk : Chunk :=
  {| c_embedding := Some [1%Q; 0%Q]; c_chunk_id := Some "chunk_1_1_0";
     c_text := Some "Paris is the capital of France."; c_document_id := Some 1;
     c_location := Some here; c_headings := Some [] |}.

(** A unit without the key ['chunk_id']. *)
Definition chunk_without_id : Chunk :=
  {| c_embedding := Some [0%Q; 1%Q]; c_chunk_id := None;
     c_text := Some "The Seine crosses Paris."; c_document_id := Some 1;
     c_location := Some here; c_headings := Some [] |}.

(** A unit with an embedding of three dimensions. *)
Definition wide_chunk : Chunk :=
  {| c_embedding := Some [1%Q; 0%Q; 0%Q]; c_chunk_id := Some "chunk_1_1_0";
     c_text := Some "Paris is the capital of France."; c_document_id := Some 1;
     c_location := Some here; c_headings := Some [] |}.

(** A collection of two units that record no document. *)
Definition unit_without_document (chunk_id : string) : Meta :=
  {| m_chunk_id := chunk_id; m_text := "text of " +:+ chunk_id;
     m_document_id := None; m_location := here; m_headings := [] |}.

Definition no_documents : FAISSIndex :=
  {| collection_name := "bot_1";
     index := Some {| d := 2; xb := [[1%Q; 0%Q]; [0%Q; 1%Q]] |};
     metadata := [unit_without_document "chunk_7_1_0";
                  unit_without_document "chunk_7_1_1"];
     disk := ∅ |}.

(** The two files of the collection [one_doc], and a manager that holds
    the collection. *)
Definition one_doc_files : gmap string file :=
  <["./indices/bot_1_metadata.pkl" := PickleFile [unit_of "chunk_1_1_0" 1]]>
    (<["./indices/bot_1.faiss" := IndexFile {| d := 2; xb := [[1%Q; 0%Q]] |}]> ∅).

Definition one_doc_manager : VectorIndexManager :=
  {| collections := <["bot_1" := set_disk one_doc one_doc_files]> ∅;
     files := one_doc_files |}.

(** A manager without collection in an empty directory. *)
Definition new_manager : VectorIndexManager :=
  {| collections := ∅; files := ∅ |}.

(** A Qdrant client that accepts every call. *)
Definition recreate_ok (name : string) (embedding_dim : Z) : Py.result unit := Ok tt.
Definition upsert_ok (name : string) (points : list PointStruct) : Py.result unit :=
  Ok tt.

(** A Qdrant client that cannot be reached. *)
Definition upsert_down (name : string) (points : list PointStruct) : Py.result unit :=
  Raise (Exn RuntimeError "Connection refused").

(** An embedding model that maps every text to the same vector. *)
Definition embed_constant (texts : list string) : Py.result (list (list Q)) :=
  Ok (map (fun _ => [1%Q; 0%Q]) texts).

(** Two units as the chunker makes them. *)
Definition chunker_units : list Chunking.ChunkData :=
  [ {| Chunking.chunk_id := "chunk_7_1_0"; Chunking.text := "First part.";
       Chunking.location := here; Chunking.headings := ["# Alpha"];
       Chunking.token_count := 11 |};
    {| Chunking.chunk_id := "chunk_7_1_1"; Chunking.text := "Second part.";
       Chunking.location := here; Chunking.headings := ["# Beta"];
       Chunking.token_count := 12 |} ].

End IndexSamples.

(** Vocabulary of the properties of the vector index. *)
Module IndexSpec.

Import Index.

(** No unit of the collection records a document. *)
Definition no_document_ids (self : FAISSIndex) : Prop :=
  Forall (fun md => m_document_id md = None) (metadata self).

(** The rows of the index and the entries of the metadata list go by
    pairs: there are as many of the ones as of the others. *)
Definition aligned (self : FAISSIndex) : Prop :=
  exists ix, index self = Some ix /\ ntotal ix = len (metadata self).

(** A normalization that returns as many rows as it is given. *)
Definition keeps_rows (normalize_L2 : list (list Q) -> Py.result (list (list Q))) : Prop :=
  forall rows rows', normalize_L2 rows = Ok rows' -> length rows' = length rows.

(** The metadata entry that [add_chunks] builds from a unit of the
    chunker. *)
Definition stored_unit (u : Chunking.ChunkData) : Meta :=
  {| m_chunk_id := Chunking.chunk_id u; m_text := Chunking.text u;
     m_document_id := None; m_location := Chunking.location u;
     m_headings := Chunking.headings u |}.

End IndexSpec.

(** Vocabulary of the citation claims. *)
Module RagSpec.

Import Str.

(** Whether the character [c] occurs in [s]. *)
Fixpoint has_char (c : ascii) (s : string) : bool :=
  match s with
  | EmptyString => false
  | String c' s' => Ascii.eqb c' c || has_char c s'
  end.

(** Whether every character of [s] is a digit. *)
Fixpoint all_digits (s : string) : bool :=
  match s with
  | EmptyString => true
  | String c s' => isdigit c && all_digits s'
  end.

(** A numeral: one digit or more. *)
Definition numeral (digits : string) : Prop :=
  all_digits digits = true /\ nonempty digits = true.

(** The inline marker with the numeral [digits]. *)
Definition marker (digits : string) : string := "[" +:+ digits +:+ "]".

(** Whether a marker occurs somewhere in [s]. *)
Definition has_marker (s : string) : Prop :=
  exists before digits after,
    s = before +:+ marker digits +:+ after /\ numeral digits.

(** A generated text cut at its markers: each item is a stretch of text
    followed by a marker, given by its numeral; [tail] is the text after
    the last marker. *)
Fixpoint render (items : list (string * string)) (tail : string) : string :=
  match items with
  | [] => tail
  | (plain, digits) :: rest => plain +:+ marker digits +:+ render rest tail
  end.

(** The cut is at every marker when no stretch holds a marker. *)
Definition cut_at_markers (items : list (string * string)) (tail : string) : Prop :=
  Forall (fun it : string * string => ~ has_marker it.1 /\ numeral it.2) items
  /\ ~ has_marker tail.

(** What the specification asks for the marker [[n]]: the citation of
    [retrieved_units[n-1]] when [n] is in [1 .. len], nothing otherwise. *)
Definition resolve (retrieved_units : list Index.Hit) (n : Z) : list Rag.Citation :=
  if (1 <=? n) && (n <=? len retrieved_units)
  then match nth_error retrieved_units (Z.to_nat (n - 1)) with
       | Some unit => [Rag.cite unit]
       | None => []
       end
  else [].

(** The number that a numeral denotes, by the decimal reading of the
    Standard Library. *)
Definition numeral_value (digits : string) : Z :=
  match NilEmpty.uint_of_string digits with
  | Some d => Z.of_uint d
  | None => 0
  end.

(** The numeral of 4301 digits that denotes 1. *)
Definition long_one : string := String.concat "" (repeat "0" 4300) +:+ "1".

(** The value of a decimal numeral read from the left, starting from
    [acc]. *)
Fixpoint uint_value (acc : Z) (d : Decimal.uint) : Z :=
  match d with
  | Decimal.Nil => acc
  | Decimal.D0 d => uint_value (10 * acc) d
  | Decimal.D1 d => uint_value (10 * acc + 1) d
  | Decimal.D2 d => uint_value (10 * acc + 2) d
  | Decimal.D3 d => uint_value (10 * acc + 3) d
  | Decimal.D4 d => uint_value (10 * acc + 4) d
  | Decimal.D5 d => uint_value (10 * acc + 5) d
  | Decimal.D6 d => uint_value (10 * acc + 6) d
  | Decimal.D7 d => uint_value (10 * acc + 7) d
  | Decimal.D8 d => uint_value (10 * acc + 8) d
  | Decimal.D9 d => uint_value (10 * acc + 9) d
  end.

(** The two units of the specification's scenario. *)
Definition unit_1 : Index.Hit :=
  {| Index.h_chunk_id := "chunk_1_1_0"; Index.h_score := (9 # 10)%Q;
     Index.h_text := "Paris is the capital of France."; Index.h_document_id := Some 1;
     Index.h_location := IndexSamples.here; Index.h_headings := ["# France"] |}.
Definition unit_2 : Index.Hit :=
  {| Index.h_chunk_id := "chunk_2_1_0"; Index.h_score := (8 # 10)%Q;
     Index.h_text := "The Seine crosses Paris."; Index.h_document_id := Some 2;
     Index.h_location := IndexSamples.here; Index.h_headings := [] |}.

End RagSpec.

(** Vocabulary of the chunking claims. *)
Module ChunkingSpec.

Import Str Chunking.

(** The [k]-th window of a fixed-size sliding window: [size] tokens from
    offset [k * stride]. *)
Definition window (size stride : Z) (tokens : list Z) (k : nat) : list Z :=
  firstn (Z.to_nat size) (skipn (k * Z.to_nat stride) tokens).

(** The number of windows that start inside [n] tokens. *)
Definition window_count (stride n : Z) : nat :=
  Z.to_nat ((n + stride - 1) / stride).

(** What the fallback is asked to produce from the raw token sequence:
    for each window its decoded text, no heading, and its length. *)
Definition fixed_windows (decode : list Z -> string) (size stride : Z)
    (tokens : list Z) : list (string * list string * Z) :=
  map (fun k => let w := window size stride tokens k in (decode w, [], len w))
      (seq 0 (window_count stride (len tokens))).

(** The text, the headings and the token count of a unit. *)
Definition content (u : ChunkData) : string * list string * Z :=
  (text u, headings u, token_count u).

(** A tokenizer that never raises. *)
Definition total_tokenizer (encode : string -> Py.result (list Z)) : Prop :=
  forall s, exists tokens, encode s = Ok tokens.

(** The last [n] tokens of a sequence. *)
Definition last_tokens (n : Z) (tokens : list Z) : list Z :=
  skipn (length tokens - Z.to_nat n) tokens.

(** Whether [s] contains a sentence terminator. *)
Fixpoint has_terminator (s : string) : bool :=
  match s with
  | EmptyString => false
  | String c s' => Re.is_terminator c || has_terminator s'
  end.

(** The overlap text drawn from the text of the previous unit, for a
    budget of [overlap] tokens: the whole text when it fits the budget;
    otherwise the decoded last [overlap] tokens, as they are when they hold
    no sentence terminator, and else cut before the last incomplete
    sentence, the sentences being joined again with a full stop and a
    space. *)
Inductive overlap_of (encode : string -> Py.result (list Z))
    (decode : list Z -> string) (overlap : Z) (prev_text : string)
    : string -> Prop :=
| overlap_whole tokens :
    encode prev_text = Ok tokens ->
    len tokens <= overlap ->
    overlap_of encode decode overlap prev_text prev_text
| overlap_raw tokens :
    encode prev_text = Ok tokens ->
    overlap < len tokens ->
    has_terminator (decode (last_tokens overlap tokens)) = false ->
    overlap_of encode decode overlap prev_text (decode (last_tokens overlap tokens))
| overlap_sentences tokens :
    encode prev_text = Ok tokens ->
    overlap < len tokens ->
    has_terminator (decode (last_tokens overlap tokens)) = true ->
    overlap_of encode decode overlap prev_text
      (join ". " (removelast (Re.split_terminators false
                                (decode (last_tokens overlap tokens)))) +:+ ".").

(** How the unit [cur] at a position stands to the unit [orig] that was
    there before the overlap loop and to the unit [prev] before it, as the
    loop left that one. *)
Definition stitched_to (encode : string -> Py.result (list Z))
    (decode : list Z -> string) (chunk_overlap : Z)
    (prev orig cur : ChunkData) : Prop :=
  exists overlap_text,
    _get_overlap_text encode decode (text prev) chunk_overlap = Ok overlap_text /\
    ((overlap_text = "" /\ cur = orig) \/
     (overlap_text <> "" /\ exists n,
        count_tokens encode (overlap_text +:+ nl +:+ nl +:+ text orig) = Ok n /\
        cur = set_text orig (overlap_text +:+ nl +:+ nl +:+ text orig) n)).

(** [p] is a trailing part of [s]. *)
Definition is_suffix (p s : string) : Prop := exists q, s = q +:+ p.

(** A buffer of [_split_large_section] that may be flushed: one paragraph
    of the section, or an accumulation that measured within the budget. *)
Definition flushable_buffer (encode : string -> Py.result (list Z)) (chunk_size : Z)
    (paragraphs : list string) (buffer : string) : Prop :=
  In buffer paragraphs
  \/ exists n, count_tokens encode buffer = Ok n /\ n <= chunk_size.

(** A unit before overlap is applied is within the budget when it is a
    whole section of at most [chunk_size] tokens, or the stripped text of
    a buffer of paragraphs that measured at most [chunk_size] tokens; or
    it is the stripped text of one paragraph, emitted whole. *)
Definition unit_origin (encode : string -> Py.result (list Z)) (chunk_size : Z)
    (sections : list Section_) (u : ChunkData) : Prop :=
  (token_count u <= chunk_size /\ exists section, In section sections /\ text u = s_text section)
  \/ (exists buffer n, text u = strip buffer /\
                       count_tokens encode buffer = Ok n /\ n <= chunk_size)
  \/ (exists section paragraph,
        In section sections /\
        In paragraph (split (nl +:+ nl) (s_text section)) /\
        text u = strip paragraph).

(** Sample inputs. *)
Definition doc_7 : Metadata := {| md_document_id := Some 7; md_page_content := [] |}.

Definition long_paragraph : string := String.concat "" (repeat "word " 900).

Definition sentences : string := String.concat "" (repeat "Alpha beta gamma delta. " 60).

Definition two_sections : string :=
  "# Alpha" +:+ nl +:+ sentences +:+ nl +:+ "# Beta" +:+ nl +:+ "Body of the second section.".

Definition filler (n : nat) : string := String.concat "" (repeat "x" n).

(** Two sections without sentence terminators, the second of exactly 800
    characters. *)
Definition tight_sections : string :=
  "# Alpha" +:+ nl +:+ filler 200 +:+ nl +:+ "# Beta" +:+ nl +:+ filler 792.

(** Two short sections, and the units the chunker makes of them with a
    byte-level tokenizer and the default budgets. *)
Definition short_sections : string :=
  "# Alpha" +:+ nl +:+ "First part. It ends here" +:+ nl
  +:+ "# Beta" +:+ nl +:+ "Second part.".

Definition short_units_before : list ChunkData :=
  Eval vm_compute in
    match sections_loop byte_encode 800 doc_7 None "text" 0
            (_split_by_headings short_sections) with
    | Ok units => units
    | Raise _ => []
    end.

Definition short_units_after : list ChunkData :=
  Eval vm_compute in
    match _apply_overlap byte_encode byte_decode 150 short_units_before with
    | Ok units => units
    | Raise _ => []
    end.

(** A document whose raw text is plain and whose only page carries a
    special token. *)
Definition special_page : Metadata :=
  {| md_document_id := Some 7;
     md_page_content := [ {| pd_page := Some 1; pd_text := Some "<|endoftext|>";
                             pd_type := Some "text" |} ] |}.

(** Whether [cur] can be [p], a blank line and [orig] for a trailing part
    [p] of [prev]: [p] has to be [cur] without its end, and has to end
    [prev]. *)
Definition stitched_with_suffix (prev orig cur : string) : bool :=
  let l_cur := list_ascii_of_string cur in
  let l_end := list_ascii_of_string (nl +:+ nl +:+ orig) in
  let l_prev := list_ascii_of_string prev in
  let n := (length l_cur - length l_end)%nat in
  bool_decide (l_cur = firstn n l_cur ++ l_end)
  && bool_decide (firstn n l_cur = skipn (length l_prev - n) l_prev).

(** Whether [s] holds white space only. *)
Fixpoint blank (s : string) : bool :=
  match s with
  | EmptyString => true
  | String c s' => isspace c && blank s'
  end.

(** The texts of the sections, one after the other. *)
Fixpoint texts_of (sections : list Section_) : string :=
  match sections with
  | [] => ""
  | section :: rest => s_text section +:+ texts_of rest
  end.

(** The lines of a text, each with its line break. *)
Fixpoint unlines (lines : list string) : string :=
  match lines with
  | [] => ""
  | line :: rest => (line +:+ nl) +:+ unlines rest
  end.

(** A list of headings as the chunker records it: one heading at most,
    the stripped text of a line that matches a heading pattern. *)
Definition heading_trail (hs : list string) : Prop :=
  (length hs <= 1)%nat
  /\ Forall (fun h => exists line, is_heading line = true /\ h = strip line) hs.

End ChunkingSpec.

(** * Properties *)

(** ** Python prelude *)

Section prelude_facts.

Context {A : Type}.

Lemma len_nonneg (l : list A) : 0 <= len l.
Proof. unfold len. lia. Qed.

Lemma len_app (l1 l2 : list A) : len (l1 ++ l2) = len l1 + len l2.
Proof. unfold len. rewrite length_app. lia. Qed.

Lemma slice_to_nonneg (l : list A) (n : Z) :
  0 <= n -> slice_to l n = firstn (Z.to_nat n) l.
Proof.
  intros Hn. unfold slice_to, clamp.
  destruct (n <? 0) eqn:E; [lia|].
  destruct (Z.le_gt_cases n (len l)) as [Hle|Hgt].
  - f_equal. lia.
  - replace (Z.min (len l) (Z.max 0 n)) with (len l) by lia.
    unfold len. rewrite Nat2Z.id.
    rewrite firstn_all. symmetry. apply firstn_all2. unfold len in Hgt. lia.
Qed.

Lemma slice_to_len (l : list A) (n : Z) : 0 <= n -> len (slice_to l n) <= n.
Proof.
  intros Hn. rewrite slice_to_nonneg by done.
  unfold len. rewrite length_firstn. lia.
Qed.

Lemma try_except_Ok (r : Py.result A) (a : A) :
  (forall e, r = Raise e -> is_Exception e = true) ->
  exists a', try_except r (fun _ => Ok a) = Ok a'.
Proof.
  intros H. destruct r as [a'|e]; simpl; [eauto|].
  rewrite (H e eq_refl). eauto.
Qed.

End prelude_facts.

(** String concatenation is kept folded by [simpl]; these are its
    equations. *)
Lemma append_nil (b : string) : "" +:+ b = b.
Proof. reflexivity. Qed.

Lemma append_cons (c : ascii) (a b : string) : String c a +:+ b = String c (a +:+ b).
Proof. reflexivity. Qed.

Ltac unfold_append := repeat (rewrite append_nil || rewrite append_cons).

Lemma append_nil_r (a : string) : a +:+ "" = a.
Proof. induction a as [|x a IH]; unfold_append; [done|]. by rewrite IH. Qed.

Lemma app_assoc_string (a b c : string) : (a +:+ b) +:+ c = a +:+ (b +:+ c).
Proof. induction a as [|x a IH]; unfold_append; [done|]. by rewrite IH. Qed.

Lemma returns_try_except {A} (r : Py.result A) (a : A) (P : A -> Prop) :
  P a -> (forall a', r = Ok a' -> P a') ->
  returns (try_except r (fun _ => Ok a)) P.
Proof.
  intros Ha Hr. destruct r as [a'|e]; simpl; [by apply Hr|].
  destruct (is_Exception e) eqn:E; simpl; done.
Qed.

Lemma StronglySorted_remove {A} (R : A -> A -> Prop) (l1 l2 : list A) (x : A) :
  StronglySorted R (l1 ++ x :: l2) -> StronglySorted R (l1 ++ l2).
Proof.
  rewrite !StronglySorted_app. intros (H & H1 & H2).
  apply StronglySorted_inv in H2 as [H2 _].
  split_and!; [|done..].
  intros a b Ha Hb. apply H; [done|]. by right.
Qed.

Lemma StronglySorted_combine {A B} (R : A -> A -> Prop) (l : list A) (l' : list B) :
  StronglySorted R l -> StronglySorted R (map fst (combine l l')).
Proof.
  revert l'. induction l as [|a l IH]; intros l' H; [constructor|].
  destruct l' as [|b l']; [constructor|]. simpl.
  apply StronglySorted_inv in H as [H1 H2].
  constructor; [by apply IH|].
  rewrite Forall_forall in H2 |- *.
  intros x Hx. apply H2.
  apply list_elem_of_In in Hx. apply list_elem_of_In.
  apply in_map_iff in Hx as ([x1 x2] & <- & Hin).
  by apply in_combine_l in Hin.
Qed.

(** *** The string functions on sample inputs *)

Section string_samples.

Import Str Re.

Example split_lines :
  split nl ("a" +:+ nl +:+ "b" +:+ nl +:+ nl +:+ "c") = ["a"; "b"; ""; "c"].
Proof. reflexivity. Qed.

Example split_empty : split nl "" = [""].
Proof. reflexivity. Qed.

Example split_paragraphs :
  split (nl +:+ nl) ("a" +:+ nl +:+ nl +:+ nl +:+ "b" +:+ nl +:+ nl)
  = ["a"; nl +:+ "b"; ""].
Proof. reflexivity. Qed.

Example strip_both_ends : strip ("  a b " +:+ nl) = "a b".
Proof. reflexivity. Qed.

Example strip_blank : strip (" " +:+ nl +:+ " ") = "".
Proof. reflexivity. Qed.

Example split_sentences :
  split_terminators false "One. Two?! Three" = ["One"; " Two"; " Three"].
Proof. reflexivity. Qed.

Example split_sentences_at_end : split_terminators false "One." = ["One"; ""].
Proof. reflexivity. Qed.

Example markers_found :
  findall_markers None "a [1] b [22][x] [] [3 [[4]] ]5["
  = ["1"; "22"; "4"].
Proof. reflexivity. Qed.

Example int_leading_zeros : int "007" = Ok 7.
Proof. reflexivity. Qed.

Example str_of_int : (of_Z 120, of_Z 0, of_Z (-5)) = ("120", "0", "-5").
Proof. reflexivity. Qed.

Example headings_detected :
  map Chunking.is_heading
    ["# Title"; "###### Deep"; "INTRODUCTION"; "A B"; "1. Overview"; "12. Next Steps";
     "Getting Started"; "Summary"; "  ## Indented  "]
  = repeat true 9.
Proof. reflexivity. Qed.

Example headings_rejected :
  map Chunking.is_heading
    ["#Title"; "####### Seven"; "AB"; "1. Overview."; "1. lower"; "Getting started";
     "plain text."; ""; "Title Case, with comma"]
  = repeat false 9.
Proof. reflexivity. Qed.

Example slices :
  (slice_to [1; 2; 3; 4] 2, slice_to [1; 2; 3; 4] 9, slice_to [1; 2; 3; 4] (-1),
   slice_from [1; 2; 3; 4] (-3), slice_from [1; 2; 3; 4] 0, slice [1; 2; 3; 4] 1 3)
  = ([1; 2], [1; 2; 3; 4], [1; 2; 3], [2; 3; 4], [1; 2; 3; 4], [2; 3]).
Proof. reflexivity. Qed.

End string_samples.

(** ** The vector index *)

Section index_properties.

Import Index.

Variable normalize_L2 : list (list Q) -> Py.result (list (list Q)).
Variable index_search :
  IndexFlatIP -> list (list Q) -> Z -> Py.result (list Q * list Z).
Variable qdrant_search :
  string -> list Q -> Z -> option (list Z) -> Py.result (list ScoredPoint).
Variable io_error : string -> option exn.

Local Abbreviation local_search := (FAISSIndex_search normalize_L2 index_search).
Local Abbreviation search := (VectorIndex_search normalize_L2 index_search qdrant_search).

(** *** The loop of the local search *)

Lemma search_loop_dedup self top_k filt cands results seen hits :
  search_loop self top_k filt cands results seen = Ok hits ->
  NoDup (map h_document_id results) ->
  (forall h, In h results -> h_document_id h ∈ seen) ->
  NoDup (map h_document_id hits).
Proof.
  revert results seen.
  induction cands as [|[score idx] rest IH]; intros results seen Hrun Hnd Hseen.
  - simpl in Hrun. by inversion Hrun; subst.
  - simpl in Hrun.
    destruct (len (metadata self) <=? idx); [by eapply IH|].
    destruct (getitem (metadata self) idx) as [md|e]; [|done]. simpl in Hrun.
    destruct (truthy filt && negb (doc_in (m_document_id md) (get_default filt [])));
      [by eapply IH|].
    destruct (decide (m_document_id md ∈ seen)) as [Hin|Hnin]; [by eapply IH|].
    assert (Hnd' : NoDup (map h_document_id (results ++ [mk_hit md score]))).
    { rewrite map_app. simpl. apply NoDup_app. split_and!.
      - done.
      - intros x Hx Hx'. apply list_elem_of_In in Hx, Hx'.
        destruct Hx' as [<-|[]].
        apply in_map_iff in Hx as (h & Hh & Hin). apply Hnin.
        rewrite <- Hh. by apply Hseen.
      - apply NoDup_singleton. }
    destruct (top_k <=? len (results ++ [mk_hit md score])).
    + by inversion Hrun; subst.
    + eapply IH; [done|done|].
      intros h Hh. apply in_app_iff in Hh as [Hh|[<-|[]]].
      * apply elem_of_union_r. by apply Hseen.
      * apply elem_of_union_l. by apply elem_of_singleton.
Qed.

Lemma search_loop_sorted self top_k filt cands results seen hits :
  search_loop self top_k filt cands results seen = Ok hits ->
  non_increasing (map h_score results ++ map fst cands) ->
  non_increasing (map h_score hits).
Proof.
  unfold non_increasing. revert results seen.
  induction cands as [|[score idx] rest IH]; intros results seen Hrun Hs.
  - simpl in *. rewrite app_nil_r in Hs. by inversion Hrun; subst.
  - simpl in Hrun, Hs.
    pose proof (StronglySorted_remove _ _ _ _ Hs) as Hskip.
    destruct (len (metadata self) <=? idx); [by eapply IH|].
    destruct (getitem (metadata self) idx) as [md|e]; [|done]. simpl in Hrun.
    destruct (truthy filt && negb (doc_in (m_document_id md) (get_default filt [])));
      [by eapply IH|].
    destruct (decide (m_document_id md ∈ seen)); [by eapply IH|].
    assert (Hs' : StronglySorted (fun a b => (b <= a)%Q)
                    (map h_score (results ++ [mk_hit md score]) ++ map fst rest)).
    { rewrite map_app. simpl. by rewrite <- app_assoc. }
    destruct (top_k <=? len (results ++ [mk_hit md score])).
    + inversion Hrun; subst.
      apply StronglySorted_app in Hs'. tauto.
    + by eapply IH.
Qed.

Lemma search_loop_length self top_k filt cands results seen hits :
  search_loop self top_k filt cands results seen = Ok hits ->
  len results <= top_k ->
  len results < top_k \/ cands = [] ->
  len hits <= top_k.
Proof.
  revert results seen.
  induction cands as [|[score idx] rest IH]; intros results seen Hrun Hle Hlt.
  - simpl in Hrun. by inversion Hrun; subst.
  - destruct Hlt as [Hlt|]; [|done]. simpl in Hrun.
    destruct (len (metadata self) <=? idx); [eapply IH; eauto|].
    destruct (getitem (metadata self) idx) as [md|e]; [|done]. simpl in Hrun.
    destruct (truthy filt && negb (doc_in (m_document_id md) (get_default filt [])));
      [eapply IH; eauto|].
    destruct (decide (m_document_id md ∈ seen)); [eapply IH; eauto|].
    assert (Hlen : len (results ++ [mk_hit md score]) = len results + 1)
      by (rewrite len_app; done).
    destruct (top_k <=? len (results ++ [mk_hit md score])) eqn:E.
    + inversion Hrun; subst. lia.
    + apply Z.leb_gt in E. eapply IH; [done|lia|left; lia].
Qed.

Lemma search_loop_raises self top_k filt cands results seen e :
  search_loop self top_k filt cands results seen = Raise e ->
  is_Exception e = true.
Proof.
  revert results seen.
  induction cands as [|[score idx] rest IH]; intros results seen Hrun; [done|].
  simpl in Hrun.
  destruct (len (metadata self) <=? idx); [by eapply IH|].
  destruct (getitem (metadata self) idx) as [md|e'] eqn:Hget.
  - simpl in Hrun.
    destruct (truthy filt && negb (doc_in (m_document_id md) (get_default filt [])));
      [by eapply IH|].
    destruct (decide (m_document_id md ∈ seen)); [by eapply IH|].
    destruct (top_k <=? len (results ++ [mk_hit md score])); [done|by eapply IH].
  - simpl in Hrun. inversion Hrun; subst.
    unfold getitem in Hget.
    repeat match type of Hget with
           | context [if ?b then _ else _] => destruct b
           | context [match ?o with Some _ => _ | None => _ end] => destruct o
           end; by inversion Hget.
Qed.

(** *** The local search *)

Lemma local_search_dedup self q top_k filt :
  returns (local_search self q top_k filt)
    (fun hits => NoDup (map h_document_id hits)).
Proof.
  apply returns_try_except; [constructor|].
  intros hits Hbody. unfold search_body in Hbody.
  destruct (the_index self) as [ix|]; [simpl in Hbody|done].
  destruct (ntotal ix =? 0); [inversion Hbody; constructor|].
  destruct (normalize_L2 [q]) as [qv|]; [simpl in Hbody|done].
  destruct (index_search ix qv _) as [found|]; [simpl in Hbody|done].
  eapply search_loop_dedup; [done|constructor|]. intros h [].
Qed.

Lemma local_search_Ok self q top_k filt hits :
  local_search self q top_k filt = Ok hits ->
  NoDup (map h_document_id hits).
Proof.
  intros H. pose proof (local_search_dedup self q top_k filt) as Hr.
  by rewrite H in Hr.
Qed.

(** *** The merge of remote hits *)

Lemma existsb_chunk_id (x : Hit) (l : list Hit) :
  existsb (fun r => String.eqb (h_chunk_id r) (h_chunk_id x)) l = false ->
  ~ In (h_chunk_id x) (map h_chunk_id l).
Proof.
  intros H Hin. apply in_map_iff in Hin as (r & Hr & Hin).
  assert (existsb (fun r => String.eqb (h_chunk_id r) (h_chunk_id x)) l = true) as E.
  { apply existsb_exists. exists r. split; [done|]. by apply String.eqb_eq. }
  congruence.
Qed.

Lemma merge_loop_spec points base :
  exists extra,
    (merge_loop points base).1 = base ++ extra /\
    fresh_ids base extra /\
    extra `sublist_of` remote_hits points.
Proof.
  revert base. induction points as [|p rest IH]; intros base; simpl.
  - exists []. by rewrite app_nil_r.
  - unfold remote_hits. simpl. fold (remote_hits rest).
    destruct (hit_of_point p) as [x|e]; simpl.
    + destruct (existsb _ base) eqn:E.
      * destruct (IH base) as (extra & Heq & Hfresh & Hsub).
        exists extra. split_and!; [done|done|by apply sublist_cons].
      * destruct (IH (base ++ [x])) as (extra & Heq & Hfresh & Hsub).
        exists (x :: extra). rewrite Heq, <- app_assoc. simpl.
        split_and!; [done| |done|by apply sublist_skip]. by apply existsb_chunk_id.
    + exists []. rewrite app_nil_r. split_and!; [done|done|apply sublist_nil_l].
Qed.

Lemma fresh_ids_NoDup before extra :
  NoDup (map h_chunk_id before) -> fresh_ids before extra ->
  NoDup (map h_chunk_id (before ++ extra)).
Proof.
  revert before. induction extra as [|x rest IH]; intros before Hnd Hf.
  - by rewrite app_nil_r.
  - destruct Hf as [Hx Hf].
    replace (before ++ x :: rest) with ((before ++ [x]) ++ rest)
      by (by rewrite <- app_assoc).
    apply IH; [|done]. rewrite map_app. simpl. apply NoDup_app. split_and!.
    + done.
    + intros y Hy Hy'. apply list_elem_of_In in Hy, Hy'.
      destruct Hy' as [<-|[]]. done.
    + apply NoDup_singleton.
Qed.

Lemma NoDup_map_firstn {A B} (f : A -> B) (n : nat) (l : list A) :
  NoDup (map f l) -> NoDup (map f (firstn n l)).
Proof.
  intros H. rewrite <- firstn_map.
  eapply sublist_NoDup; [done|apply sublist_take].
Qed.

(** What [VectorIndex.search] returns, in terms of the local hits and
    the remote hits merged in. *)
Lemma search_shape use_qdrant self q top_k filt :
  returns (search use_qdrant self q top_k filt) (fun hits =>
    exists local extra,
      local_search self q top_k filt = Ok local /\
      fresh_ids local extra /\
      (use_qdrant = false -> extra = []) /\
      (top_k <= len local -> extra = [] /\ hits = local) /\
      (len local < top_k -> hits = slice_to (local ++ extra) top_k) /\
      (forall points,
         qdrant_search (collection_name self) q (top_k - len local)
           (if truthy filt then filt else None) = Ok points ->
         extra `sublist_of` remote_hits points)).
Proof.
  unfold VectorIndex_search.
  pose proof (local_search_dedup self q top_k filt) as Hlocal.
  destruct (local_search self q top_k filt) as [local|e]; simpl; [|done].
  assert (forall points : list ScoredPoint, [] `sublist_of` remote_hits points) as Hnil
    by (intros; apply sublist_nil_l).
  destruct (top_k <=? len local) eqn:Hk.
  { apply Z.leb_le in Hk. simpl. exists local, []. split_and!; try done; try lia; intros; apply Hnil. }
  apply Z.leb_gt in Hk.
  destruct use_qdrant; simpl.
  - assert ((len local <? top_k) = true) as -> by (by apply Z.ltb_lt).
    unfold qdrant_body.
    destruct (qdrant_search _ _ _ _) as [points|e] eqn:Hq; simpl.
    + destruct (merge_loop_spec points local) as (extra & Heq & Hfresh & Hsub).
      destruct (merge_loop points local) as [merged r]. simpl in Heq. subst merged.
      assert (forall points', Ok points = Ok points' ->
                              extra `sublist_of` remote_hits points') as Hsub'
        by (by intros points' [= <-]).
      destruct r as [[]|e]; simpl.
      * exists local, extra. split_and!; try done;
          [lia|intros points' H; rewrite Hq in H; by apply Hsub'].
      * destruct (is_Exception e) eqn:E; simpl; [|done].
        exists local, extra. split_and!; try done;
          [lia|intros points' H; rewrite Hq in H; by apply Hsub'].
    + destruct (is_Exception e) eqn:E; simpl; [|done].
      exists local, []. rewrite app_nil_r. split_and!; try done; try lia; intros; apply Hnil.
  - exists local, []. rewrite app_nil_r. split_and!; try done; try lia; intros; apply Hnil.
Qed.

(** *** Document-level deduplication *)

(** C1, as the code has it. The hits of the local index never share a
    document id. [VectorIndex.search] returns them unchanged when they
    reach [top_k]; otherwise it returns the first [top_k] of the local
    hits followed by the remote hits it merged in, and a remote hit is
    merged in only when its unit id differs from the unit id of every hit
    before it: the merge removes duplicates by unit, not by document.
    When no remote hit is merged in, the result has pairwise distinct
    document ids. *)
Theorem C1_search_dedup use_qdrant self q top_k filt :
  returns (search use_qdrant self q top_k filt) (fun hits =>
    exists local extra,
      local_search self q top_k filt = Ok local /\
      NoDup (map h_document_id local) /\
      fresh_ids local extra /\
      (use_qdrant = false -> extra = []) /\
      (top_k <= len local -> extra = [] /\ hits = local) /\
      (len local < top_k -> hits = slice_to (local ++ extra) top_k) /\
      (extra = [] -> NoDup (map h_document_id hits)) /\
      (NoDup (map h_chunk_id local) -> NoDup (map h_chunk_id hits))).
Proof.
  pose proof (search_shape use_qdrant self q top_k filt) as H.
  destruct (search use_qdrant self q top_k filt) as [hits|e]; simpl in *; [|done].
  destruct H as (local & extra & Hlocal & Hfresh & Hq & Hge & Hlt & Hremote).
  pose proof (local_search_Ok _ _ _ _ _ Hlocal) as Hnd.
  exists local, extra. split_and!; try done.
  - intros ->. rewrite app_nil_r in Hlt.
    destruct (Z.le_gt_cases top_k (len local)) as [Hk|Hk].
    + by destruct (Hge Hk) as [_ ->].
    + rewrite (Hlt Hk). by apply NoDup_map_firstn.
  - intros Hids.
    destruct (Z.le_gt_cases top_k (len local)) as [Hk|Hk].
    + by destruct (Hge Hk) as [_ ->].
    + rewrite (Hlt Hk). apply NoDup_map_firstn. by apply fresh_ids_NoDup.
Qed.

(** *** Length and order of the result *)

(** C4, as the code has it. For [top_k >= 0] and a nearest-neighbour
    routine that returns at most [k] candidates, best first, the result
    has at most [top_k] hits; the local hits are in non-increasing order
    of score (equal scores can follow each other), and they come first:
    the hits appended after them are remote hits in the order in which
    the remote index returned them, without sorting. *)
Theorem C4_search_order use_qdrant self q top_k filt :
  0 <= top_k ->
  (forall ix qv k found, index_search ix qv k = Ok found ->
     non_increasing found.1 /\ len found.1 <= Z.max 0 k) ->
  returns (search use_qdrant self q top_k filt) (fun hits =>
    len hits <= top_k /\
    exists local extra,
      local_search self q top_k filt = Ok local /\
      non_increasing (map h_score local) /\
      len local <= top_k /\
      hits = slice_to (local ++ extra) top_k /\
      (use_qdrant = false -> hits = local) /\
      (forall points,
         qdrant_search (collection_name self) q (top_k - len local)
           (if truthy filt then filt else None) = Ok points ->
         extra `sublist_of` remote_hits points)).
Proof.
  intros Hk Hlib.
  pose proof (search_shape use_qdrant self q top_k filt) as H.
  destruct (search use_qdrant self q top_k filt) as [hits|e]; simpl in *; [|done].
  destruct H as (local & extra & Hlocal & Hfresh & Hq & Hge & Hlt & Hremote).
  assert (non_increasing (map h_score local) /\ len local <= top_k) as [Hs Hl].
  { unfold FAISSIndex_search in Hlocal.
    destruct (search_body normalize_L2 index_search self q top_k filt)
      as [hits'|e] eqn:Hbody; simpl in Hlocal.
    2: { destruct (is_Exception e); inversion Hlocal; subst.
         split; [constructor|done]. }
    inversion Hlocal; subst hits'. clear Hlocal.
    unfold search_body in Hbody.
    destruct (the_index self) as [ix|]; [simpl in Hbody|done].
    destruct (ntotal ix =? 0); [inversion Hbody; split; [constructor|done]|].
    destruct (normalize_L2 [q]) as [qv|]; [simpl in Hbody|done].
    destruct (index_search ix qv _) as [found|] eqn:Hfound; [simpl in Hbody|done].
    destruct (Hlib _ _ _ _ Hfound) as [Hsorted Hlen]. split.
    - eapply search_loop_sorted; [done|]. simpl.
      by apply StronglySorted_combine.
    - eapply search_loop_length; [done|done|].
      destruct (Z.eq_dec top_k 0) as [->|]; [right|left; unfold len; simpl; lia].
      assert (len found.1 <= 0) as Hz by lia.
      destruct found as [[|s scores] ids]; [done|].
      unfold len in Hz. simpl in Hz. lia. }
  assert (hits = slice_to (local ++ extra) top_k) as Hhits.
  { destruct (Z.le_gt_cases top_k (len local)) as [Hc|Hc].
    - destruct (Hge Hc) as [-> ->]. rewrite app_nil_r.
      rewrite slice_to_nonneg by done.
      symmetry. apply firstn_all2. unfold len in *. lia.
    - by apply Hlt. }
  split; [rewrite Hhits; by apply slice_to_len|].
  exists local, extra. split_and!; try done.
  intros Huse. rewrite Hhits, (Hq Huse), app_nil_r.
  rewrite slice_to_nonneg by done.
  apply firstn_all2. unfold len in *. lia.
Qed.

(** *** Totality of the local search *)

Lemma search_body_raises self q top_k filt e :
  (forall rows e, normalize_L2 rows = Raise e -> is_Exception e = true) ->
  (forall ix qv k e, index_search ix qv k = Raise e -> is_Exception e = true) ->
  search_body normalize_L2 index_search self q top_k filt = Raise e ->
  is_Exception e = true.
Proof.
  intros Hn Hs Hbody. unfold search_body, the_index in Hbody.
  destruct (index self) as [ix|]; simpl in Hbody; [|by inversion Hbody].
  destruct (ntotal ix =? 0); [done|].
  destruct (normalize_L2 [q]) as [qv|e1] eqn:E1; simpl in Hbody;
    [|inversion Hbody; subst; by eapply Hn].
  destruct (index_search ix qv _) as [found|e2] eqn:E2; simpl in Hbody;
    [|inversion Hbody; subst; by eapply Hs].
  by eapply search_loop_raises.
Qed.

(** C10. When the library calls of the search raise only errors of the
    [Exception] hierarchy, [FAISSIndex.search] always returns a list; the
    list is empty when the index holds no vector and when anything inside
    the search raised. *)
Theorem C10_local_search_total self q top_k filt :
  (forall rows e, normalize_L2 rows = Raise e -> is_Exception e = true) ->
  (forall ix qv k e, index_search ix qv k = Raise e -> is_Exception e = true) ->
  exists hits,
    local_search self q top_k filt = Ok hits /\
    ((exists ix, index self = Some ix /\ ntotal ix = 0) -> hits = []) /\
    (is_Ok (search_body normalize_L2 index_search self q top_k filt) = false ->
     hits = []).
Proof.
  intros Hn Hs. unfold FAISSIndex_search.
  pose proof (search_body_raises self q top_k filt) as Hraise.
  destruct (search_body normalize_L2 index_search self q top_k filt)
    as [hits|e] eqn:Hbody; simpl.
  - exists hits. split_and!; [done| |done].
    intros (ix & Hix & Hzero). unfold search_body, the_index in Hbody.
    rewrite Hix in Hbody. simpl in Hbody. rewrite Hzero in Hbody.
    simpl in Hbody. by inversion Hbody.
  - rewrite (Hraise e Hn Hs eq_refl). by exists [].
Qed.

(** *** Persistence on [add] *)

Lemma append_metadata_spec chunks self :
  let out := append_metadata chunks self in
  collection_name out.1 = collection_name self /\
  index out.1 = index self /\
  disk out.1 = disk self /\
  (out.2 = Ok tt ->
   exists mds, Forall2 (fun c md => meta_of c = Ok md) chunks mds /\
               metadata out.1 = metadata self ++ mds).
Proof.
  revert self. induction chunks as [|c rest IH]; intros self; simpl.
  - split_and!; try done. intros _. exists []. split; [constructor|].
    by rewrite app_nil_r.
  - destruct (meta_of c) as [md|e] eqn:Hmd; simpl; [|by split_and!].
    destruct (IH (set_metadata self (metadata self ++ [md]))) as (Hc & Hi & Hd & Hm).
    simpl in *. split_and!; try done.
    intros Hok. destruct (Hm Hok) as (mds & Hall & Heq).
    exists (md :: mds). split; [by constructor|].
    by rewrite Heq, <- app_assoc.
Qed.

Lemma add_in_memory_spec chunks self :
  let out := add_in_memory normalize_L2 chunks self in
  collection_name out.1 = collection_name self /\
  disk out.1 = disk self /\
  (out.2 = Ok tt ->
   is_Some (index out.1) /\
   exists mds, Forall2 (fun c md => meta_of c = Ok md) chunks mds /\
               metadata out.1 = metadata self ++ mds).
Proof.
  unfold add_in_memory.
  destruct (embeddings_of chunks) as [embs|]; simpl; [|by split_and!].
  destruct (normalize_L2 embs) as [embs'|]; simpl; [|by split_and!].
  destruct (Py.bind (the_index self) _) as [ix'|]; simpl; [|by split_and!].
  destruct (append_metadata_spec chunks (set_index self (Some ix')))
    as (Hc & Hi & Hd & Hm). simpl in *.
  split_and!; try done. intros Hok. split; [|by apply Hm].
  rewrite Hi. by eexists.
Qed.

Lemma app_inv_head_string (s a b : string) : s +:+ a = s +:+ b -> a = b.
Proof. apply String.app_inj. Qed.

Lemma paths_differ self : index_path self <> metadata_path self.
Proof.
  unfold index_path, metadata_path. intros H.
  apply app_inv_head_string, app_inv_head_string in H. discriminate.
Qed.


End index_properties.

(** *** The index on sample inputs *)

Section index_samples.

Import Index IndexSamples.

(** The local search deduplicates by document: with five units of each
    of two documents and identical scores, a search for three hits
    returns two. *)
Example local_search_two_documents :
  let ten : FAISSIndex :=
    {| collection_name := "bot_1";
       index := Some {| d := 1; xb := repeat [1%Q] 10 |};
       metadata := map (unit_of "a") (repeat 1 5) ++ map (unit_of "b") (repeat 2 5);
       disk := ∅ |} in
  exists hits,
    FAISSIndex_search normalize_id (ranked (repeat 1%Q 10) [0; 1; 2; 3; 4; 5; 6; 7; 8; 9])
      ten [1%Q] 3 None = Ok hits /\
    map h_document_id hits = [Some 1; Some 2].
Proof. eexists. split; reflexivity. Qed.

(** C1 fails on the merge: the local index holds one unit of document 1,
    the remote index returns another unit of the same document, and both
    are returned. *)
Lemma C1_merge_repeats_document :
  exists hits,
    VectorIndex_search normalize_id (ranked [(9 # 10)%Q] [0])
      (remote [point "chunk_1_1_1" 1 (8 # 10)%Q])
      true one_doc [1%Q; 0%Q] 2 None = Ok hits /\
    map h_document_id hits = [Some 1; Some 1] /\
    ~ NoDup (map h_document_id hits).
Proof.
  eexists. split; [reflexivity|]. split; [reflexivity|].
  intros H. apply NoDup_cons in H as [H _]. apply H. by left.
Qed.

(** C4 fails twice: a remote hit with a better score is appended after
    the local hit, so the scores increase; and two local hits with the
    same score follow each other, so the order is not strict. *)
Lemma C4_order_not_descending :
  (exists hits,
     VectorIndex_search normalize_id (ranked [(5 # 10)%Q] [0])
       (remote [point "chunk_2_1_0" 2 (9 # 10)%Q])
       true one_doc [1%Q; 0%Q] 2 None = Ok hits /\
     map h_score hits = [(5 # 10)%Q; (9 # 10)%Q] /\
     ~ non_increasing (map h_score hits)) /\
  (exists hits,
     VectorIndex_search normalize_id (ranked [(7 # 10)%Q; (7 # 10)%Q] [0; 1])
       (remote [])
       false two_docs [1%Q; 1%Q] 2 None = Ok hits /\
     map h_score hits = [(7 # 10)%Q; (7 # 10)%Q] /\
     ~ strictly_decreasing (map h_score hits)).
Proof.
  split.
  - eexists. split; [reflexivity|]. split; [reflexivity|].
    intros H. apply StronglySorted_inv in H as [_ H].
    apply Forall_inv in H. revert H. by vm_compute.
  - eexists. split; [reflexivity|]. split; [reflexivity|].
    intros H. apply StronglySorted_inv in H as [_ H].
    apply Forall_inv in H. revert H. by vm_compute.
Qed.

Lemma ranked_contract scores ids :
  non_increasing scores ->
  forall ix qv k found, ranked scores ids ix qv k = Ok found ->
    non_increasing found.1 /\ len found.1 <= Z.max 0 k.
Proof.
  intros Hs ix qv k found [= <-]. simpl. split.
  - rewrite <- (firstn_skipn (Z.to_nat k) scores) in Hs.
    apply StronglySorted_app in Hs. tauto.
  - unfold len. rewrite length_firstn. lia.
Defined.

(** The order theorem at a sample search without a remote index. *)
Lemma C4_search_order_witness :
  returns
    (VectorIndex_search normalize_id (ranked [(9 # 10)%Q; (7 # 10)%Q] [0; 1])
       (remote []) false two_docs [1%Q; 0%Q] 2 None)
    (fun hits =>
       len hits <= 2 /\
       exists local extra,
         FAISSIndex_search normalize_id (ranked [(9 # 10)%Q; (7 # 10)%Q] [0; 1])
           two_docs [1%Q; 0%Q] 2 None = Ok local /\
         non_increasing (map h_score local) /\
         len local <= 2 /\
         hits = slice_to (local ++ extra) 2 /\
         (false = false -> hits = local) /\
         (forall points,
            remote [] (collection_name two_docs) [1%Q; 0%Q] (2 - len local)
              (if truthy None then None else None) = Ok points ->
            extra `sublist_of` remote_hits points)).
Proof.
  apply (C4_search_order normalize_id (ranked [(9 # 10)%Q; (7 # 10)%Q] [0; 1])
           (remote []) false two_docs [1%Q; 0%Q] 2 None).
  - lia.
  - apply ranked_contract. repeat constructor; by vm_compute.
Defined.

(** The totality theorem at a search whose nearest-neighbour routine
    raises. *)
Lemma C10_local_search_total_witness :
  exists hits,
    FAISSIndex_search normalize_id broken_search two_docs [1%Q; 0%Q] 2 None = Ok hits /\
    ((exists ix, index two_docs = Some ix /\ ntotal ix = 0) -> hits = []) /\
    (is_Ok (search_body normalize_id broken_search two_docs [1%Q; 0%Q] 2 None) = false ->
     hits = []).
Proof.
  apply (C10_local_search_total normalize_id broken_search two_docs [1%Q; 0%Q] 2 None).
  - intros rows e [=].
  - intros ix qv k e [= <-]. reflexivity.
Defined.

Example local_search_broken :
  FAISSIndex_search normalize_id broken_search two_docs [1%Q; 0%Q] 2 None = Ok [].
Proof. reflexivity. Qed.

Example local_search_empty :
  FAISSIndex_search normalize_id broken_search empty_collection [1%Q; 0%Q] 2 None = Ok [].
Proof. reflexivity. Qed.

Example local_search_deleted :
  FAISSIndex_search normalize_id broken_search (set_index two_docs None) [1%Q; 0%Q] 2 None
  = Ok [].
Proof. reflexivity. Qed.



End index_samples.

(** ** The task executor *)

Section task_properties.

Import Tasks TasksSpec.

(** [submit_task] never registers the coroutine in [self._tasks], so the
    registry stays empty. *)
Lemma step_tasks_empty m ev m' :
  step m ev = Some m' -> _tasks m = ∅ -> _tasks m' = ∅.
Proof.
  destruct ev; simpl.
  - destruct (session m !! task_id), (coroutines m !! task_id); try done.
    by intros [= <-].
  - unfold _execute_task_start.
    destruct (coroutines m !! task_id) as [[]|]; try done.
    destruct (_semaphore m); [done|]. intros [= <-]. simpl.
    unfold update_task. simpl. by destruct (session m !! task_id).
  - unfold _execute_task_return.
    destruct (coroutines m !! task_id) as [[]|]; try done.
    intros [= <-]. simpl. unfold update_task. by destruct (session m !! task_id).
  - unfold _execute_task_raise.
    destruct (coroutines m !! task_id) as [[]|]; try done.
    destruct (is_Exception e); intros [= <-]; simpl; [|done].
    unfold update_task. by destruct (session m !! task_id).
  - intros [= <-] Hm. unfold cancel_task.
    destruct (session m !! task_id) as [t|]; [|done].
    destruct (negb _); [done|]. simpl.
    destruct (decide (task_id ∈ _tasks m)) as [Hin|]; [|done].
    rewrite Hm in Hin. set_solver.
  - by intros [= <-].
Qed.

Lemma run_tasks_empty evs m m' :
  run m evs = Some m' -> _tasks m = ∅ -> _tasks m' = ∅.
Proof.
  revert m. induction evs as [|ev rest IH]; intros m; simpl.
  - by intros [= <-].
  - destruct (step m ev) as [m1|] eqn:E; [|done].
    intros Hrun Hm. eapply IH; [done|]. by eapply step_tasks_empty.
Qed.

(** With an empty registry, [cancel_task] only writes the row: the
    coroutine of the task is left where it is suspended. *)
Lemma cancel_task_leaves_coroutine task_id now m :
  _tasks m = ∅ ->
  coroutines (cancel_task task_id now m).2 = coroutines m /\
  _semaphore (cancel_task task_id now m).2 = _semaphore m.
Proof.
  intros Hm. unfold cancel_task.
  destruct (session m !! task_id) as [t|]; [|done].
  destruct (negb _); [done|]. simpl.
  destruct (decide (task_id ∈ _tasks m)) as [Hin|]; [|done].
  rewrite Hm in Hin. set_solver.
Qed.

(** [cancel_task] itself respects terminal statuses. *)
Lemma cancel_task_terminal task_id now m t :
  session m !! task_id = Some t -> terminal (status t) = true ->
  cancel_task task_id now m = (false, m).
Proof.
  intros Ht Hterm. unfold cancel_task. rewrite Ht.
  by destruct (status t).
Qed.

(** What the executor does keep: a task that is COMPLETED or FAILED has no
    coroutine left to run, so no event changes its status again. Only
    CANCELLED can be overwritten. *)
Lemma init_settled : settled init.
Proof. intros task_id t H. simpl in H. by rewrite lookup_empty in H. Qed.

Lemma session_update_task task_id f m j :
  session (update_task task_id f m) !! j
  = if decide (task_id = j) then f <$> session m !! j else session m !! j.
Proof.
  unfold update_task. destruct (decide (task_id = j)) as [->|Hne].
  - destruct (session m !! j) as [t|] eqn:E; simpl; [by rewrite lookup_insert_eq|done].
  - destruct (session m !! task_id) as [t|] eqn:E; simpl; [by rewrite lookup_insert_ne|done].
Qed.

Lemma coroutines_update_task task_id f m :
  coroutines (update_task task_id f m) = coroutines m.
Proof. unfold update_task. by destruct (session m !! task_id). Qed.

Lemma semaphore_update_task task_id f m :
  _semaphore (update_task task_id f m) = _semaphore m.
Proof. unfold update_task. by destruct (session m !! task_id). Qed.

(** How one event changes the row and the coroutine of a task. *)
Lemma step_row m ev m' j t' :
  step m ev = Some m' -> session m' !! j = Some t' ->
  session m !! j = Some t'
  \/ (session m !! j = None /\ status t' = PENDING /\ coroutines m !! j = None)
  \/ (exists t, session m !! j = Some t /\
        ((status t' = RUNNING /\ coroutines m !! j = Some AwaitSemaphore)
         \/ (finished_status (status t') /\ coroutines m !! j = Some AwaitTaskFunc
             /\ coroutines m' !! j = Some (Finished (Ok tt)))
         \/ (status t' = CANCELLED /\ terminal (status t) = false))).
Proof.
  intros Hstep Hrow. destruct ev; simpl in Hstep.
  - destruct (session m !! task_id) eqn:Hs, (coroutines m !! task_id) eqn:Hc; try done.
    inversion Hstep; subst m'. unfold submit_task in Hrow. simpl in Hrow.
    destruct (decide (task_id = j)) as [->|Hne].
    + rewrite lookup_insert_eq in Hrow. inversion Hrow; subst t'. right. left. done.
    + rewrite lookup_insert_ne in Hrow by done. by left.
  - unfold _execute_task_start in Hstep.
    destruct (coroutines m !! task_id) as [[]|] eqn:Hc; try done.
    destruct (_semaphore m); [done|]. inversion Hstep; subst m'. simpl in Hrow.
    rewrite session_update_task in Hrow. simpl in Hrow.
    destruct (decide (task_id = j)) as [->|Hne]; [|by left].
    destruct (session m !! j) as [t|]; [|done]. inversion Hrow; subst t'.
    right. right. exists t. split; [done|]. left. done.
  - unfold _execute_task_return in Hstep.
    destruct (coroutines m !! task_id) as [[]|] eqn:Hc; try done.
    inversion Hstep; subst m'. simpl in Hrow.
    rewrite session_update_task in Hrow.
    destruct (decide (task_id = j)) as [->|Hne]; [|by left].
    destruct (session m !! j) as [t|]; [|done]. inversion Hrow; subst t'.
    right. right. exists t. split; [done|]. right. left.
    split_and!; [by left|done|]. simpl. by rewrite lookup_insert_eq.
  - unfold _execute_task_raise in Hstep.
    destruct (coroutines m !! task_id) as [[]|] eqn:Hc; try done.
    destruct (is_Exception e); inversion Hstep; subst m'; simpl in Hrow; [|by left].
    rewrite session_update_task in Hrow.
    destruct (decide (task_id = j)) as [->|Hne]; [|by left].
    destruct (session m !! j) as [t|]; [|done]. inversion Hrow; subst t'.
    right. right. exists t. split; [done|]. right. left.
    split_and!; [by right|done|]. simpl. by rewrite lookup_insert_eq.
  - inversion Hstep; subst m'. clear Hstep. unfold cancel_task in Hrow.
    destruct (session m !! task_id) as [t0|] eqn:Hs; [|by left].
    destruct (negb _) eqn:Hst; [by left|].
    assert (<[task_id:=mark_cancelled now t0]> (session m) !! j = Some t') as Hrow'.
    { destruct (decide _); [|done]. simpl in Hrow. unfold cancel_coroutine in Hrow.
      simpl in Hrow. by destruct (coroutines m !! task_id) as [[]|]. }
    destruct (decide (task_id = j)) as [->|Hne].
    + rewrite lookup_insert_eq in Hrow'. inversion Hrow'; subst t'.
      right. right. exists t0. split; [done|]. right. right. split; [done|].
      by destruct (status t0).
    + rewrite lookup_insert_ne in Hrow' by done. by left.
  - inversion Hstep; subst m'. simpl in Hrow.
    apply map_lookup_filter_Some in Hrow as [Hrow _]. by left.
Qed.

(** A coroutine that is over stays over. *)
Lemma step_finished m ev m' j outcome :
  step m ev = Some m' -> coroutines m !! j = Some (Finished outcome) ->
  exists outcome', coroutines m' !! j = Some (Finished outcome').
Proof.
  intros Hstep Hco. destruct ev; simpl in Hstep.
  - destruct (session m !! task_id) eqn:Hs, (coroutines m !! task_id) eqn:Hc; try done.
    inversion Hstep; subst m'. simpl.
    destruct (decide (task_id = j)) as [->|Hne]; [congruence|].
    rewrite lookup_insert_ne by done. by eexists.
  - unfold _execute_task_start in Hstep.
    destruct (coroutines m !! task_id) as [[]|] eqn:Hc; try done.
    destruct (_semaphore m); [done|]. inversion Hstep; subst m'. simpl.
    destruct (decide (task_id = j)) as [->|Hne]; [congruence|].
    rewrite lookup_insert_ne, coroutines_update_task by done. by eexists.
  - unfold _execute_task_return in Hstep.
    destruct (coroutines m !! task_id) as [[]|] eqn:Hc; try done.
    inversion Hstep; subst m'. simpl.
    destruct (decide (task_id = j)) as [->|Hne]; [congruence|].
    rewrite lookup_insert_ne, coroutines_update_task by done. by eexists.
  - unfold _execute_task_raise in Hstep.
    destruct (coroutines m !! task_id) as [[]|] eqn:Hc; try done.
    destruct (decide (task_id = j)) as [->|Hne]; [congruence|].
    destruct (is_Exception e); inversion Hstep; subst m'; simpl;
      rewrite lookup_insert_ne, ?coroutines_update_task by done; by eexists.
  - inversion Hstep; subst m'. clear Hstep. unfold cancel_task.
    destruct (session m !! task_id) as [t0|] eqn:Hs; [|by eexists].
    destruct (negb _); [by eexists|]. simpl.
    destruct (decide _); simpl; [|by eexists].
    unfold cancel_coroutine. simpl.
    destruct (coroutines m !! task_id) as [[]|] eqn:Hc; simpl; try (by eexists);
      (destruct (decide (task_id = j)) as [->|Hne];
       [rewrite lookup_insert_eq|rewrite lookup_insert_ne by done]; by eexists).
  - inversion Hstep; subst m'. simpl. by eexists.
Qed.

Lemma step_settled m ev m' : settled m -> step m ev = Some m' -> settled m'.
Proof.
  intros Hm Hstep j t' Hrow Hfin.
  destruct (step_row m ev m' j t' Hstep Hrow)
    as [Hold|[(_ & Hp & _)|(t & Ht & [[Hr _]|[(_ & _ & Hco)|[Hc _]]])]].
  - destruct (Hm j t' Hold Hfin) as [outcome Hco]. by eapply step_finished.
  - destruct Hfin; congruence.
  - destruct Hfin; congruence.
  - by eexists.
  - destruct Hfin; congruence.
Qed.

Lemma finished_status_is_final m ev m' task_id t t' :
  settled m -> step m ev = Some m' ->
  session m !! task_id = Some t -> finished_status (status t) ->
  session m' !! task_id = Some t' ->
  status t' = status t.
Proof.
  intros Hm Hstep Hrow Hfin Hrow'.
  destruct (Hm task_id t Hrow Hfin) as [outcome Hco].
  destruct (step_row m ev m' task_id t' Hstep Hrow')
    as [Hold|[(Hnone & _)|(t0 & Ht0 & [[_ Hc]|[(_ & Hc & _)|[_ Hterm]]])]];
    try congruence.
  assert (t0 = t) as -> by congruence.
  destruct Hfin as [Hf|Hf]; rewrite Hf in Hterm; done.
Qed.

Lemma run_settled evs m m' : settled m -> run m evs = Some m' -> settled m'.
Proof.
  revert m. induction evs as [|ev rest IH]; intros m Hm; simpl.
  - by intros [= <-].
  - destruct (step m ev) as [m1|] eqn:E; [|done].
    intros Hrun. eapply IH; [|done]. by eapply step_settled.
Qed.

(** In every state the executor can reach, a task that is COMPLETED or
    FAILED keeps its status whatever happens next. *)
Lemma completed_and_failed_are_final evs m ev m' task_id t t' :
  run init evs = Some m -> step m ev = Some m' ->
  session m !! task_id = Some t -> finished_status (status t) ->
  session m' !! task_id = Some t' ->
  status t' = status t.
Proof.
  intros Hrun. eapply finished_status_is_final.
  eapply run_settled; [apply init_settled|done].
Qed.

(** C2 fails on the code: a task is submitted and started, it is
    cancelled while its pipeline runs, which makes it CANCELLED, and when
    the pipeline returns the executor makes it COMPLETED. *)
Theorem C2_cancelled_task_is_completed :
  exists m1 m2,
    run init [Submit "t1" "ingest_document" "{}" 0; Start "t1" 1; Cancel "t1" 2]
      = Some m1 /\
    get_task_status "t1" m1 = Some CANCELLED /\
    step m1 (Return "t1" "indexed" 3) = Some m2 /\
    get_task_status "t1" m2 = Some COMPLETED.
Proof.
  eexists _, _. split; [reflexivity|]. split; [reflexivity|].
  split; reflexivity.
Qed.

(** The same happens to a task cancelled before it starts, which becomes
    RUNNING, and to a cancelled task whose pipeline raises, which becomes
    FAILED. *)
Example cancelled_task_is_started :
  exists m,
    run init [Submit "t1" "ingest_document" "{}" 0; Cancel "t1" 1; Start "t1" 2]
      = Some m /\
    get_task_status "t1" m = Some RUNNING.
Proof. eexists. split; reflexivity. Qed.

Example cancelled_task_is_failed :
  exists m,
    run init [Submit "t1" "ingest_document" "{}" 0; Start "t1" 1; Cancel "t1" 2;
              Raised "t1" (Exn RuntimeError "boom") 3]
      = Some m /\
    get_task_status "t1" m = Some FAILED.
Proof. eexists. split; reflexivity. Qed.

(** C8. When the pipeline of a task whose row exists raises an error of
    the [Exception] hierarchy, the executor ends normally, the row is
    FAILED and its [error] is the message of the exception; the permit is
    given back and no other row or coroutine is touched. *)
Theorem C8_failure_isolation m task_id e now t :
  coroutines m !! task_id = Some AwaitTaskFunc ->
  session m !! task_id = Some t ->
  is_Exception e = true ->
  exists m',
    _execute_task_raise task_id e now m = Some m' /\
    (exists t', session m' !! task_id = Some t' /\
                status t' = FAILED /\ error t' = Some (exn_msg e)) /\
    coroutines m' !! task_id = Some (Finished (Ok tt)) /\
    _semaphore m' = S (_semaphore m) /\
    (forall other, other <> task_id ->
       session m' !! other = session m !! other /\
       coroutines m' !! other = coroutines m !! other).
Proof.
  intros Hco Hrow He. unfold _execute_task_raise. rewrite Hco, He.
  eexists. split; [done|]. unfold update_task. rewrite Hrow. simpl.
  split_and!.
  - exists (mark_failed now e t). by rewrite lookup_insert_eq.
  - by rewrite lookup_insert_eq.
  - done.
  - intros other Hne. by rewrite !lookup_insert_ne.
Qed.

(** The failure theorem at a task that was submitted and started. *)
Lemma C8_failure_isolation_witness :
  let m := set_coroutine
             (update_task "t1" (mark_running 1)
                (set_semaphore (submit_task "t1" "ingest_document" "{}" 0 init) 1))
             "t1" AwaitTaskFunc in
  let e := Exn ValueError "Unsupported file type: .exe" in
  exists m',
    _execute_task_raise "t1" e 2 m = Some m' /\
    (exists t', session m' !! "t1" = Some t' /\
                status t' = FAILED /\ error t' = Some (exn_msg e)) /\
    coroutines m' !! "t1" = Some (Finished (Ok tt)) /\
    _semaphore m' = S (_semaphore m) /\
    (forall other, other <> "t1" ->
       session m' !! other = session m !! other /\
       coroutines m' !! other = coroutines m !! other).
Proof.
  intros m e.
  apply (C8_failure_isolation m "t1" e 2 (mark_running 1
           {| id := "t1"; type := "ingest_document"; data := "{}";
              status := PENDING; result := None; error := None;
              created_at := 0; started_at := None; completed_at := None |}));
    reflexivity.
Defined.

(** An error from outside the [Exception] hierarchy is not caught: the
    row keeps its status and the error leaves the coroutine. *)
Example base_exception_leaves_executor :
  exists m,
    run init [Submit "t1" "ingest_document" "{}" 0; Start "t1" 1;
              Raised "t1" (Exn CancelledError "") 2] = Some m /\
    get_task_status "t1" m = Some RUNNING /\
    coroutines m !! "t1" = Some (Finished (Raise (Exn CancelledError ""))).
Proof. eexists. split; [reflexivity|]. split; reflexivity. Qed.

End task_properties.

(** ** The citation extractor *)

Section citation_properties.

Import Str Re Rag RagSpec.

(** *** Decimal numerals *)

Lemma of_uint_acc_value d acc :
  Z.pos (Pos.of_uint_acc d acc) = uint_value (Z.pos acc) d.
Proof.
  revert acc. induction d; intros acc; simpl; try done;
    rewrite IHd; f_equal; lia.
Qed.

Lemma of_uint_value d : Z.of_N (Pos.of_uint d) = uint_value 0 d.
Proof.
  induction d; simpl; try done; by rewrite of_uint_acc_value.
Qed.

Lemma int_go_uint d acc :
  int_go acc (NilEmpty.string_of_uint d) = uint_value acc d.
Proof.
  revert acc. induction d; intros acc;
    cbn [int_go NilEmpty.string_of_uint uint_value]; try done;
    rewrite IHd; f_equal;
    match goal with
    | |- context [Z.of_nat (code ?c)] =>
        let v := eval vm_compute in (Z.of_nat (code c)) in
        change (Z.of_nat (code c)) with v
    end; lia.
Qed.

Lemma all_digits_uint d : all_digits (NilEmpty.string_of_uint d) = true.
Proof. induction d; simpl; done. Qed.

Lemma of_Z_pos p : of_Z (Z.pos p) = NilEmpty.string_of_uint (Pos.to_uint p).
Proof.
  unfold of_Z. simpl. unfold NilZero.string_of_uint.
  pose proof (DecimalPos.Unsigned.to_uint_nonnil p) as H.
  by destruct (Pos.to_uint p).
Qed.

(** The digits of [str(n)] have the value [n], for a natural number. *)
Lemma int_of_Z n : 0 <= n -> int_value (of_Z n) = n.
Proof.
  intros Hn. destruct n as [|p|p]; [done| |lia].
  rewrite of_Z_pos. unfold int_value. rewrite int_go_uint, <- of_uint_value.
  by rewrite DecimalPos.Unsigned.of_to.
Qed.

(** A string of digits is a decimal numeral of the Standard Library. *)
Lemma uint_of_digits s :
  all_digits s = true -> exists d, NilEmpty.uint_of_string s = Some d.
Proof.
  induction s as [|c s IH]; simpl; [by eexists|].
  intros H. apply andb_true_iff in H as [Hc Hs].
  destruct (IH Hs) as [d ->].
  destruct c as [[] [] [] [] [] [] [] []]; try discriminate Hc; by eexists.
Qed.

(** The value that the code reads from a string of digits is the number
    the numeral denotes. *)
Lemma int_value_numeral s : all_digits s = true -> int_value s = numeral_value s.
Proof.
  intros Hs. destruct (uint_of_digits s Hs) as [d Hd].
  unfold numeral_value. rewrite Hd. apply NilEmpty.sus in Hd as <-.
  unfold int_value, Z.of_uint. by rewrite int_go_uint, of_uint_value.
Qed.

(** [str(n)] is a numeral, so [[n]] is a marker. *)
Lemma of_Z_numeral n : 0 <= n -> numeral (of_Z n).
Proof.
  intros Hn. destruct n as [|p|p]; [done| |lia].
  rewrite of_Z_pos. split; [apply all_digits_uint|].
  pose proof (DecimalPos.Unsigned.to_uint_nonnil p) as H.
  by destruct (Pos.to_uint p).
Qed.

(** *** The scan for markers *)

Lemma isdigit_not_bracket c :
  isdigit c = true -> Ascii.eqb c "["%char = false.
Proof. by destruct c as [[] [] [] [] [] [] [] []]. Qed.

Lemma length_append (a b : string) :
  String.length (a +:+ b) = (String.length a + String.length b)%nat.
Proof. induction a as [|c a IH]; unfold_append; simpl; [done|]. by rewrite IH. Qed.

Lemma nonempty_append_l (a b : string) : nonempty a = true -> nonempty (a +:+ b) = true.
Proof. by destruct a. Qed.

(** Scanning up to an opening bracket: what was found before it, then the
    scan starts a candidate marker. *)
Lemma findall_bracket inside before after :
  findall_markers inside (before +:+ String "["%char after)
  = findall_markers inside before ++ findall_markers (Some "") after.
Proof.
  revert inside. induction before as [|c before IH]; intros inside; unfold_append; simpl.
  - done.
  - destruct (Ascii.eqb c "["); [apply IH|].
    destruct inside as [digits|]; [|apply IH].
    destruct (isdigit c); [apply IH|].
    destruct (Ascii.eqb c "]" && nonempty digits); [|apply IH].
    by rewrite IH.
Qed.

Lemma findall_digits digits acc rest :
  all_digits digits = true ->
  findall_markers (Some acc) (digits +:+ rest)
  = findall_markers (Some (acc +:+ digits)) rest.
Proof.
  revert acc. induction digits as [|c digits IH]; intros acc; unfold_append; simpl.
  - intros _. by rewrite append_nil_r.
  - intros H. apply andb_true_iff in H as [Hc Hd].
    rewrite (isdigit_not_bracket _ Hc), Hc, IH by done.
    by rewrite app_assoc_string.
Qed.

Lemma findall_close acc digits rest :
  all_digits digits = true -> nonempty (acc +:+ digits) = true ->
  findall_markers (Some acc) (digits +:+ String "]"%char rest)
  = (acc +:+ digits) :: findall_markers None rest.
Proof.
  intros Hd Hn. rewrite findall_digits by done. simpl. by rewrite Hn.
Qed.

(** A marker in the text is found by the scan. *)
Lemma has_marker_found s : has_marker s -> findall_markers None s <> [].
Proof.
  intros (before & digits & after & -> & Hd & Hn). unfold marker. unfold_append.
  rewrite findall_bracket, app_assoc_string. unfold_append.
  rewrite findall_close by done. by destruct (findall_markers None before).
Qed.

(** What the scan finds is a marker of the text, or the end of a marker
    that was open when the scan began. *)
Lemma found_has_marker s inside :
  findall_markers inside s <> [] ->
  has_marker s
  \/ exists acc digits after,
       inside = Some acc /\ s = digits +:+ String "]"%char after /\
       all_digits digits = true /\ nonempty (acc +:+ digits) = true.
Proof.
  revert inside. induction s as [|c s IH]; intros inside; simpl; [done|].
  assert (has_marker s -> has_marker (String c s)) as Hlift.
  { intros (before & digits & after & -> & Hnum).
    exists (String c before), digits, after. by unfold_append. }
  destruct (Ascii.eqb_spec c "["%char) as [->|Hc].
  - intros H. left. destruct (IH _ H) as [Hm|(acc & digits & after & [= <-] & -> & Hd & Hn)];
      [by apply Hlift|].
    exists "", digits, after. unfold marker. unfold_append.
    split; [by rewrite app_assoc_string|done].
  - destruct inside as [acc|].
    2: { intros H. destruct (IH _ H) as [Hm|(? & ? & ? & [=] & _)]. left. by apply Hlift. }
    destruct (isdigit c) eqn:Hdig.
    + intros H. destruct (IH _ H) as [Hm|(acc' & digits & after & [= <-] & -> & Hd & Hn)];
        [left; by apply Hlift|].
      right. exists acc, (String c digits), after. unfold_append.
      split_and!; [done|done|by simpl; rewrite Hdig|].
      by rewrite app_assoc_string in Hn.
    + destruct (Ascii.eqb_spec c "]"%char) as [->|Hc'].
      * destruct (nonempty acc) eqn:Hacc; simpl.
        -- intros _. right. exists acc, "", s. unfold_append.
           split_and!; [done|done|done|]. by rewrite append_nil_r.
        -- intros H. destruct (IH _ H) as [Hm|(? & ? & ? & [=] & _)]. left. by apply Hlift.
      * simpl. intros H. destruct (IH _ H) as [Hm|(? & ? & ? & [=] & _)].
        left. by apply Hlift.
Qed.

Lemma no_marker_nothing_found s : ~ has_marker s -> findall_markers None s = [].
Proof.
  intros Hno. destruct (findall_markers None s) as [|m ms] eqn:E; [done|].
  destruct (found_has_marker s None) as [Hm|(? & ? & ? & [=] & _)]; [by rewrite E|].
  by destruct Hno.
Qed.

Lemma findall_render items tail :
  cut_at_markers items tail ->
  findall_markers None (render items tail) = map snd items.
Proof.
  intros [Hitems Htail]. induction Hitems as [|[plain digits] rest [Hp [Hd Hn]] _ IH]; simpl.
  - by apply no_marker_nothing_found.
  - simpl in Hp, Hd, Hn. unfold marker. unfold_append.
    rewrite findall_bracket, app_assoc_string. unfold_append.
    rewrite (no_marker_nothing_found _ Hp), findall_close by done.
    unfold_append. simpl. by rewrite IH.
Qed.

(** Every text is cut at its markers in some way. *)
Lemma render_append items tail rest :
  render items tail +:+ rest = render items (tail +:+ rest).
Proof.
  induction items as [|[plain digits] items IH]; simpl; [done|].
  by rewrite !app_assoc_string, IH.
Qed.

Lemma render_app items1 items2 tail :
  render (items1 ++ items2) tail = render items1 (render items2 tail).
Proof.
  induction items1 as [|[plain digits] items1 IH]; simpl; [done|]. by rewrite IH.
Qed.

Lemma text_is_cut_below (n : nat) s :
  (String.length s < n)%nat ->
  exists items tail, s = render items tail /\ cut_at_markers items tail.
Proof.
  revert s. induction n as [|n IH]; intros s Hlen; [lia|].
  destruct (findall_markers None s) as [|m ms] eqn:E.
  - exists [], s. split; [done|]. split; [constructor|].
    intros H. by apply has_marker_found in H.
  - destruct (found_has_marker s None) as [Hm|(? & ? & ? & [=] & _)]; [by rewrite E|].
    destruct Hm as (before & digits & after & -> & Hnum).
    rewrite !length_append in Hlen. unfold marker in Hlen.
    rewrite !length_append in Hlen. simpl in Hlen.
    destruct (IH before) as (items1 & tail1 & -> & [Hi1 Ht1]); [lia|].
    destruct (IH after) as (items2 & tail2 & -> & [Hi2 Ht2]); [lia|].
    exists (items1 ++ (tail1, digits) :: items2), tail2. split.
    + by rewrite render_app, render_append.
    + split; [|done]. apply Forall_app. split; [done|]. by constructor.
Qed.

Lemma every_text_is_cut s :
  exists items tail, s = render items tail /\ cut_at_markers items tail.
Proof. apply (text_is_cut_below (S (String.length s))). lia. Qed.

(** *** Resolution of the markers *)

Lemma citations_loop_cons m rest retrieved :
  citations_loop (m :: rest) retrieved
  = (if (String.length m <=? 4300)%nat then resolve retrieved (int_value m) else [])
    ++ citations_loop rest retrieved.
Proof.
  cbn [citations_loop]. unfold int, int_max_str_digits.
  destruct (Nat.leb_spec (String.length m) 4300) as [Hle|Hgt].
  2: { apply Nat.ltb_lt in Hgt. by rewrite Hgt. }
  assert ((4300 <? String.length m)%nat = false) as -> by (apply Nat.ltb_ge; lia).
  unfold resolve, getitem.
  repeat match goal with
         | |- context [Z.ltb ?a ?b] => destruct (Z.ltb_spec a b)
         | |- context [Z.leb ?a ?b] => destruct (Z.leb_spec a b)
         end; simpl; try lia; try done.
  by destruct (nth_error retrieved (Z.to_nat (int_value m - 1))).
Qed.

(** A marker in range yields exactly the citation of the unit it
    numbers; a marker out of range yields nothing. *)
Lemma resolve_in_range retrieved n :
  1 <= n <= len retrieved ->
  exists unit, nth_error retrieved (Z.to_nat (n - 1)) = Some unit /\
               resolve retrieved n = [cite unit].
Proof.
  intros [H1 H2]. unfold resolve.
  assert (((1 <=? n) && (n <=? len retrieved)) = true) as ->
    by (apply andb_true_iff; split; apply Z.leb_le; lia).
  destruct (nth_error retrieved (Z.to_nat (n - 1))) as [unit|] eqn:E; [by exists unit|].
  apply nth_error_None in E. unfold len in H2. lia.
Qed.

Lemma resolve_out_of_range retrieved n :
  n < 1 \/ len retrieved < n -> resolve retrieved n = [].
Proof.
  intros H. unfold resolve.
  assert (((1 <=? n) && (n <=? len retrieved)) = false) as ->; [|done].
  apply andb_false_iff. destruct H; [left|right]; apply Z.leb_gt; lia.
Qed.

(** C9. Cut a generated text at its markers: stretches of text that hold
    no marker, each followed by a marker, a numeral in square brackets,
    and a last stretch. [extract_citations] returns the citations the
    markers resolve to, in the order of the markers, a marker that
    repeats giving its citation again. A marker whose numeral has 4300
    digits at most and denotes [n] resolves to [retrieved_units[n-1]]
    when [1 <= n <= len], and to nothing otherwise; a marker whose
    numeral has more digits resolves to nothing. *)
Theorem C9_extract_citations items tail retrieved_units :
  cut_at_markers items tail ->
  extract_citations (render items tail) retrieved_units
  = flat_map (fun it : string * string =>
                if (String.length it.2 <=? 4300)%nat
                then resolve retrieved_units (numeral_value it.2)
                else []) items.
Proof.
  intros Hcut. unfold extract_citations. rewrite findall_render by done.
  destruct Hcut as [Hitems _].
  induction Hitems as [|[plain digits] rest [_ [Hdigits _]] _ IH]; [done|].
  simpl map. rewrite citations_loop_cons, IH. simpl.
  by rewrite (int_value_numeral digits Hdigits).
Qed.

(** A stretch without an opening bracket holds no marker. *)
Lemma no_bracket_no_marker s : has_char "[" s = false -> ~ has_marker s.
Proof.
  intros Hs (before & digits & after & -> & _). revert Hs.
  induction before as [|c before IH]; unfold marker; unfold_append; simpl; [done|].
  intros H. apply orb_false_iff in H as [_ H]. apply IH. by unfold marker.
Defined.

(** The scenario of the specification: two retrieved units, markers 1, 2
    and 9. The markers 1 and 2 give the citations of the first and of
    the second unit, the marker 9 gives none. *)
Lemma C9_extract_citations_witness :
  extract_citations
    (render [("Paris is the capital ", "1"); (". See also ", "2"); (" and ", "9")] ".")
    [unit_1; unit_2]
  = [cite unit_1; cite unit_2].
Proof.
  apply (C9_extract_citations
           [("Paris is the capital ", "1"); (". See also ", "2"); (" and ", "9")] "."
           [unit_1; unit_2]).
  split; [|by apply no_bracket_no_marker].
  repeat constructor; by apply no_bracket_no_marker.
Defined.

(** A marker that the claim resolves and the code skips: its numeral
    denotes 1 and there is a unit 1, but the numeral has 4301 digits,
    one more than [int] converts; the [ValueError] is caught and the
    marker gives no citation. *)
Lemma C9_long_numeral_is_skipped :
  numeral long_one /\
  String.length long_one = 4301%nat /\
  numeral_value long_one = 1 /\
  resolve [unit_1] (numeral_value long_one) = [cite unit_1] /\
  int long_one
  = Raise (Exn ValueError "Exceeds the limit (4300 digits) for integer string conversion") /\
  extract_citations ("See " +:+ marker long_one +:+ ".") [unit_1] = [].
Proof. by vm_compute. Qed.

Example paris_scenario :
  extract_citations "Paris is the capital [1]. See also [2] and [9]." [unit_1; unit_2]
  = [cite unit_1; cite unit_2].
Proof. reflexivity. Qed.

Example repeated_and_malformed_markers :
  extract_citations "[2] then [1], again [2]; not markers: [0] [x] [] [3 [[1]]" [unit_1; unit_2]
  = [cite unit_2; cite unit_1; cite unit_2; cite unit_1].
Proof. reflexivity. Qed.

End citation_properties.

(** ** The semantic chunker *)

Section chunker_properties.

Import Str Chunking ChunkingSpec.

Variable encode : string -> Py.result (list Z).
Variable decode : list Z -> string.
Variable chunk_size : Z.
Variable chunk_overlap : Z.

Local Abbreviation count := (count_tokens encode).

(** *** The fixed-size fallback *)

Lemma clamp_nonneg {A} (l : list A) (i : Z) :
  0 <= i -> clamp l i = Nat.min (length l) (Z.to_nat i).
Proof.
  intros Hi. unfold clamp, len.
  destruct (Z.ltb_spec i 0); lia.
Qed.

Lemma firstn_min {A} (l : list A) (n : nat) :
  firstn (Nat.min (length l) n) l = firstn n l.
Proof.
  destruct (Nat.le_gt_cases n (length l)) as [H|H].
  - by rewrite Nat.min_r.
  - rewrite Nat.min_l by lia. rewrite firstn_all.
    symmetry. apply firstn_all2. lia.
Qed.

Lemma skipn_min {A} (l : list A) (n : nat) :
  skipn (Nat.min (length l) n) l = skipn n l.
Proof.
  destruct (Nat.le_gt_cases n (length l)) as [H|H].
  - by rewrite Nat.min_r.
  - rewrite Nat.min_l by lia. rewrite skipn_all.
    symmetry. apply skipn_all2. lia.
Qed.

(** A slice with non-negative bounds is a window. *)
Lemma slice_window (tokens : list Z) (k : nat) (size stride : Z) :
  0 <= size -> 0 <= stride ->
  slice tokens (Z.of_nat k * stride) (Z.of_nat k * stride + size)
  = window size stride tokens k.
Proof.
  intros Hs Hst. unfold slice, window.
  rewrite !clamp_nonneg by lia. rewrite firstn_min.
  replace (Z.to_nat (Z.of_nat k * stride)) with (k * Z.to_nat stride)%nat by lia.
  replace (Z.to_nat (Z.of_nat k * stride + size))
    with (k * Z.to_nat stride + Z.to_nat size)%nat by lia.
  destruct (Nat.le_gt_cases (k * Z.to_nat stride) (length tokens)) as [H|H].
  - rewrite Nat.min_r by done. rewrite skipn_firstn_comm. f_equal. lia.
  - rewrite Nat.min_l by lia.
    rewrite (skipn_all2 tokens) by lia. rewrite firstn_nil.
    apply skipn_all2. rewrite length_firstn. lia.
Qed.

Lemma simple_chunk_loop_windows tokens metadata (ks : list nat) :
  0 < chunk_size -> chunk_overlap < chunk_size ->
  exists units,
    simple_chunk_loop decode chunk_size tokens metadata
      (map (fun k => Z.of_nat k * (chunk_size - chunk_overlap)) ks) = Ok units /\
    map content units
    = map (fun k => let w := window chunk_size (chunk_size - chunk_overlap) tokens k in
                    (decode w, [], len w)) ks.
Proof.
  intros Hsize Hov. induction ks as [|k ks (units & Hloop & Hunits)]; simpl.
  - by exists [].
  - unfold simple_chunk_at, floordiv.
    destruct (Z.eqb_spec chunk_size 0) as [|_]; [lia|]. simpl.
    rewrite Hloop. simpl. eexists. split; [done|]. simpl.
    rewrite Hunits. unfold content at 1. simpl.
    by rewrite slice_window by lia.
Qed.

Lemma simple_chunk_windows text metadata tokens :
  encode text = Ok tokens ->
  0 < chunk_size -> chunk_overlap < chunk_size ->
  exists units,
    _simple_chunk encode decode chunk_size chunk_overlap text metadata = Ok units /\
    map content units
    = fixed_windows decode chunk_size (chunk_size - chunk_overlap) tokens.
Proof.
  intros Henc Hsize Hov. unfold _simple_chunk, range_step. rewrite Henc. simpl.
  destruct (Z.eqb_spec (chunk_size - chunk_overlap) 0) as [|_]; [lia|].
  destruct (Z.ltb_spec (chunk_size - chunk_overlap) 0) as [|_]; [lia|]. simpl.
  unfold fixed_windows, window_count.
  destruct (Z.leb_spec (len tokens) 0) as [Hz|Hz]; simpl.
  - assert (len tokens = 0) as -> by (pose proof (len_nonneg tokens); lia).
    rewrite Z.div_small by lia. by exists [].
  - by apply simple_chunk_loop_windows.
Qed.

(** C7, as the code has it. [chunk_text] returns the units of the semantic
    processing when it succeeds. When the semantic processing raises, the
    error is caught and [chunk_text] returns what the fixed-size fallback
    returns: provided the fallback can tokenize the raw text and the
    stride [chunk_size - chunk_overlap] is positive, these are the windows
    of [chunk_size] tokens taken every stride tokens over the raw token
    sequence, without headings. (An error raised by the fallback itself is
    not caught.) *)
Theorem C7_chunk_text_fallback text metadata tokens :
  encode text = Ok tokens ->
  0 < chunk_size -> chunk_overlap < chunk_size ->
  returns (chunk_text encode decode chunk_size chunk_overlap text metadata)
    (fun units =>
       semantic_body encode decode chunk_size chunk_overlap text metadata = Ok units
       \/ (is_Ok (semantic_body encode decode chunk_size chunk_overlap text metadata) = false
           /\ _simple_chunk encode decode chunk_size chunk_overlap text metadata = Ok units
           /\ map content units
              = fixed_windows decode chunk_size (chunk_size - chunk_overlap) tokens)).
Proof.
  intros Henc Hsize Hov. unfold chunk_text, returns.
  destruct (semantic_body encode decode chunk_size chunk_overlap text metadata)
    as [units|e]; simpl; [by left|].
  destruct (is_Exception e) eqn:He; simpl; [|done].
  destruct (simple_chunk_windows text metadata tokens Henc Hsize Hov)
    as (units & -> & Hunits).
  by right.
Qed.

(** *** The overlap text *)

Lemma split_terminators_nonempty in_run s :
  (1 <= length (Re.split_terminators in_run s))%nat.
Proof.
  revert in_run. induction s as [|c s IH]; intros in_run; simpl; [lia|].
  destruct (Re.is_terminator c).
  - destruct in_run; simpl; [apply IH|lia].
  - specialize (IH false). destruct (Re.split_terminators false s); simpl in *; lia.
Qed.

Lemma split_terminators_none in_run s :
  has_terminator s = false -> Re.split_terminators in_run s = [s].
Proof.
  revert in_run. induction s as [|c s IH]; intros in_run; simpl; [done|].
  intros H. apply orb_false_iff in H as [-> Hs]. by rewrite IH.
Qed.

Lemma split_terminators_some s :
  has_terminator s = true -> (2 <= length (Re.split_terminators false s))%nat.
Proof.
  induction s as [|c s IH]; simpl; [done|].
  destruct (Re.is_terminator c); simpl.
  - intros _. pose proof (split_terminators_nonempty true s). lia.
  - intros H. specialize (IH H).
    destruct (Re.split_terminators false s); simpl in *; lia.
Qed.

Lemma slice_from_last (tokens : list Z) (n : Z) :
  0 < n < len tokens -> slice_from tokens (- n) = last_tokens n tokens.
Proof.
  intros [H0 Hn]. unfold slice_from, last_tokens, clamp.
  destruct (Z.ltb_spec (- n) 0); [|lia]. f_equal. unfold len in *. lia.
Qed.

Lemma get_overlap_text_spec text overlap_text :
  0 < chunk_overlap ->
  _get_overlap_text encode decode text chunk_overlap = Ok overlap_text ->
  overlap_of encode decode chunk_overlap text overlap_text.
Proof.
  intros Hov. unfold _get_overlap_text.
  destruct (encode text) as [tokens|] eqn:Henc; simpl; [|done].
  destruct (Z.leb_spec (len tokens) chunk_overlap) as [Hle|Hgt].
  { intros [= <-]. by eapply overlap_whole. }
  rewrite slice_from_last by lia.
  destruct (has_terminator (decode (last_tokens chunk_overlap tokens))) eqn:Ht.
  - pose proof (split_terminators_some _ Ht) as Hlen.
    destruct (Z.ltb_spec 1 (len (Re.split_terminators false
                (decode (last_tokens chunk_overlap tokens))))) as [_|Hl];
      [|unfold len in Hl; lia].
    intros [= <-]. by eapply overlap_sentences.
  - rewrite (split_terminators_none false _ Ht). simpl.
    intros [= <-]. by eapply overlap_raw.
Qed.

(** *** The overlap loop *)

Local Abbreviation stitched := (stitched_to encode decode chunk_overlap).

Lemma overlap_step_length i chunks chunks' :
  overlap_step encode decode chunk_overlap i chunks = Ok chunks' ->
  length chunks' = length chunks.
Proof.
  unfold overlap_step. destruct i as [|j]; [by intros [= <-]|].
  destruct (chunks !! j) as [prev|]; [|by intros [= <-]].
  destruct (chunks !! S j) as [chunk|]; [|by intros [= <-]].
  destruct (_get_overlap_text _ _ _ _) as [ov|]; simpl; [|done].
  destruct (nonempty ov); [|by intros [= <-]].
  destruct (count _) as [n|]; simpl; [|done].
  intros [= <-]. by rewrite length_insert.
Qed.

Lemma overlap_step_other i chunks chunks' j :
  overlap_step encode decode chunk_overlap i chunks = Ok chunks' ->
  j <> i -> chunks' !! j = chunks !! j.
Proof.
  unfold overlap_step. destruct i as [|k]; [by intros [= <-]|].
  destruct (chunks !! k) as [prev|]; [|by intros [= <-]].
  destruct (chunks !! S k) as [chunk|]; [|by intros [= <-]].
  destruct (_get_overlap_text _ _ _ _) as [ov|]; simpl; [|done].
  destruct (nonempty ov); [|by intros [= <-]].
  destruct (count _) as [n|]; simpl; [|done].
  intros [= <-] Hne. by rewrite list_lookup_insert_ne.
Qed.

Lemma overlap_step_here i chunks chunks' prev orig cur :
  overlap_step encode decode chunk_overlap (S i) chunks = Ok chunks' ->
  chunks !! i = Some prev -> chunks !! S i = Some orig -> chunks' !! S i = Some cur ->
  stitched prev orig cur.
Proof.
  unfold overlap_step. intros Hstep Hprev Horig Hcur.
  rewrite Hprev, Horig in Hstep.
  destruct (_get_overlap_text _ _ _ _) as [ov|] eqn:Hov; simpl in Hstep; [|done].
  exists ov. split; [done|].
  destruct ov as [|c ov]; simpl in Hstep.
  - left. inversion Hstep; subst. split; [done|]. congruence.
  - right. split; [done|].
    destruct (count _) as [n|] eqn:Hn; simpl in Hstep; [|done].
    inversion Hstep; subst. exists n. split; [done|].
    rewrite list_lookup_insert_eq in Hcur; [congruence|].
    by eapply lookup_lt_Some.
Qed.

Lemma overlap_loop_spec m a chunks st out :
  overlap_loop encode decode chunk_overlap (seq a m) st = Ok out ->
  length st = length chunks ->
  (a + m)%nat = length chunks ->
  (forall j, (a <= j)%nat -> st !! j = chunks !! j) ->
  length out = length chunks /\
  (forall j, (j < a)%nat -> out !! j = st !! j) /\
  (forall i prev orig cur,
     (a <= S i)%nat ->
     out !! i = Some prev -> chunks !! S i = Some orig -> out !! S i = Some cur ->
     stitched prev orig cur).
Proof.
  revert a st. induction m as [|m IH]; intros a st Hloop Hlen Ham Horig; simpl in Hloop.
  - inversion Hloop; subst out. split_and!; [done|done|].
    intros i prev orig cur Hi _ _ Hcur.
    apply lookup_lt_Some in Hcur. lia.
  - destruct (overlap_step encode decode chunk_overlap a st) as [st1|] eqn:Hstep;
      simpl in Hloop; [|done].
    pose proof (overlap_step_length _ _ _ Hstep) as Hlen1.
    destruct (IH (S a) st1 Hloop) as (Hl & Hlow & Hpairs); [lia|lia| |].
    { intros j Hj. rewrite (overlap_step_other _ _ _ j Hstep) by lia.
      apply Horig. lia. }
    split_and!; [done| |].
    + intros j Hj. rewrite Hlow by lia. apply (overlap_step_other _ _ _ j Hstep). lia.
    + intros i prev orig cur Hi Hprev Ho Hcur.
      destruct (decide (a = S i)) as [->|Hne];
        [|apply (Hpairs i prev orig cur); [lia|done..]].
      rewrite Hlow in Hprev, Hcur by lia.
      rewrite (overlap_step_other _ _ _ i Hstep) in Hprev by lia.
      eapply overlap_step_here; [done|done| |done].
      rewrite Horig by lia. done.
Qed.

(** What [_apply_overlap] returns: as many units, the first one untouched,
    each later one stitched to its predecessor as the loop left it. *)
Lemma apply_overlap_shape chunks out :
  _apply_overlap encode decode chunk_overlap chunks = Ok out ->
  length out = length chunks /\
  out !! 0%nat = chunks !! 0%nat /\
  (forall i prev orig cur,
     out !! i = Some prev -> chunks !! S i = Some orig -> out !! S i = Some cur ->
     stitched prev orig cur).
Proof.
  unfold _apply_overlap. destruct (Z.leb_spec (len chunks) 1) as [Hle|Hgt].
  - intros [= <-]. split_and!; [done|done|].
    intros i prev orig cur _ Ho _. apply lookup_lt_Some in Ho.
    unfold len in Hle. lia.
  - intros Hloop.
    destruct (overlap_loop_spec (length chunks) 0 chunks chunks out Hloop)
      as (Hl & _ & Hpairs); [done|done|done|].
    split_and!; [done| |intros i prev orig cur ???; apply (Hpairs i prev orig cur); [lia|done..]].
    unfold len in Hgt. destruct chunks as [|c0 rest]; [simpl in Hgt; lia|].
    simpl in Hloop.
    destruct (overlap_loop_spec (length rest) 1 (c0 :: rest) (c0 :: rest) out Hloop)
      as (_ & Hlow & _); [done|done|done|].
    apply Hlow. lia.
Qed.

(** With a tokenizer that never raises the overlap loop returns. *)
Lemma count_total s : total_tokenizer encode -> exists n, count s = Ok n.
Proof.
  intros Htotal. unfold count_tokens. destruct (Htotal s) as [tokens ->]. by eexists.
Qed.

Lemma get_overlap_text_total text :
  total_tokenizer encode ->
  exists overlap_text, _get_overlap_text encode decode text chunk_overlap = Ok overlap_text.
Proof.
  intros Htotal. unfold _get_overlap_text. destruct (Htotal text) as [tokens ->]. simpl.
  destruct (len tokens <=? chunk_overlap); [by eexists|].
  destruct (1 <? len _); by eexists.
Qed.

Lemma overlap_step_total i chunks :
  total_tokenizer encode ->
  exists chunks', overlap_step encode decode chunk_overlap i chunks = Ok chunks'.
Proof.
  intros Htotal. unfold overlap_step. destruct i as [|j]; [by eexists|].
  destruct (chunks !! j) as [prev|]; [|by eexists].
  destruct (chunks !! S j) as [chunk|]; [|by eexists].
  destruct (get_overlap_text_total (text prev) Htotal) as [ov ->]. simpl.
  destruct (nonempty ov); [|by eexists].
  destruct (count_total (ov +:+ nl +:+ nl +:+ text chunk) Htotal) as [n ->].
  by eexists.
Qed.

Lemma apply_overlap_total chunks :
  total_tokenizer encode ->
  exists out, _apply_overlap encode decode chunk_overlap chunks = Ok out.
Proof.
  intros Htotal. unfold _apply_overlap. destruct (len chunks <=? 1); [by eexists|].
  generalize (seq 0 (length chunks)). intros indices. revert chunks.
  induction indices as [|i rest IH]; intros chunks; simpl; [by eexists|].
  destruct (overlap_step_total i chunks Htotal) as [chunks' ->]. simpl. apply IH.
Qed.

(** C6, as the code has it. For a positive overlap budget, [_apply_overlap]
    returns whenever the tokenizer does not raise; it keeps the number of
    units and leaves the first unit alone; every
    later unit gets in front of its text, followed by a blank line, the
    overlap text drawn from the text of the unit before it as that unit
    stands after its own stitching: the whole of that text when it fits
    the budget, otherwise its decoded last [chunk_overlap] tokens, as they
    are when they hold no sentence terminator and else cut before the last
    incomplete sentence with the sentences joined again by a full stop and
    a space. Its [token_count] is the token length of the new text; a unit
    whose overlap text is empty is left alone. *)
Theorem C6_overlap_stitching chunks :
  0 < chunk_overlap ->
  (total_tokenizer encode ->
   exists out, _apply_overlap encode decode chunk_overlap chunks = Ok out) /\
  forall out,
    _apply_overlap encode decode chunk_overlap chunks = Ok out ->
    length out = length chunks /\
    out !! 0%nat = chunks !! 0%nat /\
    forall i prev orig cur,
      out !! i = Some prev -> chunks !! S i = Some orig -> out !! S i = Some cur ->
      exists overlap_text,
        overlap_of encode decode chunk_overlap (text prev) overlap_text /\
        ((overlap_text = "" /\ cur = orig) \/
         (overlap_text <> "" /\ exists n,
            count (overlap_text +:+ nl +:+ nl +:+ text orig) = Ok n /\
            cur = set_text orig (overlap_text +:+ nl +:+ nl +:+ text orig) n)).
Proof.
  intros Hov. split; [apply apply_overlap_total|]. intros out Hrun.
  destruct (apply_overlap_shape chunks out Hrun) as (Hlen & Hfirst & Hpairs).
  split_and!; [done|done|].
  intros i prev orig cur Hprev Horig Hcur.
  destruct (Hpairs i prev orig cur Hprev Horig Hcur) as (ov & Hget & Hcase).
  exists ov. split; [by apply get_overlap_text_spec|done].
Qed.

(** *** The token budget *)

Local Abbreviation flushable := (flushable_buffer encode chunk_size).

Lemma split_large_loop_spec all paragraphs current chunks out :
  split_large_loop encode chunk_size paragraphs current chunks = Ok out ->
  incl paragraphs all ->
  current = "" \/ flushable all current ->
  Forall (fun t => exists b, t = strip b /\ flushable all b) chunks ->
  Forall (fun t => exists b, t = strip b /\ flushable all b) out.
Proof.
  revert current chunks.
  induction paragraphs as [|p rest IH]; intros current chunks Hrun Hincl Hcur Hchunks.
  - simpl in Hrun. destruct (nonempty (strip current)) eqn:Hne;
      inversion Hrun; subst out; [|done].
    apply Forall_app. split; [done|]. constructor; [|constructor].
    exists current. split; [done|]. by destruct Hcur as [->|].
  - simpl in Hrun.
    assert (incl rest all) as Hrest by (intros x Hx; apply Hincl; by right).
    assert (In p all) as Hp by (apply Hincl; by left).
    destruct (nonempty (strip p)); simpl in Hrun; [|by eapply IH].
    destruct (count _) as [n|] eqn:Hn; simpl in Hrun; [|done].
    destruct (Z.ltb_spec chunk_size n) as [Hbig|Hfit]; simpl in Hrun.
    + destruct current as [|c current]; simpl in Hrun.
      * eapply IH; [done|done| |done]. right. by left.
      * eapply IH; [done|done|right; by left|].
        apply Forall_app. split; [done|]. constructor; [|constructor].
        eexists. split; [done|]. by destruct Hcur as [|].
    + eapply IH; [done|done| |done]. right. right. by exists n.
Qed.

Lemma create_chunk_data_spec t metadata page_num page_type hs sid u :
  _create_chunk_data encode t metadata page_num page_type hs sid = Ok u ->
  text u = t /\ count t = Ok (token_count u).
Proof.
  unfold _create_chunk_data. destruct (count t) as [n|]; simpl; [|done].
  by intros [= <-].
Qed.

Lemma sub_chunks_loop_spec metadata page_num page_type hs i j sub_chunks units :
  sub_chunks_loop encode metadata page_num page_type hs i j sub_chunks = Ok units ->
  Forall2 (fun t u => text u = t /\ count t = Ok (token_count u)) sub_chunks units.
Proof.
  revert j units. induction sub_chunks as [|t rest IH]; intros j units; simpl.
  - intros [= <-]. constructor.
  - destruct (_create_chunk_data _ _ _ _ _ _ _) as [u|] eqn:Hu; simpl; [|done].
    destruct (sub_chunks_loop _ _ _ _ _ _ _ rest) as [more|] eqn:Hmore; simpl; [|done].
    intros [= <-]. constructor; [by eapply create_chunk_data_spec|by eapply IH].
Qed.

Lemma sections_loop_spec all metadata page_num page_type i sections units :
  sections_loop encode chunk_size metadata page_num page_type i sections = Ok units ->
  incl sections all ->
  Forall (fun u => count (text u) = Ok (token_count u)
                   /\ unit_origin encode chunk_size all u) units.
Proof.
  revert i units. induction sections as [|section rest IH]; intros i units Hrun Hincl.
  - simpl in Hrun. inversion Hrun. constructor.
  - simpl in Hrun.
    assert (incl rest all) as Hrest by (intros x Hx; apply Hincl; by right).
    assert (In section all) as Hsec by (apply Hincl; by left).
    destruct (nonempty (strip (s_text section))); simpl in Hrun; [|by eapply IH].
    destruct (count (s_text section)) as [n|] eqn:Hn; simpl in Hrun; [|done].
    destruct (Z.ltb_spec chunk_size n) as [Hbig|Hfit].
    + destruct (_split_large_section _ _ _ _) as [subs|] eqn:Hsubs; simpl in Hrun; [|done].
      destruct (sub_chunks_loop _ _ _ _ _ _ _ _) as [here|] eqn:Hhere; simpl in Hrun; [|done].
      destruct (sections_loop _ _ _ _ _ _ rest) as [more|] eqn:Hmore; simpl in Hrun; [|done].
      inversion Hrun; subst units. apply Forall_app. split; [|by eapply IH].
      apply sub_chunks_loop_spec in Hhere.
      unfold _split_large_section in Hsubs.
      eapply (split_large_loop_spec (split (nl +:+ nl) (s_text section))) in Hsubs;
        [|by intros x Hx|by left|constructor].
      clear -Hhere Hsubs Hsec.
      induction Hhere as [|t u subs here [Ht Hc] _ IHh]; [constructor|].
      apply Forall_cons in Hsubs as [(b & Hb & Hflush) Hsubs].
      constructor; [|by apply IHh]. split; [by rewrite Ht|].
      right. destruct Hflush as [Hin|(m & Hm & Hle)].
      * right. exists section, b. split_and!; [done|done|congruence].
      * left. exists b, m. split_and!; [congruence|done|done].
    + destruct (_create_chunk_data _ _ _ _ _ _ _) as [u|] eqn:Hu; simpl in Hrun; [|done].
      destruct (sections_loop _ _ _ _ _ _ rest) as [more|] eqn:Hmore; simpl in Hrun; [|done].
      inversion Hrun; subst units. constructor; [|by eapply IH].
      apply create_chunk_data_spec in Hu as [Ht Hc].
      split; [by rewrite Ht|]. left. split; [|by exists section].
      rewrite Hn in Hc. inversion Hc. lia.
Qed.

Lemma apply_overlap_counts chunks out :
  _apply_overlap encode decode chunk_overlap chunks = Ok out ->
  Forall (fun u => count (text u) = Ok (token_count u)) chunks ->
  Forall (fun u => count (text u) = Ok (token_count u)) out.
Proof.
  intros Hrun Hchunks.
  destruct (apply_overlap_shape chunks out Hrun) as (Hlen & Hfirst & Hpairs).
  rewrite Forall_lookup in Hchunks |- *. intros k cur Hcur.
  destruct k as [|i].
  - rewrite Hfirst in Hcur. by eapply Hchunks.
  - assert (is_Some (out !! i)) as [prev Hprev]
      by (apply lookup_lt_is_Some; apply lookup_lt_Some in Hcur; lia).
    assert (is_Some (chunks !! S i)) as [orig Horig]
      by (apply lookup_lt_is_Some; apply lookup_lt_Some in Hcur; lia).
    destruct (Hpairs i prev orig cur Hprev Horig Hcur)
      as (ov & _ & [[_ ->]|(_ & n & Hn & ->)]).
    + by eapply Hchunks.
    + done.
Qed.

(** With a tokenizer that never raises the units are produced. *)
Lemma split_large_loop_total paragraphs current chunks :
  total_tokenizer encode ->
  exists out, split_large_loop encode chunk_size paragraphs current chunks = Ok out.
Proof.
  intros Htotal. revert current chunks.
  induction paragraphs as [|p rest IH]; intros current chunks; simpl; [by eexists|].
  destruct (nonempty (strip p)); simpl; [|apply IH].
  match goal with |- context [count ?t] => destruct (count_total t Htotal) as [n ->] end.
  simpl. destruct ((chunk_size <? n) && nonempty current); apply IH.
Qed.

Lemma create_chunk_data_total t metadata page_num page_type hs sid :
  total_tokenizer encode ->
  exists u, _create_chunk_data encode t metadata page_num page_type hs sid = Ok u.
Proof.
  intros Htotal. unfold _create_chunk_data.
  destruct (count_total t Htotal) as [n ->]. by eexists.
Qed.

Lemma sub_chunks_loop_total metadata page_num page_type hs i j sub_chunks :
  total_tokenizer encode ->
  exists units,
    sub_chunks_loop encode metadata page_num page_type hs i j sub_chunks = Ok units.
Proof.
  intros Htotal. revert j. induction sub_chunks as [|t rest IH]; intros j; simpl;
    [by eexists|].
  destruct (create_chunk_data_total t metadata page_num page_type hs
              (of_Z i +:+ "_" +:+ of_Z j) Htotal) as [u ->]. simpl.
  destruct (IH (j + 1)) as [more ->]. by eexists.
Qed.

Lemma sections_loop_total metadata page_num page_type i sections :
  total_tokenizer encode ->
  exists units,
    sections_loop encode chunk_size metadata page_num page_type i sections = Ok units.
Proof.
  intros Htotal. revert i. induction sections as [|section rest IH]; intros i; simpl;
    [by eexists|].
  destruct (nonempty (strip (s_text section))); simpl; [|apply IH].
  destruct (count_total (s_text section) Htotal) as [n ->]. simpl.
  destruct (IH (i + 1)) as [more Hmore].
  destruct (chunk_size <? n).
  - unfold _split_large_section.
    destruct (split_large_loop_total (split (nl +:+ nl) (s_text section)) "" [] Htotal)
      as [subs ->]. simpl.
    destruct (sub_chunks_loop_total metadata page_num page_type (s_headings section)
                i 0 subs Htotal) as [here ->]. simpl.
    rewrite Hmore. by eexists.
  - destruct (create_chunk_data_total (s_text section) metadata page_num page_type
                (s_headings section) (of_Z i) Htotal) as [u ->]. simpl.
    rewrite Hmore. by eexists.
Qed.

(** C5, as the code has it. The units are produced whenever the tokenizer
    does not raise. Before overlap is applied every unit records
    the token length of its text, and it is either a whole section of at
    most [chunk_size] tokens, or the stripped text of a buffer of
    paragraphs that measured at most [chunk_size] tokens, or the stripped
    text of a single paragraph, emitted whole whatever its length. After
    overlap is applied every unit again records the token length of its
    text, which is then the overlap text, a blank line and its own text;
    the code puts no bound on that length. *)
Theorem C5_token_budget text metadata page_num page_type :
  (total_tokenizer encode ->
   exists units,
     sections_loop encode chunk_size metadata page_num page_type 0
       (_split_by_headings text) = Ok units) /\
  forall units,
    sections_loop encode chunk_size metadata page_num page_type 0
      (_split_by_headings text) = Ok units ->
    Forall (fun u => count (Chunking.text u) = Ok (token_count u)
                     /\ unit_origin encode chunk_size (_split_by_headings text) u) units
    /\ forall out,
         _apply_overlap encode decode chunk_overlap units = Ok out ->
         Forall (fun u => count (Chunking.text u) = Ok (token_count u)) out.
Proof.
  split; [apply sections_loop_total|]. intros units Hrun.
  pose proof (sections_loop_spec (_split_by_headings text) _ _ _ _ _ _ Hrun
                (fun x Hx => Hx)) as Hunits.
  split; [done|]. intros out Hout.
  eapply apply_overlap_counts; [done|].
  eapply Forall_impl; [done|]. by intros u [Hu _].
Qed.

(** With a tokenizer that never raises, [chunk_text] returns the units of
    the semantic processing. *)
Lemma chunk_by_semantic_boundaries_total text metadata page_num page_type :
  total_tokenizer encode ->
  exists units,
    _chunk_by_semantic_boundaries encode decode chunk_size chunk_overlap
      text metadata page_num page_type = Ok units.
Proof.
  intros Htotal. unfold _chunk_by_semantic_boundaries.
  destruct (sections_loop_total metadata page_num page_type 0
              (_split_by_headings text) Htotal) as [chunks ->]. simpl.
  by apply apply_overlap_total.
Qed.

Lemma chunk_text_total text metadata :
  total_tokenizer encode ->
  exists units,
    chunk_text encode decode chunk_size chunk_overlap text metadata = Ok units /\
    semantic_body encode decode chunk_size chunk_overlap text metadata = Ok units.
Proof.
  intros Htotal. unfold chunk_text.
  assert (exists units,
            semantic_body encode decode chunk_size chunk_overlap text metadata = Ok units)
    as [units Hunits]; [|exists units; by rewrite Hunits].
  unfold semantic_body. destruct (md_page_content metadata) as [|page pages] eqn:Hpages;
    [by apply chunk_by_semantic_boundaries_total|].
  generalize (page :: pages). intros page_content.
  induction page_content as [|page_data rest [more IH]]; simpl; [by eexists|].
  destruct (nonempty (strip (get_default (pd_text page_data) ""))); simpl;
    [|by eexists].
  destruct (chunk_by_semantic_boundaries_total (get_default (pd_text page_data) "")
              metadata (Some (get_default (pd_page page_data) 1))
              (get_default (pd_type page_data) "text") Htotal) as [here ->]. simpl.
  rewrite IH. by eexists.
Qed.

(** An error of the fallback is not caught. *)
Lemma fallback_error_propagates text metadata e e' :
  semantic_body encode decode chunk_size chunk_overlap text metadata = Raise e ->
  is_Exception e = true ->
  _simple_chunk encode decode chunk_size chunk_overlap text metadata = Raise e' ->
  chunk_text encode decode chunk_size chunk_overlap text metadata = Raise e'.
Proof. intros Hsem He Hfall. unfold chunk_text. rewrite Hsem. simpl. by rewrite He. Qed.

(** The fallback keeps to the budget: a window holds at most [chunk_size]
    tokens. *)
Lemma simple_chunk_within_budget text metadata units :
  0 < chunk_size -> chunk_overlap < chunk_size ->
  _simple_chunk encode decode chunk_size chunk_overlap text metadata = Ok units ->
  Forall (fun u => token_count u <= chunk_size) units.
Proof.
  intros Hsize Hov Hrun.
  destruct (encode text) as [tokens|e] eqn:Henc;
    [|by unfold _simple_chunk in Hrun; rewrite Henc in Hrun].
  destruct (simple_chunk_windows text metadata tokens Henc Hsize Hov)
    as (units' & Hrun' & Hcontent).
  rewrite Hrun in Hrun'. inversion Hrun'; subst units'. clear Hrun Hrun'.
  unfold fixed_windows in Hcontent.
  revert Hcontent. generalize (seq 0 (window_count (chunk_size - chunk_overlap) (len tokens))).
  intros ks. revert ks. induction units as [|u units IH]; intros ks Hc; [constructor|].
  destruct ks as [|k ks]; [done|]. simpl in Hc. unfold content at 1 in Hc.
  injection Hc as Ht Hh Hn Hrest.
  constructor; [|by eapply IH].
  rewrite Hn. unfold window, len. rewrite length_firstn. lia.
Qed.

End chunker_properties.

(** *** The chunker on sample inputs *)

Section chunker_samples.

Import Str Chunking ChunkingSpec.

Lemma plain_encode_total : total_tokenizer plain_encode.
Proof. intros s. by eexists. Qed.

Lemma list_ascii_app (a b : string) :
  list_ascii_of_string (a +:+ b) = list_ascii_of_string a ++ list_ascii_of_string b.
Proof. induction a as [|c a IH]; unfold_append; simpl; [done|]. by rewrite IH. Qed.

Lemma stitched_with_suffix_complete prev orig cur :
  (exists p, is_suffix p prev /\ cur = p +:+ nl +:+ nl +:+ orig) ->
  stitched_with_suffix prev orig cur = true.
Proof.
  intros (p & [q Hq] & Hcur). unfold stitched_with_suffix.
  rewrite Hcur, Hq. rewrite (list_ascii_app p), (list_ascii_app q).
  set (lp := list_ascii_of_string p). set (lq := list_ascii_of_string q).
  set (le := list_ascii_of_string (nl +:+ nl +:+ orig)).
  rewrite !length_app.
  replace (length lp + length le - length le)%nat with (length lp) by lia.
  replace (length lq + length lp - length lp)%nat with (length lq) by lia.
  rewrite take_app_length, drop_app_length.
  apply andb_true_iff. split; by apply bool_decide_eq_true.
Qed.

(** C5 fails twice with the default budgets of 800 and 150 tokens. A
    section that is one paragraph of 900 words is emitted whole, as a unit
    of more than 800 tokens before any overlap. And a unit of exactly 800
    tokens that receives 150 tokens of overlap and the blank line counts
    more than 950 tokens. *)
Lemma C5_budget_exceeded :
  (exists u,
     sections_loop byte_encode 800 doc_7 None "text" 0
       (_split_by_headings long_paragraph) = Ok [u] /\
     token_count u = 4499 /\ 800 < token_count u) /\
  (exists first u u',
     sections_loop byte_encode 800 doc_7 None "text" 0
       (_split_by_headings tight_sections) = Ok [first; u] /\
     _apply_overlap byte_encode byte_decode 150 [first; u] = Ok [first; u'] /\
     token_count u = 800 /\
     token_count u' = 952 /\ 800 + 150 < token_count u').
Proof.
  split.
  - eexists. split; [vm_compute; reflexivity|]. split; [reflexivity|reflexivity].
  - eexists _, _, _. split; [vm_compute; reflexivity|].
    split; [vm_compute; reflexivity|]. split; [reflexivity|].
    split; reflexivity.
Qed.

(** The budget theorem at two short sections. *)
Lemma C5_token_budget_witness :
  (total_tokenizer byte_encode ->
   exists units,
     sections_loop byte_encode 800 doc_7 None "text" 0
       (_split_by_headings short_sections) = Ok units) /\
  forall units,
    sections_loop byte_encode 800 doc_7 None "text" 0
      (_split_by_headings short_sections) = Ok units ->
    Forall (fun u => count_tokens byte_encode (text u) = Ok (token_count u)
                     /\ unit_origin byte_encode 800 (_split_by_headings short_sections) u)
      units
    /\ forall out,
         _apply_overlap byte_encode byte_decode 150 units = Ok out ->
         Forall (fun u => count_tokens byte_encode (text u) = Ok (token_count u)) out.
Proof.
  apply (C5_token_budget byte_encode byte_decode 800 150 short_sections doc_7 None "text").
Defined.

Example short_units_produced :
  sections_loop byte_encode 800 doc_7 None "text" 0 (_split_by_headings short_sections)
  = Ok short_units_before
  /\ _apply_overlap byte_encode byte_decode 150 short_units_before = Ok short_units_after.
Proof. split; vm_compute; reflexivity. Qed.

(** C6 fails with the default budgets: the first section holds sixty
    sentences, the overlap text taken from it is cut before its last
    sentence and its sentences are joined again with two spaces where the
    text had one, so what is put in front of the second unit is not a
    trailing part of the first unit's text. *)
Lemma C6_prefix_is_not_a_suffix :
  exists prev orig cur,
    sections_loop byte_encode 800 doc_7 None "text" 0
      (_split_by_headings two_sections) = Ok [prev; orig] /\
    chunk_text byte_encode byte_decode 800 150 two_sections doc_7 = Ok [prev; cur] /\
    Str.take 40 (text cur) = "delta.  Alpha beta gamma delta.  Alpha b" /\
    ~ exists p, is_suffix p (text prev) /\ text cur = p +:+ nl +:+ nl +:+ text orig.
Proof.
  eexists _, _, _. split; [vm_compute; reflexivity|].
  split; [vm_compute; reflexivity|]. split; [vm_compute; reflexivity|].
  intros H. apply stitched_with_suffix_complete in H.
  revert H. vm_compute. discriminate.
Qed.

(** The stitching theorem at two short sections. *)
Lemma C6_overlap_stitching_witness :
  (total_tokenizer byte_encode ->
   exists out, _apply_overlap byte_encode byte_decode 150 short_units_before = Ok out) /\
  forall out,
    _apply_overlap byte_encode byte_decode 150 short_units_before = Ok out ->
    length out = length short_units_before /\
    out !! 0%nat = short_units_before !! 0%nat /\
    forall i prev orig cur,
      out !! i = Some prev ->
      short_units_before !! S i = Some orig ->
      out !! S i = Some cur ->
      exists overlap_text,
        overlap_of byte_encode byte_decode 150 (text prev) overlap_text /\
        ((overlap_text = "" /\ cur = orig) \/
         (overlap_text <> "" /\ exists n,
            count_tokens byte_encode (overlap_text +:+ nl +:+ nl +:+ text orig) = Ok n /\
            cur = set_text orig (overlap_text +:+ nl +:+ nl +:+ text orig) n)).
Proof.
  apply (C6_overlap_stitching byte_encode byte_decode 150 short_units_before).
  lia.
Defined.

Example short_units_stitched :
  map text short_units_after
  = [ "# Alpha" +:+ nl +:+ "First part. It ends here" +:+ nl;
      "# Alpha" +:+ nl +:+ "First part. It ends here" +:+ nl +:+ nl +:+ nl
      +:+ "# Beta" +:+ nl +:+ "Second part." +:+ nl ].
Proof. vm_compute. reflexivity. Qed.

(** C7 fails on a text that holds a special token of the tokenizer: the
    semantic processing raises on it, and so does the fallback, whose
    error leaves [chunk_text]. *)
Lemma C7_special_token_raises :
  exists e,
    semantic_body byte_encode byte_decode 800 150 "<|endoftext|>" doc_7 = Raise e /\
    chunk_text byte_encode byte_decode 800 150 "<|endoftext|>" doc_7 = Raise e /\
    is_Exception e = true.
Proof. eexists. split; [vm_compute; reflexivity|]. split; reflexivity. Qed.

(** The same happens without any tokenizer error in the fallback when the
    stride is zero. *)
Example zero_stride_raises :
  chunk_text byte_encode byte_decode 150 150 "plain text" special_page
  = Raise (Exn ValueError "range() arg 3 must not be zero").
Proof. vm_compute. reflexivity. Qed.

(** The fallback theorem at a document whose page cannot be tokenized and
    whose raw text can: the ten tokens of the raw text come back as
    windows of four tokens taken every three tokens. *)
Lemma C7_chunk_text_fallback_witness :
  returns (chunk_text byte_encode byte_decode 4 1 "abcdefghij" special_page)
    (fun units =>
       semantic_body byte_encode byte_decode 4 1 "abcdefghij" special_page = Ok units
       \/ (is_Ok (semantic_body byte_encode byte_decode 4 1 "abcdefghij" special_page) = false
           /\ _simple_chunk byte_encode byte_decode 4 1 "abcdefghij" special_page = Ok units
           /\ map content units
              = fixed_windows byte_decode 4 (4 - 1) [97; 98; 99; 100; 101; 102; 103; 104; 105; 106])).
Proof.
  apply (C7_chunk_text_fallback byte_encode byte_decode 4 1 "abcdefghij" special_page
           [97; 98; 99; 100; 101; 102; 103; 104; 105; 106]).
  - reflexivity.
  - lia.
  - lia.
Defined.

Example fallback_windows :
  exists units,
    chunk_text byte_encode byte_decode 4 1 "abcdefghij" special_page = Ok units /\
    map content units = [("abcd", [], 4); ("defg", [], 4); ("ghij", [], 4); ("j", [], 1)].
Proof. eexists. split; vm_compute; reflexivity. Qed.

End chunker_samples.

(** * Further properties of the code *)

(** ** The vector index: filter, provenance, growth *)

Section index_extras.

Import Index IndexSpec.

Variable normalize_L2 : list (list Q) -> Py.result (list (list Q)).
Variable index_search :
  IndexFlatIP -> list (list Q) -> Z -> Py.result (list Q * list Z).
Variable qdrant_search :
  string -> list Q -> Z -> option (list Z) -> Py.result (list ScoredPoint).
Variable io_error : string -> option exn.

Local Abbreviation local_search := (FAISSIndex_search normalize_L2 index_search).
Local Abbreviation search := (VectorIndex_search normalize_L2 index_search qdrant_search).

Lemma getitem_In {A} (l : list A) (i : Z) (a : A) : getitem l i = Ok a -> In a l.
Proof.
  unfold getitem. destruct (_ || _); [done|].
  destruct (nth_error _ _) eqn:E; [|done].
  intros [= <-]. by eapply nth_error_In.
Qed.

(** What the loop of [search] keeps: every hit is an entry of the
    metadata list with a score, and passes the filter. *)
Lemma search_loop_hits (P : Hit -> Prop) self top_k filt cands results seen hits :
  search_loop self top_k filt cands results seen = Ok hits ->
  (forall md score,
     In md (metadata self) ->
     (truthy filt = true -> doc_in (m_document_id md) (get_default filt []) = true) ->
     P (mk_hit md score)) ->
  Forall P results -> Forall P hits.
Proof.
  intros Hrun HP. revert results seen Hrun.
  induction cands as [|[score idx] rest IH]; intros results seen Hrun Hres; simpl in Hrun.
  - by injection Hrun as <-.
  - destruct (len (metadata self) <=? idx); [by eapply IH|].
    destruct (getitem (metadata self) idx) as [md|e] eqn:Hget; simpl in Hrun; [|done].
    destruct (truthy filt && negb (doc_in (m_document_id md) (get_default filt [])))
      eqn:Hfilter; [by eapply IH|].
    destruct (decide (m_document_id md ∈ seen)); [by eapply IH|].
    assert (Forall P (results ++ [mk_hit md score])) as Hres'.
    { apply Forall_app. split; [done|]. constructor; [|constructor].
      apply HP; [by eapply getitem_In|].
      intros Ht. rewrite Ht in Hfilter. simpl in Hfilter.
      by destruct (doc_in _ _). }
    destruct (top_k <=? len (results ++ [mk_hit md score])).
    + by injection Hrun as <-.
    + by eapply IH.
Qed.

Lemma local_search_hits (P : Hit -> Prop) self q top_k filt hits :
  local_search self q top_k filt = Ok hits ->
  (forall md score,
     In md (metadata self) ->
     (truthy filt = true -> doc_in (m_document_id md) (get_default filt []) = true) ->
     P (mk_hit md score)) ->
  Forall P hits.
Proof.
  intros Hrun HP. unfold FAISSIndex_search, search_body in Hrun.
  destruct (the_index self) as [ix|e]; simpl in Hrun.
  2: { destruct (is_Exception e); [by injection Hrun as <-|done]. }
  destruct (ntotal ix =? 0); simpl in Hrun; [by injection Hrun as <-|].
  destruct (normalize_L2 _) as [qv|e]; simpl in Hrun.
  2: { destruct (is_Exception e); [by injection Hrun as <-|done]. }
  destruct (index_search _ _ _) as [found|e]; simpl in Hrun.
  2: { destruct (is_Exception e); [by injection Hrun as <-|done]. }
  destruct (search_loop _ _ _ _ _ _) as [hits'|e] eqn:Hloop; simpl in Hrun.
  2: { destruct (is_Exception e); [by injection Hrun as <-|done]. }
  injection Hrun as <-. by eapply search_loop_hits.
Qed.

(** Without Qdrant the search is the local search, cut at [top_k]. *)
Lemma search_without_qdrant self q top_k filt hits :
  search false self q top_k filt = Ok hits ->
  exists local, local_search self q top_k filt = Ok local /\
                (hits = local \/ hits = slice_to local top_k).
Proof.
  unfold VectorIndex_search. intros Hrun.
  destruct (FAISSIndex_search _ _ _ _ _ _) as [local|e]; simpl in Hrun; [|done].
  exists local. split; [done|].
  destruct (top_k <=? len local); injection Hrun as <-; auto.
Qed.

Lemma Forall_slice_to {A} (P : A -> Prop) (l : list A) (n : Z) :
  Forall P l -> Forall P (slice_to l n).
Proof. unfold slice_to. apply Forall_take. Qed.

Lemma doc_in_In doc ids :
  doc_in doc ids = true -> exists n, doc = Some n /\ In n ids.
Proof.
  destruct doc as [n|]; simpl; [|done].
  intros H. apply existsb_exists in H as (x & Hx & Heq).
  apply Z.eqb_eq in Heq as ->. eauto.
Qed.

(** X1: with a non-empty list of document ids as filter, every hit of the
    local search, and of the search without Qdrant, belongs to a
    document of the list. *)
Theorem X1_search_respects_filter self q top_k ids hits :
  ids <> [] ->
  FAISSIndex_search normalize_L2 index_search self q top_k (Some ids) = Ok hits
  \/ VectorIndex_search normalize_L2 index_search qdrant_search
       false self q top_k (Some ids) = Ok hits ->
  Forall (fun h => exists n, h_document_id h = Some n /\ In n ids) hits.
Proof.
  intros Hids Hrun.
  assert (forall local, local_search self q top_k (Some ids) = Ok local ->
            Forall (fun h => exists n, h_document_id h = Some n /\ In n ids) local)
    as Hlocal.
  { intros local Hl. eapply local_search_hits; [done|].
    intros md score _ Hf. simpl. apply doc_in_In. apply Hf.
    by destruct ids. }
  destruct Hrun as [Hrun|Hrun]; [by apply Hlocal|].
  apply search_without_qdrant in Hrun as (local & Hl & [->| ->]).
  - by apply Hlocal.
  - apply Forall_slice_to. by apply Hlocal.
Qed.

(** X2: every hit of the local search is an entry of the metadata list
    of the collection, with a score. *)
Theorem X2_search_hits_are_stored self q top_k filt hits :
  FAISSIndex_search normalize_L2 index_search self q top_k filt = Ok hits ->
  Forall (fun h => exists md score, In md (metadata self) /\ h = mk_hit md score) hits.
Proof.
  intros Hrun. eapply local_search_hits; [done|].
  intros md score Hin _. eauto.
Qed.


Lemma embeddings_of_length chunks rows :
  embeddings_of chunks = Ok rows -> length rows = length chunks.
Proof.
  revert rows. induction chunks as [|c chunks IH]; intros rows; simpl.
  - by intros [= <-].
  - destruct (c_embedding c); simpl; [|done].
    destruct (embeddings_of chunks); simpl; [|done].
    intros [= <-]. simpl. f_equal. by apply IH.
Qed.

Lemma index_add_rows ix rows ix' :
  index_add ix rows = Ok ix' -> d ix' = d ix /\ xb ix' = xb ix ++ rows.
Proof. unfold index_add. destruct (forallb _ _); [|done]. by intros [= <-]. Qed.

Lemma save_index_fields self :
  index (_save_index io_error self).1 = index self /\
  metadata (_save_index io_error self).1 = metadata self /\
  collection_name (_save_index io_error self).1 = collection_name self.
Proof. unfold _save_index. by destruct (save_body io_error self). Qed.

(** What a successful run of the in-memory part of [add_chunks] did. *)
Lemma add_in_memory_rows chunks self out :
  add_in_memory normalize_L2 chunks self = (out, Ok tt) ->
  exists ix rows rows' mds,
    index self = Some ix /\ embeddings_of chunks = Ok rows /\
    normalize_L2 rows = Ok rows' /\
    index out = Some {| d := d ix; xb := xb ix ++ rows' |} /\
    metadata out = metadata self ++ mds /\
    Forall2 (fun c md => meta_of c = Ok md) chunks mds /\
    disk out = disk self.
Proof.
  unfold add_in_memory. intros Hrun.
  destruct (embeddings_of chunks) as [rows|e] eqn:Hrows; [|done].
  destruct (normalize_L2 rows) as [rows'|e] eqn:Hnorm; [|done].
  unfold the_index in Hrun.
  destruct (index self) as [ix|] eqn:Hix; simpl in Hrun; [|done].
  destruct (index_add ix rows') as [ix'|e] eqn:Hadd; [|done].
  pose proof (append_metadata_spec chunks (set_index self (Some ix'))) as Hspec.
  rewrite Hrun in Hspec. simpl in Hspec.
  destruct Hspec as (_ & Hindex & Hdisk & Hmeta).
  destruct (Hmeta eq_refl) as (mds & Hall & Hmd).
  exists ix, rows, rows', mds. split_and!; try done.
  rewrite Hindex. apply index_add_rows in Hadd as [Hd Hxb].
  destruct ix' as [d' xb']. simpl in *. by subst.
Qed.

(** X3: when [add_chunks] succeeds on a collection whose index rows and
    metadata entries go by pairs, they still do afterwards, and the
    collection has grown by the number of units given. *)
Theorem X3_add_chunks_keeps_alignment chunks self :
  keeps_rows normalize_L2 -> aligned self ->
  (add_chunks normalize_L2 io_error chunks self).2 = Ok tt ->
  aligned (add_chunks normalize_L2 io_error chunks self).1 /\
  len (metadata (add_chunks normalize_L2 io_error chunks self).1)
  = len (metadata self) + len chunks.
Proof.
  intros Hnorm (ix0 & Hix0 & Hn0) Hok.
  unfold add_chunks in *. destruct chunks as [|c chunks].
  { simpl. split; [by exists ix0|]. unfold len. simpl. lia. }
  destruct (add_in_memory normalize_L2 (c :: chunks) self) as [mem r] eqn:Hmem.
  destruct r as [[]|e]; [|done].
  apply add_in_memory_rows in Hmem
    as (ix & rows & rows' & mds & Hix & Hrows & Hrows' & Hindex & Hmeta & Hall & _).
  destruct (save_index_fields mem) as (Hsi & Hsm & _).
  assert (ix = ix0) as -> by congruence.
  apply embeddings_of_length in Hrows. apply Hnorm in Hrows'.
  apply Forall2_length in Hall.
  split.
  - eexists. split; [by rewrite Hsi, Hindex|].
    rewrite Hsm, Hmeta. unfold ntotal in *. simpl.
    rewrite !len_app, Hn0. unfold len. lia.
  - rewrite Hsm, Hmeta, len_app. unfold len. lia.
Qed.

Lemma append_metadata_stops chunks self :
  Exists (fun c => is_Ok (meta_of c) = false) chunks ->
  exists e done,
    (append_metadata chunks self).2 = Raise e /\ exn_cls e = KeyError /\
    metadata (append_metadata chunks self).1 = metadata self ++ done /\
    (length done < length chunks)%nat /\
    index (append_metadata chunks self).1 = index self /\
    disk (append_metadata chunks self).1 = disk self.
Proof.
  revert self. induction chunks as [|c chunks IH]; intros self Hex.
  { by apply Exists_nil in Hex. }
  simpl. destruct (meta_of c) as [md|e] eqn:Hmd.
  - apply Exists_cons in Hex as [Hex|Hex]; [by rewrite Hmd in Hex|].
    destruct (IH (set_metadata self (metadata self ++ [md])) Hex)
      as (e & done & Hr & Hcls & Hm & Hlen & Hi & Hd).
    exists e, (md :: done). split_and!; try done.
    + rewrite Hm. simpl. by rewrite <- app_assoc.
    + simpl. lia.
  - exists e, []. simpl. split_and!; try done.
    + unfold meta_of, getitem_key in Hmd.
      destruct (c_chunk_id c); simpl in Hmd; [|by injection Hmd as <-].
      destruct (c_text c); simpl in Hmd; [|by injection Hmd as <-].
      destruct (c_location c); simpl in Hmd; [|by injection Hmd as <-].
      done.
    + by rewrite app_nil_r.
    + lia.
Qed.

(** X4: [add_chunks] is not atomic. When the rows have gone into the
    index and a unit then lacks a key that the metadata loop reads, the
    call raises [KeyError]; the index keeps every new row, the metadata
    list has grown by fewer entries than units were given, and nothing
    is saved. *)
Theorem X4_add_chunks_not_atomic chunks self ix rows rows' ix' :
  index self = Some ix ->
  embeddings_of chunks = Ok rows ->
  normalize_L2 rows = Ok rows' ->
  index_add ix rows' = Ok ix' ->
  Exists (fun c => is_Ok (meta_of c) = false) chunks ->
  let out := add_chunks normalize_L2 io_error chunks self in
  (exists e, out.2 = Raise e /\ exn_cls e = KeyError) /\
  index out.1 = Some ix' /\
  (exists done, metadata out.1 = metadata self ++ done
                /\ (length done < length chunks)%nat) /\
  disk out.1 = disk self.
Proof.
  intros Hix Hrows Hrows' Hadd Hex out. subst out.
  unfold add_chunks. destruct chunks as [|c chunks]; [by apply Exists_nil in Hex|].
  assert (add_in_memory normalize_L2 (c :: chunks) self
          = append_metadata (c :: chunks) (set_index self (Some ix'))) as ->.
  { unfold add_in_memory. rewrite Hrows, Hrows'. unfold the_index. rewrite Hix.
    cbn [bind]. by rewrite Hadd. }
  destruct (append_metadata_stops (c :: chunks) (set_index self (Some ix')) Hex)
    as (e & done & Hr & Hcls & Hm & Hlen & Hi & Hd).
  destruct (append_metadata (c :: chunks) (set_index self (Some ix'))) as [mem r].
  simpl in *. subst r. simpl. split_and!; [by exists e|done|by exists done|done].
Qed.


Lemma NoDup_all_None {A} (l : list (option A)) :
  NoDup l -> Forall (fun x => x = None) l -> (length l <= 1)%nat.
Proof.
  intros Hnd Hall. destruct l as [|x [|y l]]; simpl; [lia..|].
  apply Forall_cons in Hall as [-> Hall]. apply Forall_cons in Hall as [-> _].
  apply NoDup_cons in Hnd as [Hnd _]. exfalso. apply Hnd. by left.
Qed.

(** A collection without document ids answers with one hit at most, and
    with none under a filter. *)
Lemma no_document_ids_search self q top_k filt hits :
  no_document_ids self ->
  local_search self q top_k filt = Ok hits ->
  (length hits <= 1)%nat /\ (truthy filt = true -> hits = []).
Proof.
  intros Hnone Hrun.
  assert (Forall (fun h => h_document_id h = None /\ truthy filt = false) hits) as Hall.
  { eapply local_search_hits; [done|].
    intros md score Hin Hf. simpl.
    unfold no_document_ids in Hnone. rewrite Forall_forall in Hnone.
    apply list_elem_of_In in Hin. rewrite (Hnone md Hin) in *.
    split; [done|]. destruct (truthy filt); [|done]. by specialize (Hf eq_refl). }
  split.
  - apply local_search_Ok in Hrun.
    rewrite <- (length_map h_document_id). apply NoDup_all_None; [done|].
    apply Forall_map. eapply Forall_impl; [done|]. by intros h [? _].
  - intros Ht. destruct hits as [|h hits]; [done|].
    apply Forall_cons in Hall as [[_ Hf] _]. congruence.
Qed.

(** X8: a collection in which no unit records a document answers every
    local search with one hit at most, and a search filtered by document
    with none. *)
Theorem X8_search_without_document_ids self q top_k filt hits :
  no_document_ids self ->
  FAISSIndex_search normalize_L2 index_search self q top_k filt = Ok hits ->
  (length hits <= 1)%nat /\ (truthy filt = true -> hits = []).
Proof. apply no_document_ids_search. Qed.

End index_extras.

Section ingest_extras.

Import Index IndexSpec Chunking Embed.

Variable normalize_L2 : list (list Q) -> Py.result (list (list Q)).
Variable index_search :
  IndexFlatIP -> list (list Q) -> Z -> Py.result (list Q * list Z).
Variable io_error : string -> option exn.
Variable embed_texts : list string -> Py.result (list (list Q)).

Lemma stored_units units embeddings mds :
  Forall2 (fun c md => meta_of c = Ok md) (map as_chunk (attach units embeddings)) mds ->
  Forall2 (fun u md => md = stored_unit u) units mds.
Proof.
  revert embeddings mds. induction units as [|u units IH]; intros embeddings mds H.
  - simpl in H. apply Forall2_nil_inv_l in H as ->. constructor.
  - destruct embeddings as [|e embeddings]; simpl in H;
      apply Forall2_cons_inv_l in H as (md & mds' & Hmd & Hall & ->);
      (constructor; [by injection Hmd as <-|by eapply IH]).
Qed.

(** X9: the units of the chunker, once embedded and added to a
    collection, are stored with the id, text, location and headings the
    chunker gave them and with no document id. *)
Theorem X9_ingested_units_record_no_document units embedded self :
  embed_chunks embed_texts units = Ok embedded ->
  (add_chunks normalize_L2 io_error (map as_chunk embedded) self).2 = Ok tt ->
  let out := (add_chunks normalize_L2 io_error (map as_chunk embedded) self).1 in
  metadata out = metadata self ++ map stored_unit units /\
  (no_document_ids self -> no_document_ids out) /\
  (no_document_ids self ->
   forall q top_k filt hits,
     FAISSIndex_search normalize_L2 index_search out q top_k filt = Ok hits ->
     (length hits <= 1)%nat).
Proof.
  intros Hembed Hok out.
  assert (metadata out = metadata self ++ map stored_unit units) as Hmeta.
  { subst out. unfold embed_chunks in Hembed.
    destruct (embed_texts _) as [embeddings|e]; simpl in Hembed; [|done].
    injection Hembed as <-.
    unfold add_chunks in *.
    destruct (map as_chunk (attach units embeddings)) as [|c chunks] eqn:Hchunks.
    { destruct units as [|u units]; [by rewrite app_nil_r|].
      by destruct embeddings. }
    rewrite <- Hchunks in *. clear Hchunks.
    destruct (add_in_memory _ _ _) as [mem r] eqn:Hmem.
    destruct r as [[]|e]; [|done].
    apply add_in_memory_rows in Hmem
      as (ix & rows & rows' & mds & _ & _ & _ & _ & Hm & Hall & _).
    destruct (save_index_fields io_error mem) as (_ & -> & _).
    rewrite Hm. f_equal. apply stored_units in Hall.
    clear -Hall. induction Hall as [|u md units mds -> _ IH]; [done|].
    simpl. by rewrite IH. }
  assert (no_document_ids self -> no_document_ids out) as Hnone.
  { unfold no_document_ids. rewrite Hmeta. intros H.
    apply Forall_app. split; [done|]. apply Forall_map. by apply Forall_true. }
  split_and!; [done..|].
  intros Hself q top_k filt hits Hrun.
  by destruct (no_document_ids_search normalize_L2 index_search out q top_k filt hits
                 (Hnone Hself) Hrun) as [H _].
Qed.

End ingest_extras.

(** ** The vector index: files, deletion, dimension *)

Section storage_extras.

Import Index IndexSpec.

Variable normalize_L2 : list (list Q) -> Py.result (list (list Q)).
Variable index_search :
  IndexFlatIP -> list (list Q) -> Z -> Py.result (list Q * list Z).
Variable io_error : string -> option exn.
Variable read_error : string -> option exn.
Variable remove_error : string -> option exn.
Variable mkdir_error : option exn.
Variable qdrant_recreate : string -> Z -> Py.result unit.
Variable qdrant_upsert : string -> list PointStruct -> Py.result unit.
Variable qdrant_delete : string -> Py.result unit.

Local Abbreviation init := (FAISSIndex_init read_error mkdir_error).
Local Abbreviation get_collection :=
  (VectorIndexManager_get_collection read_error mkdir_error).

Lemma path_exists_Some path dk f : dk !! path = Some f -> path_exists path dk = true.
Proof. intros H. unfold path_exists. apply bool_decide_eq_true. by rewrite H. Qed.

Lemma path_exists_None path dk : dk !! path = None -> path_exists path dk = false.
Proof.
  intros H. unfold path_exists. apply bool_decide_eq_false. rewrite H.
  by intros [? ?].
Qed.

(** What the [try] block of [_load_or_create_index] leaves. *)
Lemma load_body_spec self :
  let out := load_body read_error self in
  collection_name out.1 = collection_name self /\ disk out.1 = disk self /\
  (out.2 = Ok tt ->
   (exists ix md,
      disk self !! index_path self = Some (IndexFile ix) /\
      disk self !! metadata_path self = Some (PickleFile md) /\
      index out.1 = Some ix /\ metadata out.1 = md)
   \/ out.1 = _create_new_index self) /\
  (forall e, out.2 = Raise e ->
     exists e', (read_error (index_path self) = Some e'
                 \/ read_error (metadata_path self) = Some e'
                 \/ is_Exception e' = true) /\ e = e').
Proof.
  unfold load_body.
  destruct (path_exists (index_path self) (disk self)
            && path_exists (metadata_path self) (disk self)).
  2: { simpl. split_and!; [done..|by right|done]. }
  unfold read_index, pickle_load.
  destruct (read_error (index_path self)) as [e1|] eqn:H1.
  { simpl. split_and!; [done..|]. intros e [= <-]. exists e1. auto. }
  destruct (disk self !! index_path self) as [[ix|md]|] eqn:Hi;
    try (simpl; split_and!; [done..|]; intros e [= <-]; eexists; split; [|done];
         by right; right).
  destruct (read_error (metadata_path self)) as [e2|] eqn:H2.
  { simpl. split_and!; [done..|]. intros e [= <-]. exists e2. auto. }
  destruct (disk self !! metadata_path self) as [[ix'|md]|] eqn:Hm;
    try (simpl; split_and!; [done..|]; intros e [= <-]; eexists; split; [|done];
         by right; right).
  simpl. split_and!; [done..| |done]. intros _. left. by exists ix, md.
Qed.

(** X5: a [FAISSIndex] object is made whenever the directory can be made
    and reading fails with ordinary errors only. It holds either the
    index and the metadata list of its two files, both read, or an
    empty index of dimension 384 with an empty metadata list; when both
    files can be read it holds their content. *)
Theorem X5_init_loads_both_or_starts_empty name dk :
  mkdir_error = None ->
  (forall path e, read_error path = Some e -> is_Exception e = true) ->
  exists c,
    init name dk = Ok c /\ collection_name c = name /\ disk c = dk /\
    ((exists ix md,
        dk !! index_path c = Some (IndexFile ix) /\
        dk !! metadata_path c = Some (PickleFile md) /\
        index c = Some ix /\ metadata c = md)
     \/ (index c = Some {| d := 384; xb := [] |} /\ metadata c = [])) /\
    (forall ix md,
       read_error (index_path c) = None -> read_error (metadata_path c) = None ->
       dk !! index_path c = Some (IndexFile ix) ->
       dk !! metadata_path c = Some (PickleFile md) ->
       index c = Some ix /\ metadata c = md).
Proof.
  intros Hmk Hread. unfold FAISSIndex_init, _load_or_create_index. rewrite Hmk.
  set (self := {| collection_name := name; index := None; metadata := []; disk := dk |}).
  pose proof (load_body_spec self) as (Hname & Hdisk & Hok & Hraise).
  destruct (load_body read_error self) as [self1 r] eqn:Hload.
  simpl in Hname, Hdisk, Hok, Hraise.
  assert (index_path self1 = index_path self) as Hip by (unfold index_path; by rewrite Hname).
  assert (metadata_path self1 = metadata_path self) as Hmp
    by (unfold metadata_path; by rewrite Hname).
  destruct r as [[]|e].
  - exists self1. split_and!; [done..| |].
    + destruct (Hok eq_refl) as [(ix & md & ? & ? & ? & ?)| ->].
      * left. exists ix, md. by rewrite Hip, Hmp.
      * by right.
    + intros ix md Hr1 Hr2 Hi Hm. rewrite Hip in *. rewrite Hmp in *.
      clear Hok Hraise. unfold load_body in Hload.
      rewrite (path_exists_Some (index_path self) (disk self) _ Hi),
        (path_exists_Some (metadata_path self) (disk self) _ Hm) in Hload.
      cbn [andb] in Hload. unfold read_index, pickle_load in Hload.
      change (disk self) with dk in Hload.
      rewrite Hr1, Hr2, Hi, Hm in Hload. by injection Hload as <-.
  - assert (is_Exception e = true) as ->.
    { destruct (Hraise e eq_refl) as (e' & [H|[H|H]] & ->); eauto. }
    exists (_create_new_index self1). split_and!; [done..|by right|].
    intros ix md Hr1 Hr2 Hi Hm. exfalso.
    change (index_path (_create_new_index self1)) with (index_path self1) in *.
    change (metadata_path (_create_new_index self1)) with (metadata_path self1) in *.
    rewrite Hip in *. rewrite Hmp in *.
    clear Hok Hraise. unfold load_body in Hload.
    rewrite (path_exists_Some (index_path self) (disk self) _ Hi),
      (path_exists_Some (metadata_path self) (disk self) _ Hm) in Hload.
    cbn [andb] in Hload. unfold read_index, pickle_load in Hload.
    change (disk self) with dk in Hload.
    rewrite Hr1, Hr2, Hi, Hm in Hload. done.
Qed.


(** The disk that a save without write errors leaves. *)
Lemma save_index_disk self ix :
  index self = Some ix ->
  io_error (index_path self) = None -> io_error (metadata_path self) = None ->
  disk (_save_index io_error self).1
  = <[metadata_path self := PickleFile (metadata self)]>
      (<[index_path self := IndexFile ix]> (disk self)).
Proof.
  intros Hix Hi Hm. unfold _save_index, save_body, the_index, write_file.
  by rewrite Hix, Hi, Hm.
Qed.

(** An object made in a directory that holds both files of the
    collection, when they can be read. *)
Lemma init_loads name dk self ix md :
  mkdir_error = None -> collection_name self = name ->
  read_error (index_path self) = None -> read_error (metadata_path self) = None ->
  dk !! index_path self = Some (IndexFile ix) ->
  dk !! metadata_path self = Some (PickleFile md) ->
  init name dk
  = Ok {| collection_name := name; index := Some ix; metadata := md; disk := dk |}.
Proof.
  intros Hmk <- Hr1 Hr2 Hi Hm.
  unfold FAISSIndex_init, _load_or_create_index, load_body. rewrite Hmk.
  change (index_path {| collection_name := collection_name self; index := None;
                        metadata := []; disk := dk |}) with (index_path self).
  change (metadata_path {| collection_name := collection_name self; index := None;
                           metadata := []; disk := dk |}) with (metadata_path self).
  cbn [disk].
  rewrite (path_exists_Some _ _ _ Hi), (path_exists_Some _ _ _ Hm). cbn [andb].
  unfold read_index, pickle_load. by rewrite Hr1, Hr2, Hi, Hm.
Qed.

(** X6: what [add_chunks] saved is what a new object of the same
    collection loads: after a successful call in a directory that can be
    written and read, [FAISSIndex(collection_name)] holds the index and
    the metadata list that the first object holds. *)
Theorem X6_save_load_round_trip chunks self :
  chunks <> [] ->
  mkdir_error = None ->
  io_error (index_path self) = None -> io_error (metadata_path self) = None ->
  read_error (index_path self) = None -> read_error (metadata_path self) = None ->
  (add_chunks normalize_L2 io_error chunks self).2 = Ok tt ->
  let out := (add_chunks normalize_L2 io_error chunks self).1 in
  exists c,
    init (collection_name self) (disk out) = Ok c /\
    index c = index out /\ metadata c = metadata out.
Proof.
  intros Hne Hmk Hw1 Hw2 Hr1 Hr2 Hok out. subst out.
  unfold add_chunks in *. destruct chunks as [|c0 chunks]; [done|].
  destruct (add_in_memory normalize_L2 (c0 :: chunks) self) as [mem r] eqn:Hmem.
  destruct r as [[]|e]; [|done].
  pose proof (add_in_memory_spec normalize_L2 (c0 :: chunks) self) as Hspec.
  rewrite Hmem in Hspec. simpl in Hspec. destruct Hspec as (Hname & _ & Hmore).
  destruct (Hmore eq_refl) as ([ix Hix] & _).
  assert (index_path mem = index_path self) as Hip
    by (unfold index_path; by rewrite Hname).
  assert (metadata_path mem = metadata_path self) as Hmp
    by (unfold metadata_path; by rewrite Hname).
  destruct (save_index_fields io_error mem) as (Hsi & Hsm & _).
  eexists. split.
  - apply (init_loads _ _ self ix (metadata mem)); try done.
    + rewrite (save_index_disk mem ix); [|done|by rewrite Hip|by rewrite Hmp].
      rewrite Hip, Hmp. rewrite lookup_insert_ne; [|by apply not_eq_sym, paths_differ].
      by rewrite lookup_insert_eq.
    + rewrite (save_index_disk mem ix); [|done|by rewrite Hip|by rewrite Hmp].
      rewrite Hmp. by rewrite lookup_insert_eq.
  - simpl. by rewrite Hsi, Hsm, Hix.
Qed.

(** X7: [delete_collection], when the files can be removed, leaves no
    file of the collection and an object without index: the object
    reports no vector and answers every search with no hit. *)
Theorem X7_delete_collection self :
  remove_error (index_path self) = None ->
  remove_error (metadata_path self) = None ->
  let out := FAISSIndex_delete_collection remove_error self in
  out.2 = Ok tt /\
  index out.1 = None /\ metadata out.1 = [] /\
  disk out.1 = delete (metadata_path self) (delete (index_path self) (disk self)) /\
  vectors_count (FAISSIndex_get_collection_info out.1) = 0 /\
  forall q top_k filt,
    FAISSIndex_search normalize_L2 index_search out.1 q top_k filt = Ok [].
Proof.
  intros H1 H2 out. subst out.
  unfold FAISSIndex_delete_collection, delete_body, remove. rewrite H1, H2.
  assert ((if path_exists (index_path self) (disk self)
           then Ok (delete (index_path self) (disk self)) else Ok (disk self))
          = Ok (delete (index_path self) (disk self))) as ->.
  { unfold path_exists. case_bool_decide as He; [done|].
    rewrite delete_id; [done|]. by apply eq_None_not_Some. }
  set (dk1 := delete (index_path self) (disk self)).
  assert ((if path_exists (metadata_path self) dk1
           then Ok (delete (metadata_path self) dk1) else Ok dk1)
          = Ok (delete (metadata_path self) dk1)) as ->.
  { unfold path_exists. case_bool_decide as He; [done|].
    rewrite delete_id; [done|]. by apply eq_None_not_Some. }
  simpl. split_and!; done.
Qed.

(** X10: a delete that fails is silent. When the index file cannot be
    removed, [delete_collection] of the manager returns normally and
    forgets the object, the files stay, and the next [get_collection]
    loads the collection again with every unit. *)
Theorem X10_failed_delete_is_silent name mgr c ix md e :
  collections mgr !! name = Some c -> collection_name c = name ->
  files mgr !! index_path c = Some (IndexFile ix) ->
  files mgr !! metadata_path c = Some (PickleFile md) ->
  remove_error (index_path c) = Some e -> is_Exception e = true ->
  mkdir_error = None ->
  read_error (index_path c) = None -> read_error (metadata_path c) = None ->
  exists mgr1 mgr2 c',
    VectorIndexManager_delete_collection remove_error name mgr = (mgr1, Ok tt) /\
    collections mgr1 !! name = None /\ files mgr1 = files mgr /\
    get_collection name mgr1 = (mgr2, Ok c') /\
    index c' = Some ix /\ metadata c' = md.
Proof.
  intros Hc Hname Hi Hm Hrm He Hmk Hr1 Hr2.
  unfold VectorIndexManager_delete_collection. rewrite Hc.
  unfold FAISSIndex_delete_collection, delete_body.
  change (index_path (set_disk c (files mgr))) with (index_path c).
  change (disk (set_disk c (files mgr))) with (files mgr).
  rewrite (path_exists_Some _ _ _ Hi). unfold remove. rewrite Hrm.
  cbn [try_except]. rewrite He. cbn [disk set_disk].
  eexists _, _, _. split; [done|]. cbn [collections files].
  split; [by rewrite lookup_delete_eq|]. split; [done|].
  unfold VectorIndexManager_get_collection. cbn [collections files].
  rewrite lookup_delete_eq.
  rewrite (init_loads name (files mgr) c ix md); try done.
Qed.

(** X11: a new collection has dimension 384 whatever [embedding_dim]
    [create_collection] is given. Adding units whose vectors have
    another width then raises, and the collection stays empty. *)
Theorem X11_new_collection_has_dimension_384 use_qdrant name embedding_dim mgr :
  collections mgr !! name = None ->
  files mgr !! ("./indices/" +:+ name +:+ ".faiss") = None ->
  mkdir_error = None ->
  exists mgr1 c,
    (VectorIndex_create_collection read_error mkdir_error qdrant_recreate
       use_qdrant name embedding_dim mgr).1 = mgr1 /\
    collections mgr1 !! name = Some c /\
    index c = Some {| d := 384; xb := [] |} /\ metadata c = [] /\
    files mgr1 = files mgr /\
    forall chunks rows rows',
      chunks <> [] ->
      embeddings_of chunks = Ok rows -> normalize_L2 rows = Ok rows' ->
      Exists (fun row => len row <> 384) rows' ->
      let out := VectorIndex_add_chunks normalize_L2 io_error read_error mkdir_error
                   qdrant_upsert use_qdrant name chunks mgr1 in
      out.2 = Raise (Exn AssertionError "") /\
      collections out.1 !! name = Some c /\ files out.1 = files mgr.
Proof.
  intros Hc Hfile Hmk.
  unfold VectorIndex_create_collection, VectorIndexManager_get_collection.
  rewrite Hc. unfold FAISSIndex_init, _load_or_create_index, load_body. rewrite Hmk.
  set (self := {| collection_name := name; index := None; metadata := [];
                  disk := files mgr |}).
  assert (path_exists (index_path self) (disk self) = false) as ->
    by (by apply path_exists_None).
  cbn [andb].
  set (c := _create_new_index self).
  exists (store name c mgr), c. split.
  { by destruct use_qdrant. }
  split; [by simpl; rewrite lookup_insert_eq|]. split_and!; [done..|].
  intros chunks rows rows' Hne Hrows Hnorm Hwidth.
  unfold VectorIndex_add_chunks, VectorIndexManager_get_collection.
  cbn [collections files store]. rewrite lookup_insert_eq.
  change (set_disk c (disk c)) with c.
  assert (add_chunks normalize_L2 io_error chunks c = (c, Raise (Exn AssertionError "")))
    as ->.
  { unfold add_chunks. destruct chunks as [|c0 chunks]; [done|].
    unfold add_in_memory. rewrite Hrows, Hnorm. unfold the_index.
    cbn [index c _create_new_index set_metadata set_index bind].
    unfold index_add. cbn [d].
    assert (forallb (fun row : list Q => len row =? 384) rows' = false) as ->; [|done].
    apply not_true_is_false. intros Hall. rewrite forallb_forall in Hall.
    apply Exists_exists in Hwidth as (row & Hin & Hrow).
    apply list_elem_of_In in Hin. apply Hall in Hin. lia. }
  cbn [fst snd]. split; [done|]. cbn [collections files store].
  split; [by rewrite lookup_insert_eq|done].
Qed.


Lemma points_of_raises chunks e :
  points_of chunks = Raise e -> is_Exception e = true.
Proof.
  induction chunks as [|c chunks IH]; simpl; [done|].
  destruct (point_of c) as [p|e'] eqn:Hp; simpl.
  - destruct (points_of chunks); simpl; [done|]. intros [= <-]. by apply IH.
  - intros [= <-]. unfold point_of, getitem_key in Hp.
    destruct (c_chunk_id c); simpl in Hp; [|by injection Hp as <-].
    destruct (c_embedding c); simpl in Hp; [|by injection Hp as <-].
    destruct (c_text c); simpl in Hp; [|by injection Hp as <-].
    destruct (c_location c); simpl in Hp; [|by injection Hp as <-].
    destruct (c_headings c); simpl in Hp; [done|by injection Hp as <-].
Qed.

(** X25: Qdrant never fails an add. When the client raises ordinary
    errors only, [VectorIndex.add_chunks] with Qdrant in use returns
    what it returns without, and leaves the local collection and its
    files the same: a unit that Qdrant did not take, or that lacks a
    key its payload needs, goes unreported. *)
Theorem X25_qdrant_never_fails_an_add name chunks mgr :
  (forall n points e, qdrant_upsert n points = Raise e -> is_Exception e = true) ->
  VectorIndex_add_chunks normalize_L2 io_error read_error mkdir_error qdrant_upsert
    true name chunks mgr
  = VectorIndex_add_chunks normalize_L2 io_error read_error mkdir_error qdrant_upsert
      false name chunks mgr.
Proof.
  intros Hq. unfold VectorIndex_add_chunks.
  destruct (VectorIndexManager_get_collection _ _ _ _) as [mgr1 [c|e]]; [|done].
  destruct (add_chunks _ _ _ _) as [c1 [[]|e]]; [|done].
  f_equal. unfold upsert_body.
  destruct (points_of chunks) as [points|e] eqn:Hp; simpl.
  - destruct (qdrant_upsert name points) as [[]|e] eqn:Hu; simpl; [done|].
    by rewrite (Hq _ _ _ Hu).
  - by rewrite (points_of_raises _ _ Hp).
Qed.

End storage_extras.

(** ** The task executor: permits, final statuses, cleanup *)

Section task_extras.

Import Tasks TasksSpec.

Lemma in_semaphore_insert (cs : gmap string coroutine) (i : string) (c : coroutine) :
  (size (filter (fun kv : string * coroutine => holds_permit kv.2 = true) (<[i := c]> cs))
   + permit_of (cs !! i)
   = size (filter (fun kv : string * coroutine => holds_permit kv.2 = true) cs)
     + permit_of (Some c))%nat.
Proof.
  set (P := fun kv : string * coroutine => holds_permit kv.2 = true).
  assert (permit_of (cs !! i) = 1%nat /\ is_Some (filter P cs !! i)
          \/ permit_of (cs !! i) = 0%nat /\ filter P cs !! i = None) as Hold.
  { destruct (cs !! i) as [c0|] eqn:Hc; simpl.
    - destruct (holds_permit c0) eqn:Hp.
      + left. split; [done|]. exists c0. by apply map_lookup_filter_Some.
      + right. split; [done|]. apply map_lookup_filter_None. right.
        intros x Hx. rewrite Hc in Hx. injection Hx as <-. unfold P. simpl. congruence.
    - right. split; [done|]. apply map_lookup_filter_None. by left. }
  simpl. destruct (holds_permit c) eqn:Hc.
  - rewrite map_filter_insert_True by done.
    destruct Hold as [[-> Hin]|[-> Hout]].
    + rewrite map_size_insert_Some by done. lia.
    + rewrite map_size_insert_None by done. lia.
  - rewrite map_filter_insert_False by (unfold P; simpl; congruence).
    rewrite map_filter_delete.
    destruct Hold as [[-> Hin]|[-> Hout]].
    + rewrite map_size_delete_Some by done.
      assert (size (filter P cs) <> 0%nat); [|lia].
      intros Hz. apply map_size_empty_inv in Hz. rewrite Hz in Hin.
      rewrite lookup_empty in Hin. by destruct Hin.
    + rewrite map_size_delete_None by done. lia.
Qed.

Lemma in_semaphore_set_coroutine m task_id c :
  (in_semaphore (set_coroutine m task_id c) + permit_of (coroutines m !! task_id)
   = in_semaphore m + permit_of (Some c))%nat.
Proof. unfold in_semaphore. simpl. apply in_semaphore_insert. Qed.

(** One event keeps the sum of the free permits and of the permits
    held. *)
Lemma step_permits m ev m' :
  step m ev = Some m' ->
  (_semaphore m' + in_semaphore m' = _semaphore m + in_semaphore m)%nat.
Proof.
  intros Hstep. destruct ev; simpl in Hstep.
  - destruct (session m !! task_id) eqn:Hs, (coroutines m !! task_id) eqn:Hc; try done.
    inversion Hstep; subst m'. unfold submit_task.
    pose proof (in_semaphore_set_coroutine
                  (set_session m (<[task_id:=
                     {| id := task_id; type := task_type; data := task_data;
                        status := PENDING; result := None; error := None;
                        created_at := now; started_at := None;
                        completed_at := None |}]> (session m)))
                  task_id AwaitSemaphore) as H.
    simpl in H. rewrite Hc in H. simpl in H.
    unfold in_semaphore in *. simpl in *. lia.
  - unfold _execute_task_start in Hstep.
    destruct (coroutines m !! task_id) as [[]|] eqn:Hc; try done.
    destruct (_semaphore m) as [|permits] eqn:Hsem; [done|].
    inversion Hstep; subst m'.
    pose proof (in_semaphore_set_coroutine
                  (update_task task_id (mark_running now) (set_semaphore m permits))
                  task_id AwaitTaskFunc) as H.
    rewrite coroutines_update_task in H. simpl in H. rewrite Hc in H. simpl in H.
    unfold in_semaphore in *. simpl in *.
    rewrite semaphore_update_task. rewrite coroutines_update_task in *. simpl in *. lia.
  - unfold _execute_task_return in Hstep.
    destruct (coroutines m !! task_id) as [[]|] eqn:Hc; try done.
    inversion Hstep; subst m'.
    pose proof (in_semaphore_set_coroutine
                  (set_semaphore (update_task task_id (mark_completed now res) m)
                     (S (_semaphore m)))
                  task_id (Finished (Ok tt))) as H.
    simpl in H. rewrite coroutines_update_task in H. rewrite Hc in H. simpl in H.
    unfold in_semaphore in *. simpl in *.
    rewrite coroutines_update_task in *. lia.
  - unfold _execute_task_raise in Hstep.
    destruct (coroutines m !! task_id) as [[]|] eqn:Hc; try done.
    destruct (is_Exception e); inversion Hstep; subst m'.
    + pose proof (in_semaphore_set_coroutine
                    (set_semaphore (update_task task_id (mark_failed now e) m)
                       (S (_semaphore m)))
                    task_id (Finished (Ok tt))) as H.
      simpl in H. rewrite coroutines_update_task in H. rewrite Hc in H. simpl in H.
      unfold in_semaphore in *. simpl in *.
      rewrite coroutines_update_task in *. lia.
    + pose proof (in_semaphore_set_coroutine (set_semaphore m (S (_semaphore m)))
                    task_id (Finished (Raise e))) as H.
      simpl in H. rewrite Hc in H. simpl in H.
      unfold in_semaphore in *. simpl in *. lia.
  - inversion Hstep; subst m'. clear Hstep. unfold cancel_task.
    destruct (session m !! task_id) as [t0|] eqn:Hs; [|done].
    destruct (negb _); [done|].
    destruct (decide _); [|done]. simpl. unfold cancel_coroutine. simpl.
    destruct (coroutines m !! task_id) as [[]|] eqn:Hc; simpl; try done.
    + pose proof (in_semaphore_insert (coroutines m) task_id
                    (Finished (Raise (Exn CancelledError "")))) as H.
      rewrite Hc in H. simpl in H. unfold in_semaphore in *. simpl in *. lia.
    + pose proof (in_semaphore_insert (coroutines m) task_id
                    (Finished (Raise (Exn CancelledError "")))) as H.
      rewrite Hc in H. simpl in H. unfold in_semaphore in *. simpl in *. lia.
  - by inversion Hstep; subst m'.
Qed.

(** X12: the executor never lets more than two task functions run at a
    time: in every state that a sequence of events leads to from the
    start, the free permits and the coroutines suspended in
    [await task_func()] are two together. *)
Theorem X12_at_most_two_tasks_run evs m :
  run init evs = Some m ->
  (_semaphore m + in_semaphore m = 2)%nat /\ (in_semaphore m <= 2)%nat.
Proof.
  assert (forall evs m0 m, run m0 evs = Some m ->
            (_semaphore m + in_semaphore m = _semaphore m0 + in_semaphore m0)%nat) as H.
  { clear. induction evs as [|ev evs IH]; intros m0 m Hrun; simpl in Hrun.
    - by injection Hrun as <-.
    - destruct (step m0 ev) as [m1|] eqn:Hstep; [|done].
      rewrite (IH _ _ Hrun). by eapply step_permits. }
  intros Hrun. apply H in Hrun.
  assert (in_semaphore init = 0%nat) as Hinit by done.
  rewrite Hinit in Hrun. simpl in Hrun. lia.
Qed.


(** A finished row whose coroutine is over keeps its status through one
    event, and the coroutine stays over. *)
Lemma step_final m ev m' task_id st :
  step m ev = Some m' ->
  finished_status st ->
  (exists outcome, coroutines m !! task_id = Some (Finished outcome)) ->
  (forall t, session m !! task_id = Some t -> status t = st) ->
  (exists outcome, coroutines m' !! task_id = Some (Finished outcome)) /\
  (forall t, session m' !! task_id = Some t -> status t = st).
Proof.
  intros Hstep Hfin [outcome Hco] Hrow. split; [by eapply step_finished|].
  intros t' Hrow'.
  destruct (step_row _ _ _ _ _ Hstep Hrow')
    as [Hsame|[(_ & _ & Hnone)|(t & Ht & [[_ Hc]|[(_ & Hc & _)|[Hcancel Hterm]]])]];
    try congruence.
  - by apply Hrow.
  - apply Hrow in Ht. rewrite Ht in Hterm. by destruct Hfin as [-> | ->].
Qed.

(** X13: COMPLETED and FAILED are final. Once a task of a state reached
    from the start is COMPLETED or FAILED, no sequence of events changes
    its status: where it still has a row, the row has that status. *)
Theorem X13_finished_status_never_changes evs evs' m m' task_id t t' :
  run init evs = Some m -> run m evs' = Some m' ->
  session m !! task_id = Some t -> finished_status (status t) ->
  session m' !! task_id = Some t' ->
  status t' = status t.
Proof.
  intros Hreach Hrun Hrow Hfin Hrow'.
  assert (exists outcome, coroutines m !! task_id = Some (Finished outcome)) as Hco.
  { eapply run_settled; [apply init_settled|done..]. }
  assert (forall t0, session m !! task_id = Some t0 -> status t0 = status t) as Hst
    by (intros t0 Ht0; congruence).
  clear Hreach Hrow. revert m Hrun Hco Hst.
  induction evs' as [|ev evs' IH]; intros m Hrun Hco Hst; simpl in Hrun.
  - injection Hrun as ->. by apply Hst.
  - destruct (step m ev) as [m1|] eqn:Hstep; [|done].
    destruct (step_final _ _ _ task_id (status t) Hstep Hfin Hco Hst) as [Hco1 Hst1].
    by apply (IH m1).
Qed.

(** X14: [cancel_task] does not reach the coroutine. In every state
    reached from the start it leaves the coroutines and the semaphore as
    they are; for a task that is PENDING or RUNNING it returns [True]
    and writes CANCELLED in the row. *)
Theorem X14_cancel_never_stops_the_coroutine evs m task_id now :
  run init evs = Some m ->
  coroutines (cancel_task task_id now m).2 = coroutines m /\
  _semaphore (cancel_task task_id now m).2 = _semaphore m /\
  forall t,
    session m !! task_id = Some t -> terminal (status t) = false ->
    (cancel_task task_id now m).1 = true /\
    get_task_status task_id (cancel_task task_id now m).2 = Some CANCELLED.
Proof.
  intros Hreach.
  assert (_tasks m = ∅) as Hempty by (by eapply run_tasks_empty).
  destruct (cancel_task_leaves_coroutine task_id now m Hempty) as [Hco Hsem].
  split_and!; [done..|].
  intros t Hrow Hterm. unfold cancel_task, get_task_status. rewrite Hrow.
  assert (negb (TaskStatus_eqb (status t) PENDING || TaskStatus_eqb (status t) RUNNING)
          = false) as -> by (by destruct (status t)).
  simpl. destruct (decide _) as [Hin|_]; [rewrite Hempty in Hin; set_solver|].
  simpl. by rewrite lookup_insert_eq.
Qed.

Lemma step_stamped m ev m' : stamped m -> step m ev = Some m' -> stamped m'.
Proof.
  intros Hm Hstep j t' Hrow' Hterm. destruct ev; simpl in Hstep.
  - destruct (session m !! task_id) eqn:Hs, (coroutines m !! task_id) eqn:Hc; try done.
    inversion Hstep; subst m'. unfold submit_task in Hrow'. simpl in Hrow'.
    destruct (decide (task_id = j)) as [->|Hne].
    + rewrite lookup_insert_eq in Hrow'. by inversion Hrow'; subst t'.
    + rewrite lookup_insert_ne in Hrow' by done. by eapply Hm.
  - unfold _execute_task_start in Hstep.
    destruct (coroutines m !! task_id) as [[]|] eqn:Hc; try done.
    destruct (_semaphore m); [done|]. inversion Hstep; subst m'. simpl in Hrow'.
    rewrite session_update_task in Hrow'. simpl in Hrow'.
    destruct (decide (task_id = j)) as [->|Hne]; [|by eapply Hm].
    destruct (session m !! j) as [t|]; [|done]. by inversion Hrow'; subst t'.
  - unfold _execute_task_return in Hstep.
    destruct (coroutines m !! task_id) as [[]|] eqn:Hc; try done.
    inversion Hstep; subst m'. simpl in Hrow'.
    rewrite session_update_task in Hrow'.
    destruct (decide (task_id = j)) as [->|Hne]; [|by eapply Hm].
    destruct (session m !! j) as [t|]; [|done]. by inversion Hrow'; subst t'.
  - unfold _execute_task_raise in Hstep.
    destruct (coroutines m !! task_id) as [[]|] eqn:Hc; try done.
    destruct (is_Exception e); inversion Hstep; subst m'; simpl in Hrow';
      [|by eapply Hm].
    rewrite session_update_task in Hrow'.
    destruct (decide (task_id = j)) as [->|Hne]; [|by eapply Hm].
    destruct (session m !! j) as [t|]; [|done]. by inversion Hrow'; subst t'.
  - inversion Hstep; subst m'. clear Hstep. unfold cancel_task in Hrow'.
    destruct (session m !! task_id) as [t0|] eqn:Hs; [|by eapply Hm].
    destruct (negb _) eqn:Hst; [by eapply Hm|].
    assert (<[task_id:=mark_cancelled now t0]> (session m) !! j = Some t') as Hrow.
    { destruct (decide _); [|done]. simpl in Hrow'. unfold cancel_coroutine in Hrow'.
      simpl in Hrow'. by destruct (coroutines m !! task_id) as [[]|]. }
    destruct (decide (task_id = j)) as [->|Hne].
    + rewrite lookup_insert_eq in Hrow. by inversion Hrow; subst t'.
    + rewrite lookup_insert_ne in Hrow by done. by eapply Hm.
  - inversion Hstep; subst m'. simpl in Hrow'.
    apply map_lookup_filter_Some in Hrow' as [Hrow' _]. by eapply Hm.
Qed.

Lemma run_stamped evs m m' : stamped m -> run m evs = Some m' -> stamped m'.
Proof.
  revert m. induction evs as [|ev evs IH]; intros m Hm Hrun; simpl in Hrun.
  - by injection Hrun as <-.
  - destruct (step m ev) as [m1|] eqn:Hstep; [|done].
    eapply IH; [|done]. by eapply step_stamped.
Qed.

(** X15: what [cleanup_old_tasks] deletes. In a state reached from the
    start it keeps every row that is PENDING or RUNNING; a row with a
    terminal status carries a completion time and is deleted exactly
    when that time is before the cutoff date. The coroutines are not
    touched. *)
Theorem X15_cleanup_deletes_old_terminal_rows evs m task_id t cutoff_date :
  run init evs = Some m ->
  session m !! task_id = Some t ->
  coroutines (cleanup_old_tasks cutoff_date m) = coroutines m /\
  (terminal (status t) = false ->
   session (cleanup_old_tasks cutoff_date m) !! task_id = Some t) /\
  (terminal (status t) = true ->
   exists c, completed_at t = Some c /\
     session (cleanup_old_tasks cutoff_date m) !! task_id
     = if c <? cutoff_date then None else Some t).
Proof.
  intros Hreach Hrow. split; [done|].
  assert (stamped m) as Hst.
  { eapply run_stamped; [|done]. intros j t0 H. simpl in H. by rewrite lookup_empty in H. }
  unfold cleanup_old_tasks. simpl. split.
  - intros Hterm. apply map_lookup_filter_Some. split; [done|].
    simpl. unfold old_task. by rewrite Hterm.
  - intros Hterm. destruct (Hst _ _ Hrow Hterm) as [c Hc]. exists c. split; [done|].
    destruct (c <? cutoff_date) eqn:Hlt.
    + apply map_lookup_filter_None. right. intros t0 Ht0.
      assert (t0 = t) as -> by congruence. simpl. unfold old_task.
      by rewrite Hterm, Hc, Hlt.
    + apply map_lookup_filter_Some. split; [done|]. simpl. unfold old_task.
      by rewrite Hterm, Hc, Hlt.
Qed.

End task_extras.

(** ** The chunker: the fixed-size fallback *)

Section fallback_extras.

Import Str Chunking ChunkingSpec.

Variable encode : string -> Py.result (list Z).
Variable decode : list Z -> string.
Variable chunk_size : Z.
Variable chunk_overlap : Z.

(** Windows that start every [s] items and are [s] items long at least
    cover the list. *)
Lemma windows_tile {A} (s m : nat) (l : list A) :
  (length l <= m * s)%nat ->
  concat (map (fun k => firstn s (skipn (k * s) l)) (seq 0 m)) = l.
Proof.
  revert l. induction m as [|m IH]; intros l Hlen.
  - destruct l; [done|simpl in Hlen; lia].
  - rewrite <- cons_seq, <- seq_shift, map_cons, map_map. simpl concat.
    transitivity (firstn s l ++ skipn s l); [|apply firstn_skipn].
    f_equal.
    assert (length (skipn s l) <= m * s)%nat as Hrest
      by (rewrite length_skipn; lia).
    etransitivity; [|exact (IH (skipn s l) Hrest)].
    f_equal. apply map_ext. intros k. f_equal.
    rewrite skipn_skipn. f_equal. lia.
Qed.

Lemma map_eq_Forall2 {A B C} (f : A -> C) (g : B -> C) (l : list A) (l' : list B) :
  map f l = map g l' -> Forall2 (fun a b => f a = g b) l l'.
Proof.
  revert l'. induction l as [|a l IH]; intros [|b l'] H; try discriminate.
  - constructor.
  - injection H as H1 H2. constructor; [done|by apply IH].
Qed.

(** X16: the fixed-size fallback loses no token. With
    [0 <= chunk_overlap < chunk_size] its units are the decoded windows
    of the token sequence, none longer than [chunk_size]; the first
    [chunk_size - chunk_overlap] tokens of the windows, one window after
    the other, are the token sequence of the text. *)
Theorem X16_fallback_covers_every_token text metadata tokens :
  encode text = Ok tokens ->
  0 <= chunk_overlap < chunk_size ->
  exists units windows,
    _simple_chunk encode decode chunk_size chunk_overlap text metadata = Ok units /\
    Forall2 (fun u w => Chunking.text u = decode w /\ token_count u = len w
                        /\ len w <= chunk_size) units windows /\
    concat (map (firstn (Z.to_nat (chunk_size - chunk_overlap))) windows) = tokens.
Proof.
  intros Henc [Hlo Hhi].
  destruct (simple_chunk_windows encode decode chunk_size chunk_overlap text metadata
              tokens Henc) as (units & Hrun & Hcontent); [lia..|].
  set (stride := chunk_size - chunk_overlap) in *.
  exists units,
    (map (window chunk_size stride tokens) (seq 0 (window_count stride (len tokens)))).
  split; [done|]. split.
  - unfold fixed_windows in Hcontent. apply map_eq_Forall2 in Hcontent.
    apply Forall2_fmap_r. eapply Forall2_impl; [done|].
    intros u k Hu. unfold content in Hu. simpl in Hu. injection Hu as Ht _ Hn.
    split_and!; [done..|].
    unfold window, len. rewrite length_firstn. lia.
  - rewrite map_map.
    rewrite <- (windows_tile (Z.to_nat stride) (window_count stride (len tokens)) tokens) at 2.
    + f_equal. apply map_ext. intros k. unfold window.
      rewrite firstn_firstn. f_equal. lia.
    + unfold window_count, len.
      assert (0 < stride) as Hs by (unfold stride; lia).
      pose proof (Z.div_mod (Z.of_nat (length tokens) + stride - 1) stride) as Hdm.
      pose proof (Z.mod_pos_bound (Z.of_nat (length tokens) + stride - 1) stride Hs).
      assert (0 <= (Z.of_nat (length tokens) + stride - 1) / stride)
        by (apply Z.div_pos; lia).
      nia.
Qed.

(** X17: with an overlap the fallback repeats unit ids. The id and the
    section of a unit are made of [i // chunk_size] for its offset [i],
    and the offsets advance by [chunk_size - chunk_overlap]: when
    [0 < chunk_overlap < chunk_size] and the text has more tokens than
    one step, the first two units have the same id and location. *)
Theorem X17_fallback_ids_repeat text metadata tokens :
  encode text = Ok tokens ->
  0 < chunk_overlap < chunk_size ->
  chunk_size - chunk_overlap < len tokens ->
  exists u0 u1 rest,
    _simple_chunk encode decode chunk_size chunk_overlap text metadata
    = Ok (u0 :: u1 :: rest) /\
    chunk_id u0 = chunk_id u1 /\ location u0 = location u1.
Proof.
  intros Henc [Hlo Hhi] Hlen.
  unfold _simple_chunk. rewrite Henc. cbn [bind].
  set (stride := chunk_size - chunk_overlap) in *.
  assert (0 < stride < chunk_size) as Hs by (unfold stride; lia).
  unfold range_step.
  destruct (stride =? 0) eqn:E0; [lia|].
  assert ((stride <? 0) || (len tokens <=? 0) = false) as ->.
  { apply orb_false_intro; lia. }
  cbn [bind].
  assert (2 <= (len tokens + stride - 1) / stride) as Hcount.
  { apply Z.div_le_lower_bound; lia. }
  destruct (Z.to_nat ((len tokens + stride - 1) / stride)) as [|[|count]] eqn:Ecount;
    [lia..|].
  rewrite <- !cons_seq. rewrite !map_cons.
  change (seq 2 count) with (seq (1 + 1) count).
  rewrite <- !seq_shift, !map_map.
  destruct (simple_chunk_loop_windows decode chunk_size chunk_overlap tokens metadata
              (map (fun k => S (S k)) (seq 0 count)))
    as (rest & Hrest & _); [lia..|].
  rewrite map_map in Hrest. fold stride in Hrest.
  cbn [simple_chunk_loop]. rewrite Hrest.
  unfold simple_chunk_at, floordiv.
  destruct (chunk_size =? 0) eqn:Ez; [lia|]. cbn [bind].
  eexists _, _, rest. split; [done|].
  cbn [chunk_id location].
  replace (Z.of_nat 1 * stride / chunk_size) with 0
    by (symmetry; apply Z.div_small; lia).
  replace (Z.of_nat 0 * stride / chunk_size) with 0 by done.
  done.
Qed.

End fallback_extras.

(** ** The chunker: sections, headings and blank documents *)

Section heading_extras.

Import Str Chunking ChunkingSpec.

Lemma blank_app a b : blank (a +:+ b) = blank a && blank b.
Proof.
  induction a as [|c a IH]; unfold_append; simpl; [done|].
  by rewrite IH, andb_assoc.
Qed.

Lemma blank_rev_app a b : blank (String.rev_app a b) = blank a && blank b.
Proof.
  revert b. induction a as [|c a IH]; intros b; simpl; [done|].
  rewrite IH. simpl. destruct (isspace c), (blank a); simpl; try done.
Qed.

Lemma nonempty_rev_app a b :
  nonempty (String.rev_app a b) = nonempty a || nonempty b.
Proof.
  revert b. induction a as [|c a IH]; intros b; simpl; [done|].
  rewrite IH. simpl. by rewrite orb_true_r.
Qed.

Lemma lstrip_blank s : blank s = true -> lstrip s = "".
Proof.
  induction s as [|c s IH]; simpl; [done|].
  destruct (isspace c); simpl; [done|done].
Qed.

Lemma lstrip_not_blank s :
  blank s = false -> blank (lstrip s) = false /\ nonempty (lstrip s) = true.
Proof.
  induction s as [|c s IH]; simpl; [done|].
  destruct (isspace c) eqn:E; simpl; [done|]. by rewrite E.
Qed.

(** [s.strip()] is empty exactly when [s] is blank. *)
Lemma nonempty_strip s : nonempty (strip s) = negb (blank s).
Proof.
  unfold strip, rstrip, String.rev.
  destruct (blank s) eqn:E; simpl.
  - by rewrite (lstrip_blank s E).
  - destruct (lstrip_not_blank s E) as [Hb _].
    rewrite nonempty_rev_app, orb_false_r.
    apply lstrip_not_blank. by rewrite blank_rev_app, Hb.
Qed.

Lemma nonempty_false s : nonempty s = false -> s = "".
Proof. by destruct s. Qed.

Lemma strip_empty s : strip s = "" <-> blank s = true.
Proof.
  pose proof (nonempty_strip s) as H. split.
  - intros Hs. rewrite Hs in H. simpl in H. by destruct (blank s).
  - intros Hb. rewrite Hb in H. by apply nonempty_false.
Qed.

(** A line that matches a heading pattern is not blank. *)
Lemma heading_not_blank line : is_heading line = true -> blank line = false.
Proof.
  intros H. destruct (blank line) eqn:E; [|done].
  apply strip_empty in E. unfold is_heading in H. rewrite E in H.
  by vm_compute in H.
Qed.

Lemma prefix_nl c s :
  String.prefix nl (String c s) = bool_decide (newline = c).
Proof.
  unfold nl. cbn [String.prefix].
  destruct (ascii_dec newline c); case_bool_decide; try congruence.
  by destruct s.
Qed.

Lemma split_go_cons s : exists p rest, split_go nl 0 s = p :: rest.
Proof.
  induction s as [|c s (p & rest & IH)]; [by eexists _, _|].
  cbn [split_go]. rewrite prefix_nl. case_bool_decide; [by eexists _, _|].
  rewrite IH. simpl. by eexists _, _.
Qed.

(** The lines of [text.split('\n')], each followed by a line break, are
    the text followed by a line break. *)
Lemma unlines_split s : unlines (split nl s) = s +:+ nl.
Proof.
  unfold split. induction s as [|c s IH]; [done|].
  cbn [split_go]. rewrite prefix_nl. case_bool_decide as Hc.
  - subst c. change (String.length nl - 1)%nat with 0%nat.
    cbn [unlines]. rewrite IH. by unfold_append.
  - destruct (split_go_cons s) as (p & rest & Hs). rewrite Hs in *.
    cbn [push unlines] in *. unfold_append. by rewrite <- IH.
Qed.

Lemma texts_of_app secs secs' : texts_of (secs ++ secs') = texts_of secs +:+ texts_of secs'.
Proof.
  induction secs as [|s secs IH]; simpl; [done|].
  by rewrite IH, app_assoc_string.
Qed.

(** What the loop of [_split_by_headings] makes of the lines: it drops
    the section in progress only when that section is blank. *)
Lemma headings_loop_text lines cur secs :
  exists lead rest,
    blank lead = true /\
    (blank (s_text cur) = false -> lead = "") /\
    texts_of (headings_loop lines cur secs) = texts_of secs +:+ rest /\
    lead +:+ rest = s_text cur +:+ unlines lines.
Proof.
  revert cur secs. induction lines as [|line lines IH]; intros cur secs; simpl.
  - rewrite nonempty_strip. destruct (blank (s_text cur)) eqn:E; simpl.
    + exists (s_text cur), "". split_and!; [done..| |done].
      by rewrite append_nil_r.
    + exists "", (s_text cur). split_and!; [done..| |by rewrite append_nil_r].
      rewrite texts_of_app. simpl. by rewrite append_nil_r.
  - destruct (is_heading line) eqn:Hh.
    + destruct (IH {| s_text := line +:+ nl; s_headings := [strip line] |}
                  (if nonempty (strip (s_text cur)) then secs ++ [cur] else secs))
        as (lead & rest & _ & Hlead & Htexts & Hrest).
      simpl in Hlead, Hrest.
      rewrite Hlead in Hrest.
      2: { rewrite blank_app, (heading_not_blank line Hh). done. }
      rewrite append_nil in Hrest. subst rest.
      rewrite Htexts. rewrite (nonempty_strip (s_text cur)).
      destruct (blank (s_text cur)) eqn:E; cbn [negb].
      * exists (s_text cur), ((line +:+ nl) +:+ unlines lines). by split_and!.
      * exists "", (s_text cur +:+ (line +:+ nl) +:+ unlines lines).
        split_and!; [done..| |done].
        rewrite texts_of_app. simpl. rewrite append_nil_r.
        by rewrite app_assoc_string.
    + destruct (IH {| s_text := s_text cur +:+ line +:+ nl;
                      s_headings := s_headings cur |} secs)
        as (lead & rest & Hblank & Hlead & Htexts & Hrest).
      simpl in Hlead, Hrest.
      exists lead, rest. split_and!; [done| |done|].
      * intros Hcur. apply Hlead. by rewrite blank_app, Hcur.
      * rewrite Hrest. by rewrite !app_assoc_string.
Qed.

(** What holds of every section that the loop emits: it is not blank,
    and its headings are those of a heading line or of the section the
    loop started with. *)
Lemma headings_loop_sections (Q : list string -> Prop) lines cur secs :
  (forall line, is_heading line = true -> Q [strip line]) ->
  Q (s_headings cur) ->
  Forall (fun s => nonempty (strip (s_text s)) = true /\ Q (s_headings s)) secs ->
  Forall (fun s => nonempty (strip (s_text s)) = true /\ Q (s_headings s))
    (headings_loop lines cur secs).
Proof.
  intros Hhead. revert cur secs.
  induction lines as [|line lines IH]; intros cur secs Hcur Hsecs; simpl.
  - destruct (nonempty (strip (s_text cur))) eqn:E; [|done].
    apply Forall_app. split; [done|]. by constructor.
  - assert (Forall (fun s => nonempty (strip (s_text s)) = true /\ Q (s_headings s))
              (if nonempty (strip (s_text cur)) then secs ++ [cur] else secs))
      as Hsecs'.
    { destruct (nonempty (strip (s_text cur))) eqn:E; [|done].
      apply Forall_app. split; [done|]. by constructor. }
    destruct (is_heading line) eqn:Hh.
    + apply IH; [|done]. simpl. by apply Hhead.
    + by apply IH.
Qed.


Lemma split_by_headings_text text :
  exists lead,
    blank lead = true /\
    lead +:+ texts_of (_split_by_headings text) = text +:+ nl /\
    Forall (fun s => nonempty (strip (s_text s)) = true) (_split_by_headings text).
Proof.
  unfold _split_by_headings.
  destruct (headings_loop_text (split nl text) {| s_text := ""; s_headings := [] |} [])
    as (lead & rest & Hblank & _ & Htexts & Hrest).
  simpl in Htexts, Hrest. rewrite append_nil in Htexts, Hrest.
  exists lead. split_and!.
  - done.
  - by rewrite Htexts, Hrest, unlines_split.
  - eapply Forall_impl.
    + apply (headings_loop_sections (fun _ => True)); [done..|constructor].
    + by intros s [? _].
Qed.

(** X18: [_split_by_headings] keeps the text. The texts of the sections
    it returns, one after the other, are the text with a closing line
    break, but for a blank stretch at the start; and no section it
    returns is blank. *)
Theorem X18_split_by_headings_keeps_the_text text :
  exists lead,
    strip lead = "" /\
    lead +:+ texts_of (_split_by_headings text) = text +:+ nl /\
    Forall (fun s => nonempty (strip (s_text s)) = true) (_split_by_headings text).
Proof.
  destruct (split_by_headings_text text) as (lead & Hlead & Htexts & Hall).
  exists lead. split_and!; [by apply strip_empty|done..].
Qed.

Lemma split_blank_text text : blank text = true -> _split_by_headings text = [].
Proof.
  intros Hblank.
  destruct (split_by_headings_text text) as (lead & Hlead & Htexts & Hall).
  destruct (_split_by_headings text) as [|s secs]; [done|]. exfalso.
  apply Forall_cons in Hall as [Hs _]. rewrite nonempty_strip in Hs.
  assert (blank (lead +:+ texts_of (s :: secs)) = true) as Hb.
  { rewrite Htexts, blank_app, Hblank. done. }
  simpl in Hb. rewrite !blank_app in Hb.
  destruct (blank (s_text s)); [done|]. simpl in Hb. by rewrite andb_false_r in Hb.
Qed.

End heading_extras.

Section semantic_extras.

Import Str Chunking ChunkingSpec.

Variable encode : string -> Py.result (list Z).
Variable decode : list Z -> string.
Variable chunk_size : Z.
Variable chunk_overlap : Z.

(** X19: a document without text gives no unit, and the tokenizer is
    not asked: when the text, or every page if there are pages, is
    blank, [chunk_text] returns the empty list whatever the tokenizer
    does. *)
Theorem X19_blank_document_gives_no_unit text metadata :
  (md_page_content metadata = [] -> strip text = "") ->
  Forall (fun page => strip (get_default (pd_text page) "") = "")
    (md_page_content metadata) ->
  chunk_text encode decode chunk_size chunk_overlap text metadata = Ok [].
Proof.
  intros Htext Hpages. unfold chunk_text, semantic_body.
  destruct (md_page_content metadata) as [|page pages] eqn:Hpc.
  - unfold _chunk_by_semantic_boundaries.
    rewrite split_blank_text; [reflexivity|]. apply strip_empty. by apply Htext.
  - assert (forall ps,
              Forall (fun page => strip (get_default (pd_text page) "") = "") ps ->
              _chunk_by_pages encode decode chunk_size chunk_overlap ps metadata = Ok [])
      as Hnone.
    { intros ps Hps. induction Hps as [|p ps Hp _ IH]; [done|].
      simpl. by rewrite Hp. }
    by rewrite (Hnone _ Hpages).
Qed.


Lemma stitched_frame prev orig cur :
  stitched_to encode decode chunk_overlap prev orig cur ->
  chunk_id cur = chunk_id orig /\ location cur = location orig
  /\ headings cur = headings orig.
Proof.
  intros (overlap_text & _ & [[_ ->]|(_ & n & _ & ->)]); done.
Qed.

Lemma apply_overlap_frame {A} (f : ChunkData -> A) chunks out :
  (forall prev orig cur,
     stitched_to encode decode chunk_overlap prev orig cur -> f cur = f orig) ->
  _apply_overlap encode decode chunk_overlap chunks = Ok out ->
  map f out = map f chunks.
Proof.
  intros Hf Hrun.
  destruct (apply_overlap_shape _ _ _ _ _ Hrun) as (Hlen & Hfirst & Hrest).
  apply list_eq. intros i. rewrite !list_lookup_fmap.
  destruct i as [|i]; [by rewrite Hfirst|].
  destruct (chunks !! S i) as [orig|] eqn:Horig.
  - assert (is_Some (out !! S i)) as [cur Hcur].
    { apply lookup_lt_is_Some. rewrite Hlen. by eapply lookup_lt_Some. }
    assert (is_Some (out !! i)) as [prev Hprev].
    { apply lookup_lt_is_Some. apply lookup_lt_Some in Hcur. lia. }
    rewrite Hcur. simpl. f_equal. by eapply Hf, Hrest.
  - apply lookup_ge_None in Horig. rewrite <- Hlen in Horig.
    apply lookup_ge_None in Horig. by rewrite Horig.
Qed.

(** X20: the overlap changes the text and the token count of a unit and
    nothing else: [_apply_overlap] returns as many units, with the same
    ids, locations and headings, in the same order. *)
Theorem X20_overlap_keeps_ids_and_headings chunks out :
  _apply_overlap encode decode chunk_overlap chunks = Ok out ->
  map chunk_id out = map chunk_id chunks /\
  map location out = map location chunks /\
  map headings out = map headings chunks.
Proof.
  intros Hrun. split_and!; (eapply apply_overlap_frame; [|done]);
    intros prev orig cur Hst; by destruct (stitched_frame _ _ _ Hst) as (? & ? & ?).
Qed.

Lemma create_chunk_data_headings t metadata page_num page_type hs sid u :
  _create_chunk_data encode t metadata page_num page_type hs sid = Ok u ->
  headings u = hs.
Proof.
  unfold _create_chunk_data, count_tokens.
  destruct (encode t); simpl; [|done]. by intros [= <-].
Qed.

Lemma sub_chunks_loop_headings metadata page_num page_type hs i j sub_chunks units :
  sub_chunks_loop encode metadata page_num page_type hs i j sub_chunks = Ok units ->
  Forall (fun u => headings u = hs) units.
Proof.
  revert j units. induction sub_chunks as [|t sub_chunks IH]; intros j units; simpl.
  - by intros [= <-].
  - destruct (_create_chunk_data _ _ _ _ _ _ _) as [u|] eqn:Hu; simpl; [|done].
    destruct (sub_chunks_loop _ _ _ _ _ _ _ _) as [more|] eqn:Hmore; simpl; [|done].
    intros [= <-]. constructor; [by eapply create_chunk_data_headings|by eapply IH].
Qed.

Lemma sections_loop_headings (Q : list string -> Prop) metadata page_num page_type i
    sections units :
  sections_loop encode chunk_size metadata page_num page_type i sections = Ok units ->
  Forall (fun s => Q (s_headings s)) sections ->
  Forall (fun u => Q (headings u)) units.
Proof.
  revert i units. induction sections as [|s sections IH]; intros i units; simpl.
  - by intros [= <-].
  - intros Hrun Hall. apply Forall_cons in Hall as [Hs Hall].
    destruct (negb (nonempty (strip (s_text s)))); [by eapply IH|].
    destruct (count_tokens encode (s_text s)) as [n|]; simpl in Hrun; [|done].
    destruct (chunk_size <? n).
    + destruct (_split_large_section _ _ _ _) as [subs|]; simpl in Hrun; [|done].
      destruct (sub_chunks_loop _ _ _ _ _ _ _ _) as [here|] eqn:Hhere;
        simpl in Hrun; [|done].
      destruct (sections_loop _ _ _ _ _ _ _) as [more|] eqn:Hmore;
        simpl in Hrun; [|done].
      injection Hrun as <-. apply Forall_app. split; [|by eapply IH].
      apply sub_chunks_loop_headings in Hhere.
      eapply Forall_impl; [done|]. by intros u ->.
    + destruct (_create_chunk_data _ _ _ _ _ _ _) as [u|] eqn:Hu;
        simpl in Hrun; [|done].
      destruct (sections_loop _ _ _ _ _ _ _) as [more|] eqn:Hmore;
        simpl in Hrun; [|done].
      injection Hrun as <-. constructor; [|by eapply IH].
      by rewrite (create_chunk_data_headings _ _ _ _ _ _ _ Hu).
Qed.

Lemma semantic_boundaries_headings text metadata page_num page_type units :
  _chunk_by_semantic_boundaries encode decode chunk_size chunk_overlap
    text metadata page_num page_type = Ok units ->
  Forall (fun u => heading_trail (headings u)) units.
Proof.
  unfold _chunk_by_semantic_boundaries. intros Hrun.
  destruct (sections_loop _ _ _ _ _ _ _) as [chunks|] eqn:Hloop; simpl in Hrun; [|done].
  apply (sections_loop_headings heading_trail) in Hloop.
  - apply Forall_map in Hloop. apply Forall_map.
    by rewrite (apply_overlap_frame headings chunks units
                  (fun p o c H => proj2 (proj2 (stitched_frame p o c H))) Hrun).
  - eapply Forall_impl.
    + apply (headings_loop_sections heading_trail).
      * intros line Hh. split; [simpl; lia|]. constructor; [by exists line|done].
      * split; [simpl; lia|done].
      * constructor.
    + by intros s [_ ?].
Qed.

(** X21: a unit carries one heading at most. Every unit that
    [chunk_text] returns has either no heading or the single heading
    that opened its section, the stripped text of a line that matches a
    heading pattern; headings of higher levels are not accumulated. *)
Theorem X21_units_carry_one_heading_at_most text metadata units :
  chunk_text encode decode chunk_size chunk_overlap text metadata = Ok units ->
  Forall (fun u => heading_trail (headings u)) units.
Proof.
  unfold chunk_text. intros Hrun.
  assert (forall us, semantic_body encode decode chunk_size chunk_overlap text metadata
                     = Ok us -> Forall (fun u => heading_trail (headings u)) us) as Hsem.
  { unfold semantic_body. intros us.
    destruct (md_page_content metadata) as [|page pages] eqn:Hpc;
      [apply semantic_boundaries_headings|].
    rewrite <- Hpc. clear Hpc. generalize (md_page_content metadata). intros ps.
    revert us. induction ps as [|p ps IH]; intros us; simpl.
    - by intros [= <-].
    - destruct (negb _); [by apply IH|].
      destruct (_chunk_by_semantic_boundaries _ _ _ _ _ _ _ _) as [here|] eqn:Hhere;
        simpl; [|done].
      destruct (_chunk_by_pages _ _ _ _ _ _) as [more|]; simpl; [|done].
      intros [= <-]. apply Forall_app. split; [|by apply IH].
      by eapply semantic_boundaries_headings. }
  destruct (semantic_body _ _ _ _ _ _) as [us|e]; simpl in Hrun.
  { injection Hrun as <-. by apply Hsem. }
  destruct (is_Exception e); [|done].
  clear Hsem. unfold _simple_chunk in Hrun.
  destruct (encode text) as [tokens|]; simpl in Hrun; [|done].
  destruct (range_step _ _) as [offsets|]; simpl in Hrun; [|done].
  revert units Hrun. induction offsets as [|i offsets IH]; intros units; simpl.
  - by intros [= <-].
  - unfold simple_chunk_at at 1, floordiv.
    destruct (chunk_size =? 0); simpl; [done|].
    destruct (simple_chunk_loop _ _ _ _ _) as [more|]; simpl; [|done].
    intros [= <-]. constructor; [|by apply IH].
    split; [simpl; lia|done].
Qed.

(** X22: with a tokenizer that never raises the fallback is never
    taken: [chunk_text] returns, and what it returns is the result of
    the semantic path. *)
Theorem X22_fallback_needs_a_tokenizer_error text metadata :
  total_tokenizer encode ->
  exists units,
    chunk_text encode decode chunk_size chunk_overlap text metadata = Ok units /\
    semantic_body encode decode chunk_size chunk_overlap text metadata = Ok units.
Proof. intros Htotal. by apply chunk_text_total. Qed.

End semantic_extras.

(** ** The prompt and the citations *)

Section citation_extras.

Import Str Re Rag RagSpec.

Lemma length_take n s :
  String.length (take n s) = Nat.min n (String.length s).
Proof.
  unfold take. revert s. induction n as [|n IH]; intros [|c s]; simpl; try done.
  by rewrite IH.
Qed.

Lemma snippet_length s : (String.length (snippet s) <= 203)%nat.
Proof.
  unfold snippet. destruct (200 <? String.length s)%nat eqn:E.
  - rewrite length_append, length_take.
    pose proof (Nat.le_min_l 200 (String.length s)).
    change (String.length "...") with 3%nat. lia.
  - apply Nat.ltb_ge in E. lia.
Qed.

Lemma citations_loop_from_retrieved matches retrieved :
  Forall (fun c => exists unit, In unit retrieved /\ c = cite unit)
    (citations_loop matches retrieved)
  /\ (length (citations_loop matches retrieved) <= length matches)%nat.
Proof.
  induction matches as [|m matches [IH1 IH2]]; simpl; [by split|].
  destruct (int m) as [n|]; [|split; [done|lia]].
  destruct ((0 <=? n - 1) && (n - 1 <? len retrieved)).
  - destruct (getitem retrieved (n - 1)) as [chunk|] eqn:Hget.
    + split; [|simpl; lia]. constructor; [|done].
      exists chunk. split; [by eapply getitem_In|done].
    + split; [done|lia].
  - split; [done|lia].
Qed.

(** X23: the citations are citations of retrieved units. Whatever the
    response, every citation that [extract_citations] returns is built
    from a unit of [retrieved_chunks]; there are no more citations than
    markers; and the snippet of every source that [format_sources] makes
    of them has 203 characters at most. *)
Theorem X23_citations_come_from_retrieved_units response retrieved :
  Forall (fun c => exists unit, In unit retrieved /\ c = cite unit)
    (extract_citations response retrieved) /\
  (length (extract_citations response retrieved)
   <= length (findall_markers None response))%nat /\
  Forall (fun src => (String.length (src_snippet src) <= 203)%nat)
    (format_sources (extract_citations response retrieved)).
Proof.
  unfold extract_citations.
  destruct (citations_loop_from_retrieved (findall_markers None response) retrieved)
    as [Hfrom Hlen].
  split_and!; [done..|].
  unfold format_sources. apply Forall_map. simpl.
  eapply Forall_impl; [done|]. intros c (unit & _ & ->). simpl.
  apply snippet_length.
Qed.

Lemma context_part_label i chunk :
  exists rest, context_part i chunk = marker (of_Z i) +:+ rest.
Proof.
  assert (forall rest,
            "[" +:+ of_Z i +:+ "] Source: " +:+ rest
            = marker (of_Z i) +:+ " Source: " +:+ rest) as Hlabel.
  { intros rest. unfold marker. rewrite !app_assoc_string. by unfold_append. }
  unfold context_part.
  destruct (Index.loc_page (Index.h_location chunk)) as [page|];
    [destruct (page =? 0)|];
    destruct (Index.h_headings chunk);
    rewrite ?app_assoc_string; rewrite Hlabel; by eexists.
Qed.

Lemma context_parts_nth retrieved : forall i k chunk,
  nth_error retrieved k = Some chunk ->
  nth_error (context_parts i retrieved) k = Some (context_part (i + Z.of_nat k) chunk).
Proof.
  induction retrieved as [|c retrieved IH]; intros i [|k] chunk; simpl; try done.
  - intros [= <-]. by rewrite Z.add_0_r.
  - intros H. rewrite (IH _ _ _ H). do 2 f_equal. lia.
Qed.

(** X24: the prompt and the extractor agree on the numbers. The unit at
    position [k] of the retrieved units is labelled [[k+1]] in the
    context block of the prompt, and a response that cites [[k+1]], and
    nothing else, is resolved to that unit; this for every label that
    [int] converts, of 4300 digits at most, which the label of a list
    that fits in memory is. *)
Theorem X24_context_labels_resolve retrieved k chunk before after :
  nth_error retrieved k = Some chunk ->
  ~ has_marker before -> ~ has_marker after ->
  (exists rest,
     nth_error (context_parts 1 retrieved) k
     = Some (marker (of_Z (Z.of_nat k + 1)) +:+ rest)) /\
  extract_citations (before +:+ marker (of_Z (Z.of_nat k + 1)) +:+ after) retrieved
  = if (String.length (of_Z (Z.of_nat k + 1)) <=? 4300)%nat then [cite chunk] else [].
Proof.
  intros Hk Hbefore Hafter. split.
  - rewrite (context_parts_nth _ _ _ _ Hk).
    destruct (context_part_label (1 + Z.of_nat k) chunk) as [rest Hrest].
    exists rest. rewrite Hrest. by rewrite Z.add_comm.
  - set (n := Z.of_nat k + 1).
    change (before +:+ marker (of_Z n) +:+ after)
      with (render [(before, of_Z n)] after).
    unfold extract_citations. rewrite findall_render.
    2: { split; [|done]. constructor; [|done]. split; [done|].
         apply of_Z_numeral. lia. }
    simpl map. rewrite citations_loop_cons. cbn [citations_loop]. rewrite app_nil_r.
    destruct (String.length (of_Z n) <=? 4300)%nat; [|done].
    rewrite int_of_Z by lia.
    assert (1 <= n <= len retrieved) as Hn.
    { assert (k < length retrieved)%nat by (apply nth_error_Some; congruence).
      unfold n, len. lia. }
    destruct (resolve_in_range retrieved n Hn) as (unit & Hunit & ->).
    replace (Z.to_nat (n - 1)) with k in Hunit by lia. congruence.
Qed.

End citation_extras.

(** ** The further properties on sample inputs *)

Section index_extras_samples.

Import Index IndexSpec IndexSamples Embed.

Local Abbreviation best_two := (ranked [(9 # 10)%Q; (7 # 10)%Q] [0; 1]).

(** The filter theorem at a search of [two_docs] for document 2. *)
Lemma X1_search_respects_filter_witness :
  Forall (fun h => exists n, h_document_id h = Some n /\ In n [2])
    [mk_hit (unit_of "chunk_2_1_0" 2) (7 # 10)%Q].
Proof.
  apply (X1_search_respects_filter normalize_id best_two (remote [])
           two_docs [1%Q; 0%Q] 2 [2]).
  - discriminate.
  - left. reflexivity.
Defined.

(** The provenance theorem at a search of [two_docs]. *)
Lemma X2_search_hits_are_stored_witness :
  Forall (fun h => exists md score, In md (metadata two_docs) /\ h = mk_hit md score)
    [mk_hit (unit_of "chunk_1_1_0" 1) (9 # 10)%Q;
     mk_hit (unit_of "chunk_2_1_0" 2) (7 # 10)%Q].
Proof.
  apply (X2_search_hits_are_stored normalize_id best_two two_docs [1%Q; 0%Q] 2 None).
  reflexivity.
Defined.

(** The alignment theorem at the first unit added to an empty
    collection. *)
Lemma X3_add_chunks_keeps_alignment_witness :
  aligned (add_chunks normalize_id disk_ok [new_chunk] empty_collection).1 /\
  len (metadata (add_chunks normalize_id disk_ok [new_chunk] empty_collection).1)
  = len (metadata empty_collection) + len [new_chunk].
Proof.
  apply (X3_add_chunks_keeps_alignment normalize_id disk_ok [new_chunk] empty_collection).
  - intros rows rows' [= <-]. reflexivity.
  - exists {| d := 2; xb := [] |}. split; reflexivity.
  - reflexivity.
Defined.

(** The theorem on partial adds at a batch whose second unit has no
    id. *)
Lemma X4_add_chunks_not_atomic_witness :
  let out := add_chunks normalize_id disk_ok [new_chunk; chunk_without_id]
               empty_collection in
  (exists e, out.2 = Raise e /\ exn_cls e = KeyError) /\
  index out.1 = Some {| d := 2; xb := [[1%Q; 0%Q]; [0%Q; 1%Q]] |} /\
  (exists done, metadata out.1 = metadata empty_collection ++ done
                /\ (length done < length [new_chunk; chunk_without_id])%nat) /\
  disk out.1 = disk empty_collection.
Proof.
  apply (X4_add_chunks_not_atomic normalize_id disk_ok [new_chunk; chunk_without_id]
           empty_collection {| d := 2; xb := [] |}
           [[1%Q; 0%Q]; [0%Q; 1%Q]] [[1%Q; 0%Q]; [0%Q; 1%Q]]
           {| d := 2; xb := [[1%Q; 0%Q]; [0%Q; 1%Q]] |});
    try reflexivity.
  apply Exists_cons_tl, Exists_cons_hd. reflexivity.
Defined.

(** The constructor theorem in an empty directory. *)
Lemma X5_init_loads_both_or_starts_empty_witness :
  exists c,
    FAISSIndex_init disk_ok None "bot_1" ∅ = Ok c /\
    collection_name c = "bot_1" /\ disk c = ∅ /\
    ((exists ix md,
        (∅ : gmap string file) !! index_path c = Some (IndexFile ix) /\
        (∅ : gmap string file) !! metadata_path c = Some (PickleFile md) /\
        index c = Some ix /\ metadata c = md)
     \/ (index c = Some {| d := 384; xb := [] |} /\ metadata c = [])) /\
    (forall ix md,
       disk_ok (index_path c) = None -> disk_ok (metadata_path c) = None ->
       (∅ : gmap string file) !! index_path c = Some (IndexFile ix) ->
       (∅ : gmap string file) !! metadata_path c = Some (PickleFile md) ->
       index c = Some ix /\ metadata c = md).
Proof.
  apply (X5_init_loads_both_or_starts_empty disk_ok None "bot_1" ∅).
  - reflexivity.
  - intros path e [=].
Defined.

(** The round trip at the first unit added to an empty collection. *)
Lemma X6_save_load_round_trip_witness :
  let out := (add_chunks normalize_id disk_ok [new_chunk] empty_collection).1 in
  exists c,
    FAISSIndex_init disk_ok None (collection_name empty_collection) (disk out) = Ok c /\
    index c = index out /\ metadata c = metadata out.
Proof.
  apply (X6_save_load_round_trip normalize_id disk_ok disk_ok None [new_chunk]
           empty_collection); try reflexivity.
  discriminate.
Defined.

(** The deletion theorem at [two_docs]. *)
Lemma X7_delete_collection_witness :
  let out := FAISSIndex_delete_collection disk_ok two_docs in
  out.2 = Ok tt /\
  index out.1 = None /\ metadata out.1 = [] /\
  disk out.1 = delete (metadata_path two_docs) (delete (index_path two_docs) (disk two_docs)) /\
  vectors_count (FAISSIndex_get_collection_info out.1) = 0 /\
  forall q top_k filt,
    FAISSIndex_search normalize_id best_two out.1 q top_k filt = Ok [].
Proof.
  apply (X7_delete_collection normalize_id best_two disk_ok two_docs); reflexivity.
Defined.

(** The theorem on collections without document ids at a search for
    two hits. *)
Lemma X8_search_without_document_ids_witness :
  (length [mk_hit (unit_without_document "chunk_7_1_0") (9 # 10)%Q] <= 1)%nat /\
  (truthy None = true ->
   [mk_hit (unit_without_document "chunk_7_1_0") (9 # 10)%Q] = []).
Proof.
  apply (X8_search_without_document_ids normalize_id best_two no_documents
           [1%Q; 0%Q] 2 None).
  - repeat constructor.
  - reflexivity.
Defined.

(** The ingestion theorem at two units of the chunker. *)
Lemma X9_ingested_units_record_no_document_witness :
  let embedded := attach chunker_units [[1%Q; 0%Q]; [1%Q; 0%Q]] in
  let out := (add_chunks normalize_id disk_ok (map as_chunk embedded)
                empty_collection).1 in
  metadata out = metadata empty_collection ++ map stored_unit chunker_units /\
  (no_document_ids empty_collection -> no_document_ids out) /\
  (no_document_ids empty_collection ->
   forall q top_k filt hits,
     FAISSIndex_search normalize_id best_two out q top_k filt = Ok hits ->
     (length hits <= 1)%nat).
Proof.
  apply (X9_ingested_units_record_no_document normalize_id best_two disk_ok
           embed_constant chunker_units
           (attach chunker_units [[1%Q; 0%Q]; [1%Q; 0%Q]]) empty_collection);
    reflexivity.
Defined.

(** The theorem on failed deletes at a directory whose files cannot be
    removed. *)
Lemma X10_failed_delete_is_silent_witness :
  exists mgr1 mgr2 c',
    VectorIndexManager_delete_collection disk_full "bot_1" one_doc_manager
    = (mgr1, Ok tt) /\
    collections mgr1 !! "bot_1" = None /\ files mgr1 = files one_doc_manager /\
    VectorIndexManager_get_collection disk_ok None "bot_1" mgr1 = (mgr2, Ok c') /\
    index c' = Some {| d := 2; xb := [[1%Q; 0%Q]] |} /\
    metadata c' = [unit_of "chunk_1_1_0" 1].
Proof.
  apply (X10_failed_delete_is_silent disk_ok disk_full None "bot_1" one_doc_manager
           (set_disk one_doc one_doc_files) {| d := 2; xb := [[1%Q; 0%Q]] |}
           [unit_of "chunk_1_1_0" 1] (Exn OSError "[Errno 28] No space left on device"));
    reflexivity.
Defined.

(** The dimension theorem at a collection created for vectors of 768
    dimensions. *)
Lemma X11_new_collection_has_dimension_384_witness :
  exists mgr1 c,
    (VectorIndex_create_collection disk_ok None recreate_ok false "bot_1" 768
       new_manager).1 = mgr1 /\
    collections mgr1 !! "bot_1" = Some c /\
    index c = Some {| d := 384; xb := [] |} /\ metadata c = [] /\
    files mgr1 = files new_manager /\
    forall chunks rows rows',
      chunks <> [] ->
      embeddings_of chunks = Ok rows -> normalize_id rows = Ok rows' ->
      Exists (fun row => len row <> 384) rows' ->
      let out := VectorIndex_add_chunks normalize_id disk_ok disk_ok None
                   upsert_ok false "bot_1" chunks mgr1 in
      out.2 = Raise (Exn AssertionError "") /\
      collections out.1 !! "bot_1" = Some c /\ files out.1 = files new_manager.
Proof.
  apply (X11_new_collection_has_dimension_384 normalize_id disk_ok disk_ok None
           recreate_ok upsert_ok false "bot_1" 768 new_manager); reflexivity.
Defined.

(** The theorem on Qdrant failures at a client that cannot be
    reached. *)
Lemma X25_qdrant_never_fails_an_add_witness :
  VectorIndex_add_chunks normalize_id disk_ok disk_ok None upsert_down
    true "bot_1" [new_chunk] one_doc_manager
  = VectorIndex_add_chunks normalize_id disk_ok disk_ok None upsert_down
      false "bot_1" [new_chunk] one_doc_manager.
Proof.
  apply (X25_qdrant_never_fails_an_add normalize_id disk_ok disk_ok None upsert_down
           "bot_1" [new_chunk] one_doc_manager).
  intros n points e [= <-]. reflexivity.
Defined.

End index_extras_samples.

Section task_extras_samples.

Import Tasks TasksSpec.

(** The permit theorem at two tasks started. *)
Lemma X12_at_most_two_tasks_run_witness :
  (_semaphore two_started + in_semaphore two_started = 2)%nat
  /\ (in_semaphore two_started <= 2)%nat.
Proof.
  apply (X12_at_most_two_tasks_run
           [Submit "t1" "ingest_document" "{}" 0; Start "t1" 1;
            Submit "t2" "crawl_url" "{}" 2; Start "t2" 3] two_started).
  reflexivity.
Defined.

(** The finality theorem at a task that has returned and is then
    cancelled. *)
Lemma X13_finished_status_never_changes_witness :
  status returned_row = status returned_row.
Proof.
  apply (X13_finished_status_never_changes
           [Submit "t1" "ingest_document" "{}" 0; Start "t1" 1; Return "t1" "indexed" 2]
           [Cancel "t1" 3; Submit "t2" "crawl_url" "{}" 4]
           one_returned
           (submit_task "t2" "crawl_url" "{}" 4 one_returned)
           "t1" returned_row returned_row).
  - reflexivity.
  - reflexivity.
  - reflexivity.
  - left. reflexivity.
  - reflexivity.
Defined.

(** The cancellation theorem at two tasks started. *)
Lemma X14_cancel_never_stops_the_coroutine_witness :
  coroutines (cancel_task "t1" 4 two_started).2 = coroutines two_started /\
  _semaphore (cancel_task "t1" 4 two_started).2 = _semaphore two_started /\
  forall t,
    session two_started !! "t1" = Some t -> terminal (status t) = false ->
    (cancel_task "t1" 4 two_started).1 = true /\
    get_task_status "t1" (cancel_task "t1" 4 two_started).2 = Some CANCELLED.
Proof.
  apply (X14_cancel_never_stops_the_coroutine
           [Submit "t1" "ingest_document" "{}" 0; Start "t1" 1;
            Submit "t2" "crawl_url" "{}" 2; Start "t2" 3] two_started "t1" 4).
  reflexivity.
Defined.

(** The cleanup theorem at a task that has returned. *)
Lemma X15_cleanup_deletes_old_terminal_rows_witness :
  coroutines (cleanup_old_tasks 10 one_returned) = coroutines one_returned /\
  (terminal (status returned_row) = false ->
   session (cleanup_old_tasks 10 one_returned) !! "t1" = Some returned_row) /\
  (terminal (status returned_row) = true ->
   exists c, completed_at returned_row = Some c /\
     session (cleanup_old_tasks 10 one_returned) !! "t1"
     = if c <? 10 then None else Some returned_row).
Proof.
  apply (X15_cleanup_deletes_old_terminal_rows
           [Submit "t1" "ingest_document" "{}" 0; Start "t1" 1; Return "t1" "indexed" 2]
           one_returned "t1" returned_row 10); reflexivity.
Defined.

End task_extras_samples.

Section chunker_extras_samples.

Import Str Chunking ChunkingSpec.

(** The coverage theorem at a text of ten tokens, in windows of four
    tokens with one token of overlap. *)
Lemma X16_fallback_covers_every_token_witness :
  exists units windows,
    _simple_chunk byte_encode byte_decode 4 1 "abcdefghij" doc_7 = Ok units /\
    Forall2 (fun u w => text u = byte_decode w /\ token_count u = len w /\ len w <= 4)
      units windows /\
    concat (map (firstn (Z.to_nat (4 - 1))) windows)
    = [97; 98; 99; 100; 101; 102; 103; 104; 105; 106].
Proof.
  apply (X16_fallback_covers_every_token byte_encode byte_decode 4 1 "abcdefghij" doc_7
           [97; 98; 99; 100; 101; 102; 103; 104; 105; 106]).
  - reflexivity.
  - lia.
Defined.

(** The theorem on repeated ids at the same text. *)
Lemma X17_fallback_ids_repeat_witness :
  exists u0 u1 rest,
    _simple_chunk byte_encode byte_decode 4 1 "abcdefghij" doc_7
    = Ok (u0 :: u1 :: rest) /\
    chunk_id u0 = chunk_id u1 /\ location u0 = location u1.
Proof.
  apply (X17_fallback_ids_repeat byte_encode byte_decode 4 1 "abcdefghij" doc_7
           [97; 98; 99; 100; 101; 102; 103; 104; 105; 106]).
  - reflexivity.
  - lia.
  - unfold len. simpl. lia.
Defined.

(** The theorem on blank documents at a text of spaces and line
    breaks. *)
Lemma X19_blank_document_gives_no_unit_witness :
  chunk_text byte_encode byte_decode 800 150 ("  " +:+ nl +:+ " ") doc_7 = Ok [].
Proof.
  apply (X19_blank_document_gives_no_unit byte_encode byte_decode 800 150
           ("  " +:+ nl +:+ " ") doc_7).
  - reflexivity.
  - constructor.
Defined.

(** The theorem on what the overlap keeps at the units of two short
    sections. *)
Lemma X20_overlap_keeps_ids_and_headings_witness :
  map chunk_id short_units_after = map chunk_id short_units_before /\
  map location short_units_after = map location short_units_before /\
  map headings short_units_after = map headings short_units_before.
Proof.
  apply (X20_overlap_keeps_ids_and_headings byte_encode byte_decode 150
           short_units_before short_units_after).
  by vm_compute.
Defined.

(** The theorem on headings at the units of two short sections. *)
Lemma X21_units_carry_one_heading_at_most_witness :
  Forall (fun u => heading_trail (headings u)) short_units_after.
Proof.
  apply (X21_units_carry_one_heading_at_most byte_encode byte_decode 800 150
           short_sections doc_7 short_units_after).
  by vm_compute.
Defined.

(** The theorem on the fallback at a tokenizer without special
    tokens. *)
Lemma X22_fallback_needs_a_tokenizer_error_witness :
  exists units,
    chunk_text plain_encode byte_decode 800 150 short_sections doc_7 = Ok units /\
    semantic_body plain_encode byte_decode 800 150 short_sections doc_7 = Ok units.
Proof.
  apply (X22_fallback_needs_a_tokenizer_error plain_encode byte_decode 800 150
           short_sections doc_7).
  intros s. by exists (bytes_of s).
Defined.

End chunker_extras_samples.

Section citation_extras_samples.

Import Str Re Rag RagSpec.

(** The theorem on labels at the second unit of the scenario. *)
Lemma X24_context_labels_resolve_witness :
  (exists rest,
     nth_error (context_parts 1 [unit_1; unit_2]) 1
     = Some (marker (of_Z (Z.of_nat 1 + 1)) +:+ rest)) /\
  extract_citations ("See " +:+ marker (of_Z (Z.of_nat 1 + 1)) +:+ ".") [unit_1; unit_2]
  = [cite unit_2].
Proof.
  apply (X24_context_labels_resolve [unit_1; unit_2] 1 unit_2 "See " ".").
  - reflexivity.
  - by apply no_bracket_no_marker.
  - by apply no_bracket_no_marker.
Defined.

End citation_extras_samples.
